(** * The ABI codec of src/123.ts, embedded in Rocq

    The development follows the source file from top to bottom: the logger
    and its typed errors, byte and hex utilities, [Writer], [BigNumber]
    (over the external big-integer library [bn]), [Reader], the coder
    hierarchy with [pack] and [unpack], [AbiCoder], the type parser and the
    parts of [Interface] that decode call results and event logs.

    JavaScript values are a tagged union ([value]); a function that can
    throw returns [Res]; objects that the source mutates (a [Writer], a
    [Reader]) are passed in and returned. *)

From Stdlib Require Import ZArith List String Ascii Bool Lia.
From Stdlib Require Import Strings.Byte.
Import ListNotations.
Set Warnings "-register-all".
Local Open Scope string_scope.
Local Open Scope Z_scope.
Local Open Scope list_scope.

Infix "+++" := String.append (right associativity, at level 60).

(** ** Logger: error codes and thrown errors (lines 1-360) *)

Inductive ErrorCode :=
| UNKNOWN_ERROR | NOT_IMPLEMENTED | UNSUPPORTED_OPERATION | NETWORK_ERROR
| SERVER_ERROR | TIMEOUT | BUFFER_OVERRUN | NUMERIC_FAULT | MISSING_NEW
| INVALID_ARGUMENT | MISSING_ARGUMENT | UNEXPECTED_ARGUMENT | CALL_EXCEPTION
| INSUFFICIENT_FUNDS | NONCE_EXPIRED | REPLACEMENT_UNDERPRICED
| UNPREDICTABLE_GAS_LIMIT | TRANSACTION_REPLACED.

Definition ErrorCode_eqb (a b : ErrorCode) : bool :=
  match a, b with
  | UNKNOWN_ERROR, UNKNOWN_ERROR | NOT_IMPLEMENTED, NOT_IMPLEMENTED
  | UNSUPPORTED_OPERATION, UNSUPPORTED_OPERATION | NETWORK_ERROR, NETWORK_ERROR
  | SERVER_ERROR, SERVER_ERROR | TIMEOUT, TIMEOUT
  | BUFFER_OVERRUN, BUFFER_OVERRUN | NUMERIC_FAULT, NUMERIC_FAULT
  | MISSING_NEW, MISSING_NEW | INVALID_ARGUMENT, INVALID_ARGUMENT
  | MISSING_ARGUMENT, MISSING_ARGUMENT | UNEXPECTED_ARGUMENT, UNEXPECTED_ARGUMENT
  | CALL_EXCEPTION, CALL_EXCEPTION | INSUFFICIENT_FUNDS, INSUFFICIENT_FUNDS
  | NONCE_EXPIRED, NONCE_EXPIRED | REPLACEMENT_UNDERPRICED, REPLACEMENT_UNDERPRICED
  | UNPREDICTABLE_GAS_LIMIT, UNPREDICTABLE_GAS_LIMIT
  | TRANSACTION_REPLACED, TRANSACTION_REPLACED => true
  | _, _ => false
  end.

(** The class of a thrown object: an [Error] made by the program, or the
    [TypeError] the engine raises when a property of [undefined] is read. *)
Inductive ErrorClass := JsError | JsTypeError.

(** A JavaScript string is a sequence of UTF-16 code units.  Program text
    (type names, hex data, messages) is written as a Rocq [string] and
    embedded with [js]. *)
Definition jsstring := list Z.

Definition js (s : string) : jsstring :=
  map (fun a => Z.of_N (N_of_ascii a)) (list_ascii_of_string s).

(** The strings whose code units are all below 256, read back as program
    text; a string with a larger unit matches none of the source's regular
    expressions. *)
Fixpoint latin1 (u : jsstring) : option string :=
  match u with
  | [] => Some EmptyString
  | c :: r =>
      if (0 <=? c) && (c <? 256)
      then option_map (String (ascii_of_N (Z.to_N c))) (latin1 r)
      else None
  end.

(** [BigNumber]: the frozen object holding the canonical hex string. *)
Record BigNumber := mkBigNumber { _hex : string }.

(** The JavaScript values the codec handles.  A [VResult] is the frozen
    array [unpack] returns: an item [VError e] stands for the getter that
    throws [e] when the index is read, and so does a [VError] in [named]. *)
Inductive value :=
| VUndefined
| VNull
| VBool (b : bool)
| VNumber (n : Z)
| VString (s : jsstring)
| VBigNumber (b : BigNumber)
| VBytes (bs : list byte)
| VArray (items : list value)
| VResult (items : list value) (named : list (string * value))
| VIndexed (hash : value)
| VError (e : error)
with error :=
| MkError (cls : ErrorClass) (code : option ErrorCode) (reason : value)
          (params : list (string * value)).

Definition err_class (e : error) := let 'MkError c _ _ _ := e in c.
Definition err_code (e : error) := let 'MkError _ c _ _ := e in c.
Definition err_reason (e : error) := let 'MkError _ _ r _ := e in r.
Definition err_params (e : error) := let 'MkError _ _ _ p := e in p.

(** Outcome of a call: a value, or a thrown error. *)
Inductive Res (A : Type) :=
| Ok (a : A)
| Throw (e : error).
Arguments Ok {A} a.
Arguments Throw {A} e.

Definition bind {A B} (m : Res A) (k : A -> Res B) : Res B :=
  match m with
  | Ok a => k a
  | Throw e => Throw e
  end.

Notation "x <- m ;; k" := (bind m (fun x => k))
  (at level 61, m at next level, right associativity).
Notation "' p <- m ;; k" := (bind m (fun x => let p := x in k))
  (at level 61, p pattern, m at next level, right associativity).

Fixpoint assoc {A} (k : string) (l : list (string * A)) : option A :=
  match l with
  | [] => None
  | (k', v) :: r => if String.eqb k k' then Some v else assoc k r
  end.

(** [obj[k] = v] on the own properties of an object: replace in place or
    append. *)
Fixpoint assoc_set {A} (k : string) (v : A) (l : list (string * A)) : list (string * A) :=
  match l with
  | [] => [(k, v)]
  | (k', v') :: r => if String.eqb k k' then (k, v) :: r else (k', v') :: assoc_set k v r
  end.

(** [Logger.makeError], with censorship off (the initial [_censorErrors]).
    The error gets [reason] and [code], then every key of [params] is
    copied onto it, so a [reason] key in [params] replaces the message.
    The human-readable [message] (the reason followed by the JSON of the
    parameters) is not kept. *)
Definition makeError (message : string) (code : option ErrorCode)
    (params : list (string * value)) : error :=
  let code := match code with Some c => c | None => UNKNOWN_ERROR end in
  let reason := VString (js message) in
  MkError JsError (Some code)
    (match assoc "reason" params with Some r => r | None => reason end)
    params.

Definition throwError {A} (message : string) (code : ErrorCode)
    (params : list (string * value)) : Res A :=
  Throw (makeError message (Some code) params).

Definition throwArgumentError {A} (message : string) (name : value) (v : value) : Res A :=
  throwError message INVALID_ARGUMENT [("argument", name); ("value", v)].

(** [new Error(message)]: no [code]. *)
Definition plainError (message : string) : error :=
  MkError JsError None (VString (js message)) [].

(** The engine's error when a property of [undefined] or [null] is read. *)
Definition typeError (message : string) : error :=
  MkError JsTypeError None (VString (js message)) [].

Definition MAX_SAFE : Z := 0x1fffffffffffff.

(** [Logger.checkSafeUint53] on a number. *)
Definition checkSafeUint53 (n : Z) (message : string) : Res unit :=
  if (n <? 0) || (n >=? 0x1fffffffffffff)
  then throwError message NUMERIC_FAULT
         [("operation", VString (js "checkSafeInteger"));
          ("fault", VString (js "out-of-safe-range")); ("value", VNumber n)]
  else Ok tt.

(** [Logger.checkArgumentCount]. *)
Definition checkArgumentCount (count expectedCount : Z) (message : string) : Res unit :=
  let message := if String.eqb message "" then "" else ": " +++ message in
  if count <? expectedCount
  then throwError ("missing argument" +++ message) MISSING_ARGUMENT
         [("count", VNumber count); ("expectedCount", VNumber expectedCount)]
  else if count >? expectedCount
  then throwError ("too many arguments" +++ message) UNEXPECTED_ARGUMENT
         [("count", VNumber count); ("expectedCount", VNumber expectedCount)]
  else Ok tt.

(** ** Strings of program text *)

Fixpoint string_drop (n : nat) (s : string) : string :=
  match n, s with
  | O, _ => s
  | S n', String _ r => string_drop n' r
  | S _, EmptyString => EmptyString
  end.

Fixpoint string_take (n : nat) (s : string) : string :=
  match n, s with
  | S n', String c r => String c (string_take n' r)
  | _, _ => EmptyString
  end.

(** [s.substring(a)] and [s.substring(a, b)] for [0 <= a <= b]. *)
Definition substring_from (a : nat) (s : string) : string := string_drop a s.
Definition substring (a b : nat) (s : string) : string :=
  string_take (b - a) (string_drop a s).

Definition slen (s : string) : Z := Z.of_nat (String.length s).

Fixpoint string_forallb (f : ascii -> bool) (s : string) : bool :=
  match s with
  | EmptyString => true
  | String c r => f c && string_forallb f r
  end.

Fixpoint string_map (f : ascii -> ascii) (s : string) : string :=
  match s with
  | EmptyString => EmptyString
  | String c r => String (f c) (string_map f r)
  end.

Definition code (c : ascii) : Z := Z.of_N (N_of_ascii c).

(** [s[0] === c] *)
Definition first_is (c : ascii) (s : string) : bool :=
  match s with
  | String a _ => Ascii.eqb a c
  | EmptyString => false
  end.
Definition chr (z : Z) : ascii := ascii_of_N (Z.to_N z).

Definition is_digit (c : ascii) : bool := (48 <=? code c) && (code c <=? 57).
Definition is_lower_hex (c : ascii) : bool := (97 <=? code c) && (code c <=? 102).
Definition is_upper_hex (c : ascii) : bool := (65 <=? code c) && (code c <=? 70).
Definition is_hex (c : ascii) : bool := is_digit c || is_lower_hex c || is_upper_hex c.

Definition toLowerCase_char (c : ascii) : ascii :=
  if (65 <=? code c) && (code c <=? 90) then chr (code c + 32) else c.
Definition toUpperCase_char (c : ascii) : ascii :=
  if (97 <=? code c) && (code c <=? 122) then chr (code c - 32) else c.

(** [toLowerCase] and [toUpperCase], on the ASCII letters (the only
    letters in the strings the codec changes the case of). *)
Definition toLowerCase (s : string) : string := string_map toLowerCase_char s.
Definition toUpperCase (s : string) : string := string_map toUpperCase_char s.

(** Value of a hex digit, as [parseInt(c, 16)] reads it. *)
Definition hexval (c : ascii) : Z :=
  if is_digit c then code c - 48
  else if is_lower_hex c then code c - 87
  else if is_upper_hex c then code c - 55
  else 0.

(** ** The external big-integer library [bn] (imported, line 1005)

    A [BN] is an arbitrary-precision integer, kept as sign and magnitude in
    26-bit words.  It is modelled by [Z]; each operation below is the
    library's, on the integer it denotes. *)
Module BN.

(** Value of a digit in a base up to 36, either case. *)
Definition digitval (c : ascii) : Z :=
  if is_digit c then code c - 48
  else if (97 <=? code c) && (code c <=? 122) then code c - 87
  else if (65 <=? code c) && (code c <=? 90) then code c - 55
  else 0.

Fixpoint parse (base : Z) (s : string) (acc : Z) : Z :=
  match s with
  | EmptyString => acc
  | String c r => parse base r (acc * base + digitval c)
  end.

(** [new BN(s, base)], with an optional sign. *)
Definition ofString (base : Z) (s : string) : Z :=
  if first_is "-" s then - parse base (string_drop 1 s) 0 else parse base s 0.

Definition digitChar (d : Z) : ascii :=
  if d <? 10 then chr (48 + d) else chr (87 + d).

Fixpoint digits (fuel : nat) (base : Z) (z : Z) (acc : string) : string :=
  match fuel with
  | O => acc
  | S f =>
      if z =? 0 then acc
      else digits f base (z / base) (String (digitChar (z mod base)) acc)
  end.

(** [bn.toString(16)] and [bn.toString(10)]: lower-case digits, no
    leading zero, ["0"] for zero, ["-"] in front of a negative. *)
Definition toString (base : Z) (z : Z) : string :=
  if z =? 0 then "0"
  else
    let d := digits (S (Z.to_nat (Z.log2 (Z.abs z)))) base (Z.abs z) "" in
    if z <? 0 then String "-" d else d.

(** [inotn(width)] on a magnitude: the low [width] bits are flipped, the
    rest of the word that holds bit [width - 1] is cleared and higher
    words are kept. *)
Definition notn (width : Z) (m : Z) : Z :=
  let top := 26 * ((width + 25) / 26) in
  (m / 2 ^ top) * 2 ^ top + (2 ^ width - 1 - m mod 2 ^ width).

Definition toTwos (width : Z) (z : Z) : Z :=
  if z <? 0 then notn width (Z.abs z) + 1 else z.

Definition fromTwos (width : Z) (z : Z) : Z :=
  if Z.testbit (Z.abs z) (width - 1)
  then - (Z.sgn z * notn width (Z.abs z) + 1)
  else z.

(** [maskn(bits)], called on non-negative numbers only. *)
Definition maskn (bits : Z) (z : Z) : Z := z mod 2 ^ bits.

(** [div] truncates toward zero; the divisor is not zero. *)
Definition div (a b : Z) : Z := Z.quot a b.

(** [umod]: the non-negative remainder; [None] is the library's failed
    assertion on a zero modulus. *)
Definition umod (a b : Z) : option Z :=
  if b =? 0 then None else Some (a mod Z.abs b).

(** [toNumber]: [None] is the library's failed assertion when the
    magnitude needs more than 53 bits. *)
Definition toNumber (z : Z) : option Z :=
  if Z.abs z <? 2 ^ 53 then Some z else None.

End BN.

(** ** Byte and hex utilities (lines 736-934) *)

Definition b2z (b : byte) : Z := Z.of_N (Byte.to_N b).

(** Storing a number into a [Uint8Array] keeps it modulo 256. *)
Definition z2b (z : Z) : byte :=
  match Byte.of_N (Z.to_N (z mod 256)) with
  | Some b => b
  | None => x00
  end.

Definition len {A} (l : list A) : Z := Z.of_nat (List.length l).

(** [array.slice(a, b)] with the clamping of the language. *)
Definition slice {A} (l : list A) (a b : Z) : list A :=
  let n := len l in
  let k := if a <? 0 then Z.max (n + a) 0 else Z.min a n in
  let final := if b <? 0 then Z.max (n + b) 0 else Z.min b n in
  firstn (Z.to_nat (final - k)) (skipn (Z.to_nat k) l).

(** [array.slice(a)]. *)
Definition slice_from {A} (l : list A) (a : Z) : list A := slice l a (len l).

Definition HexCharacters : string := "0123456789abcdef".

Definition HexCharacters_at (i : Z) : ascii :=
  match String.get (Z.to_nat i) HexCharacters with
  | Some c => c
  | None => "0"%char
  end.

Definition isHexString_text (s : string) : bool :=
  match s with
  | String a (String x r) => Ascii.eqb a "0" && Ascii.eqb x "x" && string_forallb is_hex r
  | _ => false
  end.

(** [isHexString(value, length)]; [length] is [None] when the argument is
    omitted. *)
Definition isHexString (v : value) (length : option Z) : bool :=
  match v with
  | VString u =>
      match latin1 u with
      | Some s =>
          if negb (isHexString_text s) then false
          else match length with
               | Some l => if negb (l =? 0) && negb (slen s =? 2 + 2 * l) then false else true
               | None => true
               end
      | None => false
      end
  | _ => false
  end.

Definition is_byte_number (v : value) : bool :=
  match v with
  | VNumber n => (0 <=? n) && (n <? 256)
  | _ => false
  end.

Fixpoint isBytes_items (result : bool) (items : list value) : Res bool :=
  match items with
  | [] => Ok true
  | v :: r =>
      match result, v with
      | true, VError e => Throw e
      | _, _ => if is_byte_number v then isBytes_items result r else Ok false
      end
  end.

(** [isBytes(value)].  Reading an index of a [VResult] that holds a
    deferred error throws it. *)
Definition isBytes (v : value) : Res bool :=
  match v with
  | VBytes _ => Ok true
  | VArray items => isBytes_items false items
  | VResult items _ => isBytes_items true items
  | _ => Ok false
  end.

Definition byte_of_value (v : value) : byte :=
  match v with
  | VNumber n => z2b n
  | _ => x00
  end.

(** The bytes of a value for which [isBytes] holds. *)
Definition bytes_of (v : value) : list byte :=
  match v with
  | VBytes bs => bs
  | VArray items | VResult items _ => map byte_of_value items
  | _ => []
  end.

Fixpoint hexlify_bytes (bs : list byte) : string :=
  match bs with
  | [] => EmptyString
  | v :: r =>
      String (HexCharacters_at (Z.shiftr (Z.land (b2z v) 0xf0) 4))
        (String (HexCharacters_at (Z.land (b2z v) 0x0f)) (hexlify_bytes r))
  end.

Fixpoint hexlify_number (fuel : nat) (n : Z) (hex : string) : string :=
  match fuel with
  | O => hex
  | S f =>
      if n =? 0 then hex
      else hexlify_number f (n / 16) (String (HexCharacters_at (Z.land n 0xf)) hex)
  end.

(** [hexlify(value)]; no call site passes options.  The values are numbers,
    strings, [BigNumber]s (the [Hexable] objects) and byte arrays. *)
Definition hexlify (v : value) : Res string :=
  match v with
  | VNumber n =>
      _ <- checkSafeUint53 n "invalid hexlify value" ;;
      let hex := hexlify_number 64 n "" in
      if negb (slen hex =? 0)
      then Ok ("0x" +++ (if Z.odd (slen hex) then "0" +++ hex else hex))
      else Ok "0x00"
  | VNull | VUndefined =>
      Throw (typeError "Cannot read properties of undefined (reading 'toHexString')")
  | VBigNumber b => Ok (_hex b)
  | _ =>
      if isHexString v None then
        match v with
        | VString u =>
            match latin1 u with
            | Some s =>
                if Z.odd (slen s)
                then throwArgumentError "hex data is odd-length" (VString (js "value")) v
                else Ok (toLowerCase s)
            | None => throwArgumentError "invalid hexlify value" (VString (js "value")) v
            end
        | _ => throwArgumentError "invalid hexlify value" (VString (js "value")) v
        end
      else
        isb <- isBytes v ;;
        if isb then Ok ("0x" +++ hexlify_bytes (bytes_of v))
        else throwArgumentError "invalid hexlify value" (VString (js "value")) v
  end.

(** The loop of [arrayify] over the hex digits, two at a time. *)
Fixpoint arrayify_hex (hex : string) : list byte :=
  match hex with
  | String c1 (String c2 r) => z2b (16 * hexval c1 + hexval c2) :: arrayify_hex r
  | _ => []
  end.

Fixpoint arrayify_number (fuel : nat) (n : Z) (result : list byte) : list byte :=
  match fuel with
  | O => result
  | S f =>
      if n =? 0 then result
      else arrayify_number f (n / 256) (z2b (Z.land n 0xff) :: result)
  end.

Definition arrayify_text (s : string) (v : value) : Res (list byte) :=
  let hex := substring_from 2 s in
  if Z.odd (slen hex)
  then throwArgumentError "hex data is odd-length" (VString (js "value")) v
  else Ok (arrayify_hex hex).

(** [arrayify(value)]; no call site passes options. *)
Definition arrayify (v : value) : Res (list byte) :=
  match v with
  | VNumber n =>
      _ <- checkSafeUint53 n "invalid arrayify value" ;;
      let result := arrayify_number 64 n [] in
      Ok (if len result =? 0 then [x00] else result)
  | VNull | VUndefined =>
      Throw (typeError "Cannot read properties of undefined (reading 'toHexString')")
  | VBigNumber b =>
      if isHexString_text (_hex b) then arrayify_text (_hex b) (VString (js (_hex b)))
      else throwArgumentError "invalid arrayify value" (VString (js "value"))
             (VString (js (_hex b)))
  | _ =>
      if isHexString v None then
        match v with
        | VString u =>
            match latin1 u with
            | Some s => arrayify_text s v
            | None => throwArgumentError "invalid arrayify value" (VString (js "value")) v
            end
        | _ => throwArgumentError "invalid arrayify value" (VString (js "value")) v
        end
      else
        isb <- isBytes v ;;
        if isb then Ok (bytes_of v)
        else throwArgumentError "invalid arrayify value" (VString (js "value")) v
  end.

Fixpoint concat_arrays (objects : list (list byte)) : list byte :=
  match objects with
  | [] => []
  | o :: r => o ++ concat_arrays r
  end.

Fixpoint mapM {A B} (f : A -> Res B) (l : list A) : Res (list B) :=
  match l with
  | [] => Ok []
  | a :: r => b <- f a ;; bs <- mapM f r ;; Ok (b :: bs)
  end.

(** [concat(items)]: every item through [arrayify], then one array. *)
Definition concat (items : list value) : Res (list byte) :=
  objects <- mapM arrayify items ;;
  Ok (concat_arrays objects).

(** [hexZeroPad(value, length)] on a string. *)
Fixpoint hexZeroPad_loop (fuel : nat) (value : string) (length : Z) : string :=
  match fuel with
  | O => value
  | S f =>
      if slen value <? 2 * length + 2
      then hexZeroPad_loop f ("0x0" +++ substring_from 2 value) length
      else value
  end.

Definition hexZeroPad (value : string) (length : Z) : Res string :=
  if negb (isHexString_text value)
  then throwArgumentError "invalid hex string" (VString (js "value")) (VString (js value))
  else if slen value >? 2 * length + 2
  then throwArgumentError "value out of range" (VString (js "value")) (VNumber length)
  else Ok (hexZeroPad_loop (Z.to_nat (2 * length + 2)) value length).

(** [hexDataSlice(data, offset, endOffset)] on a string. *)
Definition hexDataSlice (data : string) (offset endOffset : Z) : Res string :=
  if negb (isHexString_text data) || Z.odd (slen data)
  then throwArgumentError "invalid hexData" (VString (js "value")) (VString (js data))
  else Ok ("0x" +++ substring (Z.to_nat (2 + 2 * offset)) (Z.to_nat (2 + 2 * endOffset)) data).

(** ** BigNumber (lines 1008-1339) *)

Definition throwFault {A} (fault operation : string) (v : option value) : Res A :=
  throwError fault NUMERIC_FAULT
    ([("fault", VString (js fault)); ("operation", VString (js operation))]
       ++ match v with Some x => [("value", x)] | None => [] end).

Fixpoint toHex_trim (fuel : nat) (value : string) : string :=
  match fuel with
  | O => value
  | S f =>
      if (slen value >? 4) && String.eqb (substring 0 4 value) "0x00"
      then toHex_trim f ("0x" +++ substring_from 4 value)
      else value
  end.

(** [toHex] on a string without a sign. *)
Definition toHex_unsigned (value : string) : string :=
  let value := if negb (String.eqb (substring 0 2 value) "0x") then "0x" +++ value else value in
  if String.eqb value "0x" then "0x00"
  else
    let value := if Z.odd (slen value) then "0x0" +++ substring_from 2 value else value in
    toHex_trim (String.length value) value.

(** [toHex(value)] on a string. *)
Definition toHex (value : string) : Res string :=
  if first_is "-" value then
    let rest := substring_from 1 value in
    if first_is "-" rest
    then throwArgumentError "invalid hex" (VString (js "value")) (VString (js rest))
    else
      let v := toHex_unsigned rest in
      if String.eqb v "0x00" then Ok v else Ok ("-" +++ v)
  else Ok (toHex_unsigned value).

(** [/^-?0x[0-9a-f]+$/i] *)
Definition is_hex_number (s : string) : bool :=
  let s := if first_is "-" s then substring_from 1 s else s in
  match s with
  | String a (String x r) =>
      Ascii.eqb a "0" && (Ascii.eqb x "x" || Ascii.eqb x "X")
      && negb (String.eqb r "") && string_forallb is_hex r
  | _ => false
  end.

(** [/^-?[0-9]+$/] *)
Definition is_decimal_number (s : string) : bool :=
  let s := if first_is "-" s then substring_from 1 s else s in
  negb (String.eqb s "") && string_forallb is_digit s.

(** [String(n)] for an integer below 2^53 in magnitude. *)
Definition String_of_number (n : Z) : string := BN.toString 10 n.

Definition BigNumber_from_text (s : string) (v : value) : Res BigNumber :=
  if is_hex_number s then
    h <- toHex s ;; Ok (mkBigNumber h)
  else if is_decimal_number s then
    h <- toHex (BN.toString 16 (BN.ofString 10 s)) ;; Ok (mkBigNumber h)
  else throwArgumentError "invalid BigNumber string" (VString (js "value")) v.

(** [BigNumber.from(value)].  A [VNumber] is an integer, so the
    [value % 1] test of the source never fires. *)
Definition BigNumber_from (v : value) : Res BigNumber :=
  match v with
  | VBigNumber b => Ok b
  | VString u =>
      match latin1 u with
      | Some s => BigNumber_from_text s v
      | None => throwArgumentError "invalid BigNumber string" (VString (js "value")) v
      end
  | VNumber n =>
      if (n >=? MAX_SAFE) || (n <=? - MAX_SAFE)
      then throwFault "overflow" "BigNumber.from" (Some v)
      else let s := String_of_number n in BigNumber_from_text s (VString (js s))
  | _ =>
      isb <- isBytes v ;;
      if isb then
        h <- hexlify v ;; BigNumber_from_text h (VString (js h))
      else throwArgumentError "invalid BigNumber value" (VString (js "value")) v
  end.

(** [toBN(value)]: parse the canonical hex of the [BigNumber]. *)
Definition toBN (v : value) : Res Z :=
  b <- BigNumber_from v ;;
  let hex := _hex b in
  if first_is "-" hex
  then Ok (BN.ofString 16 ("-" +++ substring_from 3 hex))
  else Ok (BN.ofString 16 (substring_from 2 hex)).

(** [toHex(bn)] then [BigNumber.from]. *)
Definition toBigNumber (z : Z) : Res BigNumber :=
  h <- toHex (BN.toString 16 z) ;;
  BigNumber_from (VString (js h)).

Module BigNumber.

Definition from := BigNumber_from.

Definition toHexString (this : BigNumber) : string := _hex this.

Definition isNegative (this : BigNumber) : bool := first_is "-" (_hex this).

Definition fromTwos (this : BigNumber) (value : Z) : Res BigNumber :=
  z <- toBN (VBigNumber this) ;; toBigNumber (BN.fromTwos value z).

Definition toTwos (this : BigNumber) (value : Z) : Res BigNumber :=
  z <- toBN (VBigNumber this) ;; toBigNumber (BN.toTwos value z).

Definition add (this : BigNumber) (other : value) : Res BigNumber :=
  a <- toBN (VBigNumber this) ;; b <- toBN other ;; toBigNumber (a + b).

Definition sub (this : BigNumber) (other : value) : Res BigNumber :=
  a <- toBN (VBigNumber this) ;; b <- toBN other ;; toBigNumber (a - b).

Definition mul (this : BigNumber) (other : value) : Res BigNumber :=
  a <- toBN (VBigNumber this) ;; b <- toBN other ;; toBigNumber (a * b).

Definition isZero (this : BigNumber) : Res bool :=
  z <- toBN (VBigNumber this) ;; Ok (z =? 0).

Definition div (this : BigNumber) (other : value) : Res BigNumber :=
  o <- from other ;;
  z <- isZero o ;;
  if z then throwFault "division by zero" "div" None
  else
    a <- toBN (VBigNumber this) ;; b <- toBN other ;; toBigNumber (BN.div a b).

Definition mod_ (this : BigNumber) (other : value) : Res BigNumber :=
  value <- toBN other ;;
  if value <? 0 then throwFault "cannot modulo negative values" "mod" None
  else
    a <- toBN (VBigNumber this) ;;
    match BN.umod a value with
    | Some r => toBigNumber r
    | None => Throw (plainError "Assertion failed")
    end.

Definition mask (this : BigNumber) (value : Z) : Res BigNumber :=
  if isNegative this || (value <? 0)
  then throwFault "cannot mask negative values" "mask" None
  else z <- toBN (VBigNumber this) ;; toBigNumber (BN.maskn value z).

Definition eq (this : BigNumber) (other : value) : Res bool :=
  a <- toBN (VBigNumber this) ;; b <- toBN other ;; Ok (a =? b).

Definition lt (this : BigNumber) (other : value) : Res bool :=
  a <- toBN (VBigNumber this) ;; b <- toBN other ;; Ok (a <? b).

Definition gt (this : BigNumber) (other : value) : Res bool :=
  a <- toBN (VBigNumber this) ;; b <- toBN other ;; Ok (a >? b).

Definition toString (this : BigNumber) : Res string :=
  z <- toBN (VBigNumber this) ;; Ok (BN.toString 10 z).

Definition toNumber (this : BigNumber) : Res Z :=
  z <- toBN (VBigNumber this) ;;
  match BN.toNumber z with
  | Some n => Ok n
  | None =>
      s <- toString this ;;
      throwFault "overflow" "toNumber" (Some (VString (js s)))
  end.

End BigNumber.

(** ** Writer (lines 936-1004) *)

Module Writer.

Record t := mk {
  wordSize : Z;
  _data : list (list byte);
  _dataLength : Z;
  _padding : list byte
}.

(** [new Writer(wordSize)]; every caller passes a word size. *)
Definition new (wordSize : Z) : t :=
  {| wordSize := if wordSize =? 0 then 32 else wordSize;
     _data := [];
     _dataLength := 0;
     _padding := repeat x00 (Z.to_nat wordSize) |}.

(** The [data] getter: [hexConcat(this._data)]. *)
Definition data (this : t) : string :=
  "0x" +++ hexlify_bytes (concat_arrays (_data this)).

Definition length (this : t) : Z := _dataLength this.

Definition _writeData (this : t) (data : list byte) : Z * t :=
  (len data,
   {| wordSize := wordSize this;
      _data := _data this ++ [data];
      _dataLength := _dataLength this + len data;
      _padding := _padding this |}).

Definition appendWriter (this : t) (writer : t) : Z * t :=
  _writeData this (concat_arrays (_data writer)).

(** [writeBytes(value)]: padded on the right to the word size. *)
Definition writeBytes (this : t) (value : value) : Res (Z * t) :=
  bytes <- arrayify value ;;
  let paddingOffset := len bytes mod wordSize this in
  let bytes :=
    if negb (paddingOffset =? 0)
    then bytes ++ slice_from (_padding this) paddingOffset
    else bytes in
  Ok (_writeData this bytes).

Definition _getValue (this : t) (value : value) : Res (list byte) :=
  b <- BigNumber.from value ;;
  bytes <- arrayify (VBigNumber b) ;;
  if len bytes >? wordSize this
  then throwError "value out-of-bounds" BUFFER_OVERRUN
         [("length", VNumber (wordSize this)); ("offset", VNumber (len bytes))]
  else
    Ok (if negb (len bytes mod wordSize this =? 0)
        then slice_from (_padding this) (len bytes mod wordSize this) ++ bytes
        else bytes).

(** [writeValue(value)]: padded on the left to the word size. *)
Definition writeValue (this : t) (value : value) : Res (Z * t) :=
  bytes <- _getValue this value ;;
  Ok (_writeData this bytes).

(** [writeUpdatableValue()]: reserves a word and returns its index in
    [_data]; [update] is the closure it returns, applied to a value. *)
Definition writeUpdatableValue (this : t) : nat * t :=
  (List.length (_data this),
   {| wordSize := wordSize this;
      _data := _data this ++ [_padding this];
      _dataLength := _dataLength this + wordSize this;
      _padding := _padding this |}).

Fixpoint set_nth {A} (l : list A) (i : nat) (x : A) : list A :=
  match l, i with
  | [], _ => []
  | _ :: r, O => x :: r
  | a :: r, S i' => a :: set_nth r i' x
  end.

Definition update (this : t) (offset : nat) (value : value) : Res t :=
  bytes <- _getValue this value ;;
  Ok {| wordSize := wordSize this;
        _data := set_nth (_data this) offset bytes;
        _dataLength := _dataLength this;
        _padding := _padding this |}.

End Writer.

(** ** Reader (lines 1341-1411) *)

Definition CoerceFunc := string -> value -> Res value.

(** Whether [name] matches [^u?int([0-9]+)$], and the digits. *)
Definition match_int_name (name : string) : option string :=
  let rest :=
    match name with
    | String "u" (String "i" (String "n" (String "t" r))) => Some r
    | String "i" (String "n" (String "t" r)) => Some r
    | _ => None
    end in
  match rest with
  | Some r => if negb (String.eqb r "") && string_forallb is_digit r then Some r else None
  | None => None
  end.

(** [parseInt(s)] on a string of decimal digits. *)
Definition parseInt (s : string) : Z := BN.parse 10 s 0.

Module Reader.

Record t := mk {
  _data : list byte;
  wordSize : Z;
  _coerceFunc : option CoerceFunc;
  allowLoose : bool;
  _offset : Z
}.

Definition new (data : list byte) (wordSize : Z) (coerceFunc : option CoerceFunc)
    (allowLoose : bool) : t :=
  {| _data := data;
     wordSize := if wordSize =? 0 then 32 else wordSize;
     _coerceFunc := coerceFunc;
     allowLoose := allowLoose;
     _offset := 0 |}.

Definition consumed (this : t) : Z := _offset this.

(** The default coerce function ([Reader.coerce], static). *)
Definition coerce_default (name : string) (v : value) : Res value :=
  match match_int_name name with
  | Some digits =>
      if parseInt digits <=? 48 then
        match v with
        | VBigNumber b => n <- BigNumber.toNumber b ;; Ok (VNumber n)
        | _ => Throw (typeError "value.toNumber is not a function")
        end
      else Ok v
  | None => Ok v
  end.

Definition coerce (this : t) (name : string) (v : value) : Res value :=
  match _coerceFunc this with
  | Some f => f name v
  | None => coerce_default name v
  end.

(** [Math.ceil(length / wordSize) * wordSize] *)
Definition aligned (length wordSize : Z) : Z :=
  - ((- length) / wordSize) * wordSize.

Definition _peekBytes (this : t) (offset length : Z) (loose : bool) : Res (list byte) :=
  let alignedLength := aligned length (wordSize this) in
  if _offset this + alignedLength >? len (_data this) then
    if allowLoose this && loose && (_offset this + length <=? len (_data this))
    then Ok (slice (_data this) (_offset this) (_offset this + length))
    else throwError "data out-of-bounds" BUFFER_OVERRUN
           [("length", VNumber (len (_data this)));
            ("offset", VNumber (_offset this + alignedLength))]
  else Ok (slice (_data this) (_offset this) (_offset this + alignedLength)).

Definition subReader (this : t) (offset : Z) : t :=
  new (slice_from (_data this) (_offset this + offset)) (wordSize this)
      (_coerceFunc this) (allowLoose this).

Definition advance (this : t) (n : Z) : t :=
  {| _data := _data this;
     wordSize := wordSize this;
     _coerceFunc := _coerceFunc this;
     allowLoose := allowLoose this;
     _offset := _offset this + n |}.

(** A method that reads: its outcome and the reader as it leaves it.  The
    reader is one shared object, so what a call consumed before it threw
    stays consumed. *)
Definition M (A : Type) : Type := t -> Res A * t.

Definition ret {A} (a : A) : M A := fun r => (Ok a, r).
Definition lift {A} (x : Res A) : M A := fun r => (x, r).
Definition bindM {A B} (m : M A) (k : A -> M B) : M B :=
  fun r => match m r with
           | (Ok a, r') => k a r'
           | (Throw e, r') => (Throw e, r')
           end.

Definition readBytes (length : Z) (loose : bool) : M (list byte) :=
  fun this =>
    match _peekBytes this 0 length loose with
    | Ok bytes => (Ok (slice bytes 0 length), advance this (len bytes))
    | Throw e => (Throw e, this)
    end.

Definition readValue : M BigNumber :=
  fun this =>
    bindM (readBytes (wordSize this) false)
          (fun bytes => lift (BigNumber.from (VBytes bytes))) this.

Definition coerceM (name : string) (v : value) : M value :=
  fun this => (coerce this name v, this).

End Reader.

(** ** The external hash library [js-sha3] (imported, line 1447)

    [sha3.keccak_256]: Keccak with rate 1088, capacity 512, the original
    padding (0x01 .. 0x80) and 256 bits of output, on 64-bit lanes. *)
Module Keccak.

Definition mask64 : Z := 2 ^ 64 - 1.

Definition rotl (x n : Z) : Z :=
  Z.lor (Z.land (Z.shiftl x n) mask64) (Z.shiftr x (64 - n)).

Definition RC : list Z :=
  [0x0000000000000001; 0x0000000000008082; 0x800000000000808A; 0x8000000080008000;
   0x000000000000808B; 0x0000000080000001; 0x8000000080008081; 0x8000000000008009;
   0x000000000000008A; 0x0000000000000088; 0x0000000080008009; 0x000000008000000A;
   0x000000008000808B; 0x800000000000008B; 0x8000000000008089; 0x8000000000008003;
   0x8000000000008002; 0x8000000000000080; 0x000000000000800A; 0x800000008000000A;
   0x8000000080008081; 0x8000000000008080; 0x0000000080000001; 0x8000000080008008].

(** Rotation offsets, indexed by [x + 5 * y]. *)
Definition R : list Z :=
  [0; 1; 62; 28; 27;
   36; 44; 6; 55; 20;
   3; 10; 43; 25; 39;
   41; 45; 15; 21; 8;
   18; 2; 61; 56; 14].

Definition lane (A : list Z) (x y : nat) : Z := nth (x mod 5 + 5 * (y mod 5)) A 0.

Definition build (f : nat -> nat -> Z) : list Z :=
  map (fun i => f (i mod 5)%nat (i / 5)%nat) (seq 0 25).

Definition theta (A : list Z) : list Z :=
  let C x := fold_left Z.lxor (map (fun y => lane A x y) (seq 0 5)) 0 in
  let D x := Z.lxor (C (x + 4)%nat) (rotl (C (x + 1)%nat) 1) in
  build (fun x y => Z.lxor (lane A x y) (D x)).

(** [B[y, 2x + 3y] = rotl(A[x, y], r[x, y])], read from the target side:
    the source lane of [(X, Y)] is [x = X + 3Y, y = X]. *)
Definition rho_pi (A : list Z) : list Z :=
  build (fun X Y =>
    let x := ((X + 3 * Y) mod 5)%nat in
    let y := X in
    rotl (lane A x y) (nth (x + 5 * y) R 0)).

Definition chi (B : list Z) : list Z :=
  build (fun x y =>
    Z.lxor (lane B x y)
      (Z.land (Z.lxor (lane B (x + 1) y) mask64) (lane B (x + 2) y))).

Definition iota (rc : Z) (A : list Z) : list Z :=
  match A with
  | a :: r => Z.lxor a rc :: r
  | [] => []
  end.

Definition round (A : list Z) (rc : Z) : list Z := iota rc (chi (rho_pi (theta A))).

Definition f1600 (A : list Z) : list Z := fold_left round RC A.

Fixpoint le_value (bs : list byte) : Z :=
  match bs with
  | [] => 0
  | b :: r => b2z b + 256 * le_value r
  end.

Fixpoint lanes_of (n : nat) (bs : list byte) : list Z :=
  match n with
  | O => []
  | S n' => le_value (firstn 8 bs) :: lanes_of n' (skipn 8 bs)
  end.

Fixpoint xor_into (A block : list Z) : list Z :=
  match A, block with
  | a :: ra, b :: rb => Z.lxor a b :: xor_into ra rb
  | _, _ => A
  end.

Definition rate : nat := 136.

Fixpoint absorb (blocks : nat) (A : list Z) (msg : list byte) : list Z :=
  match blocks with
  | O => A
  | S n => absorb n (f1600 (xor_into A (lanes_of 17 msg))) (skipn rate msg)
  end.

Definition pad (msg : list byte) : list byte :=
  let q := (rate - (List.length msg) mod rate)%nat in
  if (q =? 1)%nat then msg ++ ["129"%byte]
  else msg ++ ["001"%byte] ++ repeat x00 (q - 2) ++ ["128"%byte].

Fixpoint bytes_of_lane (n : nat) (z : Z) : list byte :=
  match n with
  | O => []
  | S n' => z2b z :: bytes_of_lane n' (z / 256)
  end.

Definition digest (msg : list byte) : list byte :=
  let p := pad msg in
  let A := absorb (List.length p / rate) (repeat 0 25) p in
  flat_map (bytes_of_lane 8) (firstn 4 A).

(** [sha3.keccak_256(bytes)]: the digest in lower-case hex. *)
Definition keccak_256 (msg : list byte) : string := hexlify_bytes (digest msg).

End Keccak.

(** [keccak256(data)] on bytes (line 1448). *)
Definition keccak256 (data : list byte) : string := "0x" +++ Keccak.keccak_256 data.

(** ** Addresses (lines 1451-1569) *)

(** The loop of [getChecksumAddress] over the characters, two per hashed
    byte. *)
Fixpoint checksum_chars (chars : string) (hashed : list byte) : string :=
  match chars, hashed with
  | String c1 (String c2 r), h :: hs =>
      String (if Z.shiftr (b2z h) 4 >=? 8 then toUpperCase_char c1 else c1)
        (String (if Z.land (b2z h) 0x0f >=? 8 then toUpperCase_char c2 else c2)
           (checksum_chars r hs))
  | _, _ => chars
  end.

Definition bytes_of_text (s : string) : list byte :=
  map byte_of_ascii (list_ascii_of_string s).

Definition getChecksumAddress (address : string) : Res string :=
  if negb (isHexString (VString (js address)) (Some 20))
  then throwArgumentError "invalid address" (VString (js "address")) (VString (js address))
  else
    let address := toLowerCase address in
    let chars := substring_from 2 address in
    let expanded := bytes_of_text chars in
    hashed <- arrayify (VString (js (keccak256 expanded))) ;;
    Ok ("0x" +++ checksum_chars chars hashed).

(** [ibanLookup]: a digit maps to itself, a capital letter to 10..35. *)
Definition ibanLookup (c : ascii) : string :=
  if is_digit c then String c EmptyString
  else if (65 <=? code c) && (code c <=? 90) then String_of_number (code c - 55)
  else "undefined".

Fixpoint string_flat_map (f : ascii -> string) (s : string) : string :=
  match s with
  | EmptyString => EmptyString
  | String c r => f c +++ string_flat_map f r
  end.

Definition safeDigits : Z := 15.

Fixpoint ibanChecksum_loop (fuel : nat) (expanded : string) : string :=
  match fuel with
  | O => expanded
  | S f =>
      if slen expanded >=? safeDigits then
        let block := substring 0 (Z.to_nat safeDigits) expanded in
        ibanChecksum_loop f
          (String_of_number (parseInt block mod 97)
             +++ substring_from (String.length block) expanded)
      else expanded
  end.

Fixpoint ibanChecksum_pad (fuel : nat) (checksum : string) : string :=
  match fuel with
  | O => checksum
  | S f => if slen checksum <? 2 then ibanChecksum_pad f ("0" +++ checksum) else checksum
  end.

Definition ibanChecksum (address : string) : string :=
  let address := toUpperCase address in
  let address := substring_from 4 address +++ substring 0 2 address +++ "00" in
  let expanded := string_flat_map ibanLookup address in
  let expanded := ibanChecksum_loop (String.length expanded) expanded in
  let checksum := String_of_number (98 - parseInt expanded mod 97) in
  ibanChecksum_pad 2 checksum.

Definition _base36To16 (value : string) : string :=
  BN.toString 16 (BN.ofString 36 value).

Definition is_alnum (c : ascii) : bool :=
  is_digit c || ((65 <=? code c) && (code c <=? 90)) || ((97 <=? code c) && (code c <=? 122)).

(** [/^(0x)?[0-9a-fA-F]{40}$/] *)
Definition is_address_text (s : string) : bool :=
  let digits := match s with String "0" (String "x" r) => r | _ => s end in
  (String.length digits =? 40)%nat && string_forallb is_hex digits.

(** [/^XE[0-9]{2}[0-9A-Za-z]{30,31}$/] *)
Definition is_icap_text (s : string) : bool :=
  match s with
  | String "X" (String "E" (String d1 (String d2 r))) =>
      is_digit d1 && is_digit d2
      && ((String.length r =? 30)%nat || (String.length r =? 31)%nat)
      && string_forallb is_alnum r
  | _ => false
  end.

Fixpoint string_existsb (f : ascii -> bool) (s : string) : bool :=
  match s with
  | EmptyString => false
  | String c r => f c || string_existsb f r
  end.

(** [/([A-F].*[a-f])|([a-f].*[A-F])/]: a capital and a small hex letter,
    in either order (the strings tested hold no line break). *)
Definition has_mixed_case (s : string) : bool :=
  string_existsb is_upper_hex s && string_existsb is_lower_hex s.

Fixpoint pad_zeros (fuel : nat) (result : string) : string :=
  match fuel with
  | O => result
  | S f => if slen result <? 40 then pad_zeros f ("0" +++ result) else result
  end.

Definition getAddress_text (address : string) : Res string :=
  if is_address_text address then
    let address :=
      if negb (String.eqb (substring 0 2 address) "0x") then "0x" +++ address else address in
    result <- getChecksumAddress address ;;
    if has_mixed_case address && negb (String.eqb result address)
    then throwArgumentError "bad address checksum" (VString (js "address"))
           (VString (js address))
    else Ok result
  else if is_icap_text address then
    if negb (String.eqb (substring 2 4 address) (ibanChecksum address))
    then throwArgumentError "bad icap checksum" (VString (js "address"))
           (VString (js address))
    else
      let result := _base36To16 (substring_from 4 address) in
      let result := pad_zeros 40 result in
      getChecksumAddress ("0x" +++ result)
  else throwArgumentError "invalid address" (VString (js "address")) (VString (js address)).

(** [getAddress(address)] *)
Definition getAddress (address : value) : Res string :=
  match address with
  | VString u =>
      match latin1 u with
      | Some s => getAddress_text s
      | None => throwArgumentError "invalid address" (VString (js "address")) address
      end
  | _ => throwArgumentError "invalid address" (VString (js "address")) address
  end.

Notation "x <~ m ;; k" := (Reader.bindM m (fun x => k))
  (at level 61, m at next level, right associativity).

(** ** Coders (lines 1412-2351) *)

Definition truthy (v : value) : bool :=
  match v with
  | VUndefined | VNull => false
  | VBool b => b
  | VNumber n => negb (n =? 0)
  | VString s => negb (len s =? 0)
  | _ => true
  end.

(** A local name as a value: [null] when the coder has none. *)
Definition name_value (localName : option string) : value :=
  match localName with
  | Some n => VString (js n)
  | None => VNull
  end.

(** The abstract class [Coder]: the four fields and the two abstract
    methods.  A missing local name ([null] or [undefined]) is [None]. *)
Module Coder.

Record t := mk {
  name : string;
  type : string;
  localName : option string;
  dynamic : bool;
  encode : Writer.t -> value -> Res (Z * Writer.t);
  decode : Reader.M value
}.

Definition _throwError {A} (this : t) (message : string) (v : value) : Res A :=
  throwArgumentError message (name_value (localName this)) v.

End Coder.

(** The reason of an error, as the text [_throwError] is given.  The source
    passes [error.message], the reason followed by the rendered parameters;
    the rendering is not modelled. *)
Definition error_text (e : error) : string :=
  match err_reason e with
  | VString u => match latin1 u with Some s => s | None => "" end
  | _ => ""
  end.

Definition AddressCoder (localName : option string) : Coder.t :=
  {| Coder.name := "address";
     Coder.type := "address";
     Coder.localName := localName;
     Coder.dynamic := false;
     Coder.encode := fun writer v =>
       match getAddress v with
       | Throw error => throwArgumentError (error_text error) (name_value localName) v
       | Ok _ => Writer.writeValue writer v
       end;
     Coder.decode :=
       b <~ Reader.readValue ;;
       h <~ Reader.lift (hexZeroPad (BigNumber.toHexString b) 20) ;;
       a <~ Reader.lift (getAddress (VString (js h))) ;;
       Reader.ret (VString (js a)) |}.

Definition BooleanCoder (localName : option string) : Coder.t :=
  {| Coder.name := "bool";
     Coder.type := "bool";
     Coder.localName := localName;
     Coder.dynamic := false;
     Coder.encode := fun writer v =>
       Writer.writeValue writer (VNumber (if truthy v then 1 else 0));
     Coder.decode :=
       b <~ Reader.readValue ;;
       z <~ Reader.lift (BigNumber.isZero b) ;;
       Reader.coerceM "bool" (VBool (negb z)) |}.

(** [DynamicBytesCoder.encode] and [.decode], shared by [string] and
    [bytes]. *)
Definition DynamicBytesCoder_encode (writer : Writer.t) (v : value) : Res (Z * Writer.t) :=
  bytes <- arrayify v ;;
  '(length, writer) <- Writer.writeValue writer (VNumber (len bytes)) ;;
  '(n, writer) <- Writer.writeBytes writer (VBytes bytes) ;;
  Ok (length + n, writer).

Definition DynamicBytesCoder_decode : Reader.M (list byte) :=
  b <~ Reader.readValue ;;
  n <~ Reader.lift (BigNumber.toNumber b) ;;
  Reader.readBytes n true.

(** ** UTF-8 (lines 1653-1900) *)

Fixpoint toUtf8Bytes_loop (str : jsstring) : Res (list byte) :=
  match str with
  | [] => Ok []
  | c :: r =>
      if c <? 0x80 then
        rest <- toUtf8Bytes_loop r ;; Ok (z2b c :: rest)
      else if c <? 0x800 then
        rest <- toUtf8Bytes_loop r ;;
        Ok (z2b (Z.lor (Z.shiftr c 6) 0xc0) :: z2b (Z.lor (Z.land c 0x3f) 0x80) :: rest)
      else if Z.land c 0xfc00 =? 0xd800 then
        match r with
        | c2 :: r' =>
            if negb (Z.land c2 0xfc00 =? 0xdc00)
            then Throw (plainError "invalid utf-8 string")
            else
              let pair := 0x10000 + Z.shiftl (Z.land c 0x03ff) 10 + Z.land c2 0x03ff in
              rest <- toUtf8Bytes_loop r' ;;
              Ok (z2b (Z.lor (Z.shiftr pair 18) 0xf0)
                  :: z2b (Z.lor (Z.land (Z.shiftr pair 12) 0x3f) 0x80)
                  :: z2b (Z.lor (Z.land (Z.shiftr pair 6) 0x3f) 0x80)
                  :: z2b (Z.lor (Z.land pair 0x3f) 0x80) :: rest)
        | [] => Throw (plainError "invalid utf-8 string")
        end
      else
        rest <- toUtf8Bytes_loop r ;;
        Ok (z2b (Z.lor (Z.shiftr c 12) 0xe0)
            :: z2b (Z.lor (Z.land (Z.shiftr c 6) 0x3f) 0x80)
            :: z2b (Z.lor (Z.land c 0x3f) 0x80) :: rest)
  end.

(** [toUtf8Bytes(str)] with the default form.  A value that is not a
    string has no [charCodeAt]: reading one throws unless its [length] is
    missing or zero, and then the result is empty. *)
Definition toUtf8Bytes (v : value) : Res (list byte) :=
  match v with
  | VString u => toUtf8Bytes_loop u
  | VNull | VUndefined =>
      Throw (typeError "Cannot read properties of undefined (reading 'length')")
  | VBytes (_ :: _) | VArray (_ :: _) | VResult (_ :: _) _ =>
      Throw (typeError "str.charCodeAt is not a function")
  | _ => Ok []
  end.

Definition _toUtf8String (codePoints : list Z) : jsstring :=
  flat_map (fun codePoint =>
    if codePoint <=? 0xffff then [codePoint]
    else
      let codePoint := codePoint - 0x10000 in
      [Z.land (Z.shiftr codePoint 10) 0x3ff + 0xd800; Z.land codePoint 0x3ff + 0xdc00])
    codePoints.

Inductive Utf8ErrorReason :=
| UNEXPECTED_CONTINUE | BAD_PREFIX | OVERRUN | MISSING_CONTINUE | OUT_OF_RANGE
| UTF16_SURROGATE | OVERLONG.

Definition Utf8ErrorReason_text (r : Utf8ErrorReason) : string :=
  match r with
  | UNEXPECTED_CONTINUE => "unexpected continuation byte"
  | BAD_PREFIX => "bad codepoint prefix"
  | OVERRUN => "string overrun"
  | MISSING_CONTINUE => "missing continuation byte"
  | OUT_OF_RANGE => "out of UTF-8 range"
  | UTF16_SURROGATE => "UTF-16 surrogate"
  | OVERLONG => "overlong representation"
  end.

(** An error function gets the reason, the offset, the bytes, the output
    so far and the bad code point; it returns how many bytes to skip and
    the output (which [replaceFunc] extends). *)
Definition Utf8ErrorFunc :=
  Utf8ErrorReason -> Z -> list byte -> list Z -> option Z -> Res (Z * list Z).

Definition errorFunc : Utf8ErrorFunc := fun reason offset bytes output badCodepoint =>
  throwArgumentError
    ("invalid codepoint at offset " +++ String_of_number offset +++ "; "
       +++ Utf8ErrorReason_text reason)
    (VString (js "bytes")) (VBytes bytes).

Fixpoint count_continuation (bytes : list byte) : Z :=
  match bytes with
  | b :: r => if Z.shiftr (b2z b) 6 =? 0x02 then 1 + count_continuation r else 0
  | [] => 0
  end.

Definition ignoreFunc : Utf8ErrorFunc := fun reason offset bytes output badCodepoint =>
  match reason with
  | BAD_PREFIX | UNEXPECTED_CONTINUE =>
      Ok (count_continuation (slice_from bytes (offset + 1)), output)
  | OVERRUN => Ok (len bytes - offset - 1, output)
  | _ => Ok (0, output)
  end.

Definition replaceFunc : Utf8ErrorFunc := fun reason offset bytes output badCodepoint =>
  match reason with
  | OVERLONG =>
      Ok (0, output ++ [match badCodepoint with Some c => c | None => 0 end])
  | _ => ignoreFunc reason offset bytes (output ++ [0xfffd]) badCodepoint
  end.

(** The inner loop over the continuation bytes: [Some res] with the bytes
    after them, or [None] with the position of the byte that is not one. *)
Fixpoint utf8_continue (extraLength : nat) (rest : list byte) (i : Z) (res : Z)
  : (option Z) * list byte * Z :=
  match extraLength with
  | O => (Some res, rest, i)
  | S n =>
      match rest with
      | nextChar :: rest' =>
          if negb (Z.land (b2z nextChar) 0xc0 =? 0x80) then (None, rest, i)
          else utf8_continue n rest' (i + 1)
                 (Z.lor (Z.shiftl res 6) (Z.land (b2z nextChar) 0x3f))
      | [] => (None, rest, i)
      end
  end.

(** The loop of [getUtf8CodePoints]: [rest] is [bytes] from index [i] on.
    Every turn reads at least one byte, so the length of [bytes] bounds the
    number of turns. *)
Fixpoint getUtf8CodePoints_loop (fuel : nat) (onError : Utf8ErrorFunc)
    (bytes rest : list byte) (i : Z) (result : list Z) : Res (list Z) :=
  match fuel with
  | O => Ok result
  | S f =>
      match rest with
      | [] => Ok result
      | cb :: rest1 =>
          let c := b2z cb in
          let i := i + 1 in
          let skip (r : Res (Z * list Z)) (rest : list byte) (i : Z) :=
            '(n, result) <- r ;;
            getUtf8CodePoints_loop f onError bytes (slice_from rest n) (i + n) result in
          if Z.shiftr c 7 =? 0 then
            getUtf8CodePoints_loop f onError bytes rest1 i (result ++ [c])
          else
            let lengths :=
              if Z.land c 0xe0 =? 0xc0 then Some (1%nat, 0x7f)
              else if Z.land c 0xf0 =? 0xe0 then Some (2%nat, 0x7ff)
              else if Z.land c 0xf8 =? 0xf0 then Some (3%nat, 0xffff)
              else None in
            match lengths with
            | None =>
                if Z.land c 0xc0 =? 0x80
                then skip (onError UNEXPECTED_CONTINUE (i - 1) bytes result None) rest1 i
                else skip (onError BAD_PREFIX (i - 1) bytes result None) rest1 i
            | Some (extraLength, overlongMask) =>
                if i - 1 + Z.of_nat extraLength >=? len bytes
                then skip (onError OVERRUN (i - 1) bytes result None) rest1 i
                else
                  let res := Z.land c (Z.shiftl 1 (8 - Z.of_nat extraLength - 1) - 1) in
                  match utf8_continue extraLength rest1 i res with
                  | (None, rest2, i2) =>
                      skip (onError MISSING_CONTINUE i2 bytes result None) rest2 i2
                  | (Some res, rest2, i2) =>
                      if res >? 0x10ffff then
                        skip (onError OUT_OF_RANGE (i2 - 1 - Z.of_nat extraLength) bytes
                                result (Some res)) rest2 i2
                      else if (res >=? 0xd800) && (res <=? 0xdfff) then
                        skip (onError UTF16_SURROGATE (i2 - 1 - Z.of_nat extraLength) bytes
                                result (Some res)) rest2 i2
                      else if res <=? overlongMask then
                        skip (onError OVERLONG (i2 - 1 - Z.of_nat extraLength) bytes
                                result (Some res)) rest2 i2
                      else getUtf8CodePoints_loop f onError bytes rest2 i2 (result ++ [res])
                  end
            end
      end
  end.

Definition getUtf8CodePoints (bytes : list byte) (onError : option Utf8ErrorFunc)
  : Res (list Z) :=
  let onError := match onError with Some f => f | None => errorFunc end in
  getUtf8CodePoints_loop (List.length bytes) onError bytes bytes 0 [].

Definition toUtf8String (bytes : list byte) (onError : option Utf8ErrorFunc) : Res jsstring :=
  cps <- getUtf8CodePoints bytes onError ;; Ok (_toUtf8String cps).

Definition StringCoder (localName : option string) : Coder.t :=
  {| Coder.name := "string";
     Coder.type := "string";
     Coder.localName := localName;
     Coder.dynamic := true;
     Coder.encode := fun writer v =>
       bytes <- toUtf8Bytes v ;; DynamicBytesCoder_encode writer (VBytes bytes);
     Coder.decode :=
       bytes <~ DynamicBytesCoder_decode ;;
       s <~ Reader.lift (toUtf8String bytes None) ;;
       Reader.ret (VString s) |}.

Definition BytesCoder (localName : option string) : Coder.t :=
  {| Coder.name := "bytes";
     Coder.type := "bytes";
     Coder.localName := localName;
     Coder.dynamic := true;
     Coder.encode := DynamicBytesCoder_encode;
     Coder.decode :=
       bytes <~ DynamicBytesCoder_decode ;;
       h <~ Reader.lift (hexlify (VBytes bytes)) ;;
       Reader.coerceM "bytes" (VString (js h)) |}.

(** ** pack (lines 1924-1994) *)

(** Reading index [i] of an array value.  In a [VResult] a deferred error
    is a getter that throws. *)
Definition array_items (v : value) : option (list value) :=
  match v with
  | VArray items | VResult items _ => Some items
  | _ => None
  end.

Definition is_result (v : value) : bool :=
  match v with
  | VResult _ _ => true
  | _ => false
  end.

Definition read_index (guarded : bool) (items : list value) (i : nat) : Res value :=
  match nth_error items i with
  | Some (VError e) => if guarded then Throw e else Ok (VError e)
  | Some v => Ok v
  | None => Ok VUndefined
  end.

(** Own properties of the objects of the model that are not arrays.  A
    [VObject]-like value is not part of [value]; the objects that are
    ([BigNumber], [Uint8Array], [Indexed], errors) are never tuple values,
    and their properties read as [undefined] here. *)
Definition read_property (v : value) (name : string) : value := VUndefined.

Fixpoint pack_names (coders : list Coder.t) (values : value) (unique : list string)
  : Res (list value) :=
  match coders with
  | [] => Ok []
  | coder :: r =>
      match Coder.localName coder with
      | Some name =>
          if String.eqb name "" then
            throwError "cannot encode object for signature with missing names"
              INVALID_ARGUMENT [("argument", VString (js "values")); ("value", values)]
          else if existsb (String.eqb name) unique then
            throwError "cannot encode object for signature with duplicate names"
              INVALID_ARGUMENT [("argument", VString (js "values")); ("value", values)]
          else
            rest <- pack_names r values (name :: unique) ;;
            Ok (read_property values name :: rest)
      | None =>
          throwError "cannot encode object for signature with missing names"
            INVALID_ARGUMENT [("argument", VString (js "values")); ("value", values)]
      end
  end.

(** The [forEach] of [pack] over the coders: the static writer, the dynamic
    writer and the pending offset updates (the index of the reserved word
    and the offset in the dynamic part). *)
Fixpoint pack_loop (coders : list Coder.t) (guarded : bool) (arrayValues : list value)
    (index : nat) (staticWriter dynamicWriter : Writer.t) (updateFuncs : list (nat * Z))
  : Res (Writer.t * Writer.t * list (nat * Z)) :=
  match coders with
  | [] => Ok (staticWriter, dynamicWriter, updateFuncs)
  | coder :: r =>
      v <- read_index guarded arrayValues index ;;
      if Coder.dynamic coder then
        let dynamicOffset := Writer.length dynamicWriter in
        '(_, dynamicWriter) <- Coder.encode coder dynamicWriter v ;;
        let '(updateFunc, staticWriter) := Writer.writeUpdatableValue staticWriter in
        pack_loop r guarded arrayValues (S index) staticWriter dynamicWriter
          (updateFuncs ++ [(updateFunc, dynamicOffset)])
      else
        '(_, staticWriter) <- Coder.encode coder staticWriter v ;;
        pack_loop r guarded arrayValues (S index) staticWriter dynamicWriter updateFuncs
  end.

Fixpoint pack_backfill (updateFuncs : list (nat * Z)) (baseOffset : Z)
    (staticWriter : Writer.t) : Res Writer.t :=
  match updateFuncs with
  | [] => Ok staticWriter
  | (updateFunc, dynamicOffset) :: r =>
      staticWriter <- Writer.update staticWriter updateFunc
                        (VNumber (baseOffset + dynamicOffset)) ;;
      pack_backfill r baseOffset staticWriter
  end.

Definition pack (writer : Writer.t) (coders : list Coder.t) (values : value)
  : Res (Z * Writer.t) :=
  arrayValues <-
    match values with
    | VArray items | VResult items _ => Ok items
    | VBigNumber _ | VBytes _ | VIndexed _ | VError _ => pack_names coders values []
    | _ => throwArgumentError "invalid tuple value" (VString (js "tuple")) values
    end ;;
  if negb (len coders =? len arrayValues)
  then throwArgumentError "types/value length mismatch" (VString (js "tuple")) values
  else
    let staticWriter := Writer.new (Writer.wordSize writer) in
    let dynamicWriter := Writer.new (Writer.wordSize writer) in
    '(staticWriter, dynamicWriter, updateFuncs) <-
      pack_loop coders (is_result values) arrayValues 0 staticWriter dynamicWriter [] ;;
    staticWriter <- pack_backfill updateFuncs (Writer.length staticWriter) staticWriter ;;
    let '(length, writer) := Writer.appendWriter writer staticWriter in
    let '(n, writer) := Writer.appendWriter writer dynamicWriter in
    Ok (length + n, writer).

Definition AnonymousCoder (coder : Coder.t) : Coder.t :=
  {| Coder.name := Coder.name coder;
     Coder.type := Coder.type coder;
     Coder.localName := None;
     Coder.dynamic := Coder.dynamic coder;
     Coder.encode := Coder.encode coder;
     Coder.decode := Coder.decode coder |}.

(** ** unpack (lines 2085-2181) *)

Definition is_overrun (e : error) : bool :=
  match err_code e with
  | Some c => ErrorCode_eqb c BUFFER_OVERRUN
  | None => false
  end.

(** [value = error; value.baseType = coder.name; value.name =
    coder.localName; value.type = coder.type] *)
Definition annotate (e : error) (coder : Coder.t) : error :=
  let 'MkError cls code reason params := e in
  MkError cls code reason
    (assoc_set "type" (VString (js (Coder.type coder)))
       (assoc_set "name" (name_value (Coder.localName coder))
          (assoc_set "baseType" (VString (js (Coder.name coder))) params))).

Definition is_nullish (v : value) : bool :=
  match v with
  | VUndefined | VNull => true
  | _ => false
  end.

(** The first [forEach] of [unpack].  An error other than a buffer overrun
    thrown by [coder.decode] becomes the value of the field. *)
Fixpoint unpack_loop (coders : list Coder.t) (baseReader : Reader.t) (values : list value)
  : Reader.M (list value) :=
  match coders with
  | [] => Reader.ret values
  | coder :: r =>
      fun reader =>
        let continue (v : value) (reader : Reader.t) :=
          unpack_loop r baseReader (if negb (is_nullish v) then values ++ [v] else values)
            reader in
        if Coder.dynamic coder then
          match Reader.readValue reader with
          | (Throw e, reader) => (Throw e, reader)
          | (Ok offset, reader) =>
              match BigNumber.toNumber offset with
              | Throw e => (Throw e, reader)
              | Ok n =>
                  let offsetReader := Reader.subReader baseReader n in
                  match fst (Coder.decode coder offsetReader) with
                  | Ok v => continue v reader
                  | Throw error =>
                      if is_overrun error then (Throw error, reader)
                      else continue (VError (annotate error coder)) reader
                  end
              end
          end
        else
          match Coder.decode coder reader with
          | (Ok v, reader) => continue v reader
          | (Throw error, reader) =>
              if is_overrun error then (Throw error, reader)
              else continue (VError (annotate error coder)) reader
          end
  end.

(** Names every array inherits (ECMAScript 2019): a coder with one of
    these names gets no named property. *)
Definition Array_prototype : list string :=
  ["constructor"; "concat"; "copyWithin"; "fill"; "find"; "findIndex"; "lastIndexOf";
   "pop"; "push"; "reverse"; "shift"; "unshift"; "slice"; "sort"; "splice"; "includes";
   "indexOf"; "join"; "keys"; "entries"; "values"; "forEach"; "filter"; "flat";
   "flatMap"; "map"; "every"; "some"; "reduce"; "reduceRight"; "toLocaleString";
   "toString"; "hasOwnProperty"; "isPrototypeOf"; "propertyIsEnumerable"; "valueOf";
   "__proto__"; "__defineGetter__"; "__defineSetter__"; "__lookupGetter__";
   "__lookupSetter__"].

(** The index a property name denotes, when it is a canonical one. *)
Definition index_of_name (name : string) : option nat :=
  if string_forallb is_digit name && negb (String.eqb name "")
     && String.eqb (String_of_number (parseInt name)) name
  then Some (Z.to_nat (parseInt name)) else None.

(** Reading [values[i]] while the array is being built: an index that
    was made a getter throws the error it holds. *)
Definition read_slot (items : list value) (getters : list nat) (i : nat) : Res value :=
  match nth_error items i with
  | Some (VError e) => if existsb (Nat.eqb i) getters then Throw e else Ok (VError e)
  | Some v => Ok v
  | None => Ok VUndefined
  end.

(** [values[name] != null] while the names are added: an own named
    property (a getter throws), an index, [length], or an inherited
    name. *)
Definition has_property (items : list value) (getters : list nat)
    (named : list (string * value)) (name : string) : Res bool :=
  match assoc name named with
  | Some (VError e) => Throw e
  | Some v => Ok (negb (is_nullish v))
  | None =>
      match index_of_name name with
      | Some i => v <- read_slot items getters i ;; Ok (negb (is_nullish v))
      | None => Ok (String.eqb name "length" || existsb (String.eqb name) Array_prototype)
      end
  end.

Definition count_name (coders : list Coder.t) (name : string) : nat :=
  List.length (filter (fun c =>
    match Coder.localName c with
    | Some n => String.eqb n name
    | None => false
    end) coders).

(** [values[i] = v] on an array that is not frozen yet: an index past the
    end extends it, and the holes read as [undefined]. *)
Fixpoint set_index (items : list value) (i : nat) (v : value) : list value :=
  match items, i with
  | [], O => [v]
  | [], S i' => VUndefined :: set_index [] i' v
  | _ :: r, O => v :: r
  | a :: r, S i' => a :: set_index r i' v
  end.

(** The second [forEach] of [unpack]: the named properties.  A name that
    is an index defines an element of the array, as a getter when the value
    is an error. *)
Fixpoint unpack_names (all coders : list Coder.t) (index : nat) (items : list value)
    (getters : list nat) (named : list (string * value))
  : Res (list value * list nat * list (string * value)) :=
  match coders with
  | [] => Ok (items, getters, named)
  | coder :: r =>
      let skip := unpack_names all r (S index) items getters named in
      match Coder.localName coder with
      | None => skip
      | Some name =>
          if String.eqb name "" || negb (count_name all name =? 1)%nat then skip
          else
            let name := if String.eqb name "length" then "_length" else name in
            has <- has_property items getters named name ;;
            if has then skip
            else
              v <- read_slot items getters index ;;
              match index_of_name name with
              | Some i =>
                  unpack_names all r (S index) (set_index items i v)
                    (match v with VError _ => i :: getters | _ => getters end) named
              | None => unpack_names all r (S index) items getters (assoc_set name v named)
              end
      end
  end.

(** The final loop of [unpack] reads every index: an index that is a
    getter already throws; an error found becomes a getter (which the
    representation of a [VResult] says already). *)
Fixpoint unpack_getters (items : list value) (getters : list nat) (i : nat) : Res unit :=
  match items with
  | [] => Ok tt
  | v :: r =>
      match v with
      | VError e => if existsb (Nat.eqb i) getters then Throw e else unpack_getters r getters (S i)
      | _ => unpack_getters r getters (S i)
      end
  end.

Definition unpack (coders : list Coder.t) : Reader.M value :=
  fun reader =>
    let baseReader := Reader.subReader reader 0 in
    match unpack_loop coders baseReader [] reader with
    | (Throw e, reader) => (Throw e, reader)
    | (Ok values, reader) =>
        match ('(values, getters, named) <- unpack_names coders coders 0 values [] [] ;;
               _ <- unpack_getters values getters 0 ;;
               Ok (VResult values named)) with
        | Throw e => (Throw e, reader)
        | Ok r => (Ok r, reader)
        end
    end.

(** Reading [result[i]] and [result[name]] of a decoded result. *)
Definition Result_index (result : value) (i : nat) : Res value :=
  match result with
  | VResult items _ => read_index true items i
  | VArray items => read_index false items i
  | _ => Ok VUndefined
  end.

Definition Result_name (result : value) (name : string) : Res value :=
  match result with
  | VResult _ named =>
      match assoc name named with
      | Some (VError e) => Throw e
      | Some v => Ok v
      | None => Ok VUndefined
      end
  | _ => Ok VUndefined
  end.

(** ** The remaining coders (lines 2016-2351) *)

Definition ArrayCoder (coder : Coder.t) (length : Z) (localName : option string) : Coder.t :=
  let type :=
    Coder.type coder +++ "[" +++ (if length >=? 0 then String_of_number length else "")
      +++ "]" in
  let dynamic := (length =? -1) || Coder.dynamic coder in
  {| Coder.name := "array";
     Coder.type := type;
     Coder.localName := localName;
     Coder.dynamic := dynamic;
     Coder.encode := fun writer v =>
       match array_items v with
       | None => throwArgumentError "expected array value" (name_value localName) v
       | Some items =>
           '(count, writer) <-
             (if length =? -1 then
                '(_, writer) <- Writer.writeValue writer (VNumber (len items)) ;;
                Ok (len items, writer)
              else Ok (length, writer)) ;;
           _ <- checkArgumentCount (len items) count
                  ("coder array" +++ match localName with
                                     | Some n => if String.eqb n "" then "" else " " +++ n
                                     | None => ""
                                     end) ;;
           pack writer (repeat coder (List.length items)) v
       end;
     Coder.decode :=
       count <~
         (if length =? -1 then
            b <~ Reader.readValue ;;
            count <~ Reader.lift (BigNumber.toNumber b) ;;
            fun reader =>
              if count * 32 >? len (Reader._data reader)
              then (throwError "insufficient data length" BUFFER_OVERRUN
                      [("length", VNumber (len (Reader._data reader)));
                       ("count", VNumber count)], reader)
              else (Ok count, reader)
          else Reader.ret length) ;;
       r <~ unpack (repeat (AnonymousCoder coder) (Z.to_nat count)) ;;
       Reader.coerceM "array" r |}.

Definition TupleCoder (coders : list Coder.t) (localName : option string) : Coder.t :=
  let dynamic := existsb Coder.dynamic coders in
  let type := "tuple(" +++ String.concat "," (map Coder.type coders) +++ ")" in
  {| Coder.name := "tuple";
     Coder.type := type;
     Coder.localName := localName;
     Coder.dynamic := dynamic;
     Coder.encode := fun writer v => pack writer coders v;
     Coder.decode := r <~ unpack coders ;; Reader.coerceM "tuple" r |}.

Definition NullCoder (localName : option string) : Coder.t :=
  {| Coder.name := "null";
     Coder.type := "";
     Coder.localName := localName;
     Coder.dynamic := false;
     Coder.encode := fun writer v =>
       if negb (is_nullish v)
       then throwArgumentError "not null" (name_value localName) v
       else Writer.writeBytes writer (VArray []);
     Coder.decode :=
       _ <~ Reader.readBytes 0 false ;;
       Reader.coerceM "null" VNull |}.

Definition MaxUint256 : BigNumber :=
  mkBigNumber "0xffffffffffffffffffffffffffffffffffffffffffffffffffffffffffffffff".
Definition NegativeOne : BigNumber := mkBigNumber "-0x01".
Definition Zero : BigNumber := mkBigNumber "0x00".
Definition One : BigNumber := mkBigNumber "0x01".

Definition NumberCoder (size : Z) (signed : bool) (localName : option string) : Coder.t :=
  let name := (if signed then "int" else "uint") +++ String_of_number (size * 8) in
  {| Coder.name := name;
     Coder.type := name;
     Coder.localName := localName;
     Coder.dynamic := false;
     Coder.encode := fun writer value =>
       v <- BigNumber.from value ;;
       maxUintValue <- BigNumber.mask MaxUint256 (Writer.wordSize writer * 8) ;;
       _ <-
         (if signed then
            bounds <- BigNumber.mask maxUintValue (size * 8 - 1) ;;
            above <- BigNumber.gt v (VBigNumber bounds) ;;
            if above
            then throwArgumentError "value out-of-bounds" (name_value localName) value
            else
              b1 <- BigNumber.add bounds (VBigNumber One) ;;
              low <- BigNumber.mul b1 (VBigNumber NegativeOne) ;;
              below <- BigNumber.lt v (VBigNumber low) ;;
              if below
              then throwArgumentError "value out-of-bounds" (name_value localName) value
              else Ok tt
          else
            neg <- BigNumber.lt v (VBigNumber Zero) ;;
            if neg
            then throwArgumentError "value out-of-bounds" (name_value localName) value
            else
              top <- BigNumber.mask maxUintValue (size * 8) ;;
              above <- BigNumber.gt v (VBigNumber top) ;;
              if above
              then throwArgumentError "value out-of-bounds" (name_value localName) value
              else Ok tt) ;;
       v <- BigNumber.toTwos v (size * 8) ;;
       v <- BigNumber.mask v (size * 8) ;;
       v <- (if signed then
               v <- BigNumber.fromTwos v (size * 8) ;;
               BigNumber.toTwos v (8 * Writer.wordSize writer)
             else Ok v) ;;
       Writer.writeValue writer (VBigNumber v);
     Coder.decode :=
       b <~ Reader.readValue ;;
       v <~ Reader.lift (BigNumber.mask b (size * 8)) ;;
       v <~ Reader.lift (if signed then BigNumber.fromTwos v (size * 8) else Ok v) ;;
       Reader.coerceM name (VBigNumber v) |}.

Definition FixedBytesCoder (size : Z) (localName : option string) : Coder.t :=
  let name := "bytes" +++ String_of_number size in
  {| Coder.name := name;
     Coder.type := name;
     Coder.localName := localName;
     Coder.dynamic := false;
     Coder.encode := fun writer v =>
       data <- arrayify v ;;
       if negb (len data =? size)
       then throwArgumentError "incorrect data length" (name_value localName) v
       else Writer.writeBytes writer (VBytes data);
     Coder.decode :=
       bytes <~ Reader.readBytes size false ;;
       h <~ Reader.lift (hexlify (VBytes bytes)) ;;
       Reader.coerceM name (VString (js h)) |}.

(** ** ParamType (lines 362-735) *)

Fixpoint string_rev_acc (s acc : string) : string :=
  match s with
  | EmptyString => acc
  | String c r => string_rev_acc r (String c acc)
  end.

Definition string_rev (s : string) : string := string_rev_acc s EmptyString.

(** Splits a reversed string at its first ["["]: the digits before it
    (still reversed) and what follows. *)
Fixpoint split_bracket (rev : string) (digits : string) : option (string * string) :=
  match rev with
  | EmptyString => None
  | String c r =>
      if Ascii.eqb c "[" then Some (digits, r)
      else if is_digit c then split_bracket r (String c digits)
      else None
  end.

(** [type.match(paramTypeArray)]: the type ends with a bracketed, possibly
    empty, run of digits; the result is the prefix before the last opening
    bracket and the digits.  (The prefix holds no line break.) *)
Definition match_paramTypeArray (type : string) : option (string * string) :=
  match string_rev type with
  | String "]" r =>
      match split_bracket r EmptyString with
      | Some (digits, prefix) => Some (string_rev prefix, digits)
      | None => None
      end
  | _ => None
  end.

(** [/^uint($|[^1-9])/] and [/^int($|[^1-9])/] *)
Definition not_1_9 (s : string) : bool :=
  match s with
  | EmptyString => true
  | String c _ => negb ((49 <=? code c) && (code c <=? 57))
  end.

Definition verifyType (type : string) : string :=
  match type with
  | String "u" (String "i" (String "n" (String "t" r))) =>
      if not_1_9 r then "uint256" +++ substring_from 4 type else type
  | String "i" (String "n" (String "t" r)) =>
      if not_1_9 r then "int256" +++ substring_from 3 type else type
  | _ => type
  end.

Module ParamType.

Inductive t :=
| mk (name : option string) (type : string) (baseType : string) (indexed : option bool)
     (components : option (list t)) (arrayLength : option Z) (arrayChildren : option t).

Definition name (p : t) := let 'mk n _ _ _ _ _ _ := p in n.
Definition type (p : t) := let 'mk _ x _ _ _ _ _ := p in x.
Definition baseType (p : t) := let 'mk _ _ x _ _ _ _ := p in x.
Definition indexed (p : t) := let 'mk _ _ _ x _ _ _ := p in x.
Definition components (p : t) := let 'mk _ _ _ _ x _ _ := p in x.
Definition arrayLength (p : t) := let 'mk _ _ _ _ _ x _ := p in x.
Definition arrayChildren (p : t) := let 'mk _ _ _ _ _ _ x := p in x.

(** What [fromObject] accepts: a [ParamType], returned as it is, or an
    object with a name, a type, an indexed flag and components. *)
Inductive JsonFragmentType :=
| JParam (p : t)
| JObject (name : option string) (type : string) (indexed : option bool)
          (components : option (list JsonFragmentType)).

(** [new ParamType(_constructorGuard, params)].  The array child is
    [fromObject({ type: match[1], components: this.components })]: the
    components are [ParamType]s already, and the type gets shorter, which
    bounds the nesting. *)
Fixpoint construct (fuel : nat) (name : option string) (type : string)
    (indexed : option bool) (components : option (list t)) : t :=
  match fuel, match_paramTypeArray type with
  | S f, Some (prefix, digits) =>
      mk name type "array" indexed components
        (Some (if String.eqb digits "" then -1 else parseInt digits))
        (Some (construct f None (verifyType prefix) None components))
  | _, _ =>
      mk name type (match components with Some _ => "tuple" | None => type end)
        indexed components None None
  end.

Definition or_null (name : option string) : option string :=
  match name with
  | Some n => if String.eqb n "" then None else Some n
  | None => None
  end.

Fixpoint fromObject (value : JsonFragmentType) : t :=
  match value with
  | JParam p => p
  | JObject name type indexed components =>
      let type := verifyType type in
      construct (S (String.length type)) (or_null name) type indexed
        (match components with
         | Some cs => Some (map fromObject cs)
         | None => None
         end)
  end.

(** [format(format)] in the [sighash] format. *)
Fixpoint format_sighash (p : t) : string :=
  let 'mk _ type baseType _ components arrayLength arrayChildren := p in
  if String.eqb baseType "array" then
    match arrayChildren with
    | Some c =>
        format_sighash c +++ "["
          +++ (match arrayLength with
               | Some n => if n <? 0 then "" else String_of_number n
               | None => "0"
               end)
          +++ "]"
    | None => "[]"
    end
  else if String.eqb baseType "tuple" then
    "(" +++ String.concat ","
              (match components with
               | Some cs => map format_sighash cs
               | None => []
               end)
        +++ ")"
  else type.

End ParamType.

(** ** The type parser (lines 363-579) *)

Record ParseState := mkState {
  allowArray : bool;
  allowName : bool;
  allowParams : bool;
  allowType : bool;
  readArray : bool
}.

(** A flag that is absent, deleted or [false] is [false]. *)
Definition initialState : ParseState := mkState false false false true false.

(** A [ParseNode] without its [parent] pointer. *)
Inductive ParseNode :=
| mkNode (type name : string) (state : option ParseState) (indexed : option bool)
         (components : option (list ParseNode)).

Definition node_type (n : ParseNode) := let 'mkNode t _ _ _ _ := n in t.
Definition node_name (n : ParseNode) := let 'mkNode _ x _ _ _ := n in x.
Definition node_state (n : ParseNode) := let 'mkNode _ _ x _ _ := n in x.
Definition node_indexed (n : ParseNode) := let 'mkNode _ _ _ x _ := n in x.
Definition node_components (n : ParseNode) := let 'mkNode _ _ _ _ x := n in x.

Definition ModifiersBytes (name : string) : bool :=
  String.eqb name "calldata" || String.eqb name "memory" || String.eqb name "storage".
Definition ModifiersNest (name : string) : bool :=
  String.eqb name "calldata" || String.eqb name "memory".

Definition checkModifier (type name : string) : Res bool :=
  let fallthrough :=
    if ModifiersBytes name || String.eqb name "payable"
    then throwArgumentError "invalid modifier" (VString (js "name")) (VString (js name))
    else Ok false in
  if String.eqb type "bytes" || String.eqb type "string" then
    if ModifiersBytes name then Ok true else fallthrough
  else if String.eqb type "address" then
    if String.eqb name "payable" then Ok true else fallthrough
  else if string_existsb (Ascii.eqb "[") type || String.eqb type "tuple" then
    if ModifiersNest name then Ok true else fallthrough
  else fallthrough.

(** [\s] on the code units below 256. *)
Definition is_space (c : ascii) : bool :=
  ((9 <=? code c) && (code c <=? 13)) || (code c =? 32) || (code c =? 160).

(** The cursor of the parser: the current node and its chain of parents,
    nearest first.  A parent in the chain holds in [components] the
    children that came before the current one; in the source the current
    node is the last element of its parent's [components] as well. *)
Record Cursor := mkCursor { node : ParseNode; parents : list ParseNode }.

Definition newNode (allowIndexed : bool) : ParseNode :=
  mkNode "" "" (Some initialState) (if allowIndexed then Some false else None) None.

Definition unexpected {A} (i : Z) (param : string) : Res A :=
  throwArgumentError ("unexpected character at position " +++ String_of_number i)
    (VString (js "param")) (VString (js param)).

Definition no_state {A} : Res A :=
  Throw (typeError "Cannot read properties of undefined (reading 'allowType')").

Definition append_char (s : string) (c : ascii) : string := s +++ String c EmptyString.

(** The part shared by [")"] and [","]: the state is deleted, a name
    [indexed] becomes the flag, a modifier is dropped, the type is
    verified. *)
Definition finish_node (allowIndexed : bool) (i : Z) (param : string) (n : ParseNode)
  : Res ParseNode :=
  let 'mkNode type name _ indexed components := n in
  '(name, indexed) <-
    (if String.eqb name "indexed" then
       if negb allowIndexed then unexpected i param
       else Ok ("", Some true)
     else Ok (name, indexed)) ;;
  m <- checkModifier type name ;;
  let name := if m then "" else name in
  Ok (mkNode (verifyType type) name None indexed components).

Definition push_component (parent child : ParseNode) : ParseNode :=
  let 'mkNode type name state indexed components := parent in
  mkNode type name state indexed
    (Some (match components with Some cs => cs | None => [] end ++ [child])).

(** One turn of the [for] loop of [parseParamType], on character [c] at
    index [i]. *)
Definition step (allowIndexed : bool) (param : string) (i : Z) (c : ascii) (cur : Cursor)
  : Res Cursor :=
  let 'mkCursor n parents := cur in
  let 'mkNode type name state indexed components := n in
  if Ascii.eqb c "(" then
    match state with
    | None => no_state
    | Some st =>
        type <-
          (if allowType st && String.eqb type "" then Ok "tuple"
           else if negb (allowParams st) then unexpected i param
           else Ok type) ;;
        let st := mkState (allowArray st) (allowName st) (allowParams st) false
                    (readArray st) in
        let parent := mkNode (verifyType type) name (Some st) indexed (Some []) in
        Ok (mkCursor (newNode allowIndexed) (parent :: parents))
    end
  else if Ascii.eqb c ")" then
    child <- finish_node allowIndexed i param n ;;
    match parents with
    | [] => unexpected i param
    | parent :: rest =>
        let 'mkNode ptype pname pstate pindexed pcomponents := push_component parent child in
        match pstate with
        | None => no_state
        | Some st =>
            let st := mkState true true false (allowType st) (readArray st) in
            Ok (mkCursor (mkNode ptype pname (Some st) pindexed pcomponents) rest)
        end
    end
  else if Ascii.eqb c "," then
    done <- finish_node allowIndexed i param n ;;
    match parents with
    | [] => Throw (typeError "Cannot read properties of undefined (reading 'components')")
    | parent :: rest =>
        Ok (mkCursor (newNode allowIndexed) (push_component parent done :: rest))
    end
  else if Ascii.eqb c " " then
    match state with
    | None => no_state
    | Some st =>
        let '(type, st) :=
          if allowType st && negb (String.eqb type "")
          then (verifyType type,
                mkState (allowArray st) true true false (readArray st))
          else (type, st) in
        if allowName st && negb (String.eqb name "") then
          if String.eqb name "indexed" then
            if negb allowIndexed then unexpected i param
            else if match indexed with Some true => true | _ => false end
            then unexpected i param
            else Ok (mkCursor (mkNode type "" (Some st) (Some true) components) parents)
          else
            m <- checkModifier type name ;;
            if m then Ok (mkCursor (mkNode type "" (Some st) indexed components) parents)
            else
              let st := mkState (allowArray st) false (allowParams st) (allowType st)
                          (readArray st) in
              Ok (mkCursor (mkNode type name (Some st) indexed components) parents)
        else Ok (mkCursor (mkNode type name (Some st) indexed components) parents)
    end
  else if Ascii.eqb c "[" then
    match state with
    | None => no_state
    | Some st =>
        if negb (allowArray st) then unexpected i param
        else
          let st := mkState false false (allowParams st) (allowType st) true in
          Ok (mkCursor (mkNode (append_char type c) name (Some st) indexed components)
                parents)
    end
  else if Ascii.eqb c "]" then
    match state with
    | None => no_state
    | Some st =>
        if negb (readArray st) then unexpected i param
        else
          let st := mkState true true (allowParams st) (allowType st) false in
          Ok (mkCursor (mkNode (append_char type c) name (Some st) indexed components)
                parents)
    end
  else
    match state with
    | None => no_state
    | Some st =>
        if allowType st then
          let st := mkState true (allowName st) true (allowType st) (readArray st) in
          Ok (mkCursor (mkNode (append_char type c) name (Some st) indexed components)
                parents)
        else if allowName st then
          let st := mkState false (allowName st) (allowParams st) (allowType st)
                      (readArray st) in
          Ok (mkCursor (mkNode type (append_char name c) (Some st) indexed components)
                parents)
        else if readArray st then
          Ok (mkCursor (mkNode (append_char type c) name (Some st) indexed components)
                parents)
        else unexpected i param
    end.

Fixpoint parse_loop (allowIndexed : bool) (param : string) (rest : string) (i : Z)
    (cur : Cursor) : Res Cursor :=
  match rest with
  | EmptyString => Ok cur
  | String c r =>
      cur <- step allowIndexed param i c cur ;;
      parse_loop allowIndexed param r (i + 1) cur
  end.

Definition parseParamType (param : string) (allowIndexed : bool) : Res ParseNode :=
  let originalParam := param in
  let param := string_map (fun c => if is_space c then " "%char else c) param in
  let parent := mkNode "" "" (Some initialState) None None in
  cur <- parse_loop allowIndexed param param 0 (mkCursor parent []) ;;
  let 'mkCursor n parents := cur in
  match parents with
  | _ :: _ => throwArgumentError "unexpected eof" (VString (js "param")) (VString (js param))
  | [] =>
      let 'mkNode type name _ indexed components := n in
      '(name, indexed) <-
        (if String.eqb name "indexed" then
           if negb allowIndexed then unexpected (slen originalParam - 7) param
           else if match indexed with Some true => true | _ => false end
           then unexpected (slen originalParam - 7) param
           else Ok ("", Some true)
         else
           m <- checkModifier type name ;;
           Ok (if m then "" else name, indexed)) ;;
      Ok (mkNode (verifyType type) name None indexed components)
  end.

(** [ParamTypify]: the node as the object [fromObject] reads. *)
Fixpoint node_to_json (n : ParseNode) : ParamType.JsonFragmentType :=
  let 'mkNode type name _ indexed components := n in
  ParamType.JObject (Some name) type indexed
    (match components with
     | Some cs => Some (map node_to_json cs)
     | None => None
     end).

(** [ParamType.fromString(value, allowIndexed)] *)
Definition ParamType_fromString (value : string) (allowIndexed : bool) : Res ParamType.t :=
  n <- parseParamType value allowIndexed ;;
  Ok (ParamType.fromObject (node_to_json n)).

(** A type as [AbiCoder] takes it: a string or a [ParamType]. *)
Inductive TypeArg :=
| TString (s : string)
| TParam (p : ParamType.t).

(** [ParamType.from(value)], without [allowIndexed]. *)
Definition ParamType_from (value : TypeArg) : Res ParamType.t :=
  match value with
  | TString s => ParamType_fromString s false
  | TParam p => Ok p
  end.

(** ** AbiCoder (lines 2353-2446) *)

(** [paramTypeNumber]: [uint] or [int] followed by digits only (possibly
    none); the result is the prefix and the digits. *)
Definition match_paramTypeNumber (type : string) : option (string * string) :=
  match type with
  | String "u" (String "i" (String "n" (String "t" r))) =>
      if string_forallb is_digit r then Some ("uint", r) else None
  | String "i" (String "n" (String "t" r)) =>
      if string_forallb is_digit r then Some ("int", r) else None
  | _ => None
  end.

(** [paramTypeBytes]: [bytes] followed by digits only (possibly none); the
    result is the digits. *)
Definition match_paramTypeBytes (type : string) : option string :=
  match type with
  | String "b" (String "y" (String "t" (String "e" (String "s" r)))) =>
      if string_forallb is_digit r then Some r else None
  | _ => None
  end.

Module AbiCoder.

Record t := mk { coerceFunc : option CoerceFunc }.

Definition _getWordSize (this : t) : Z := 32.

Fixpoint _getCoder (param : ParamType.t) : Res Coder.t :=
  let 'ParamType.mk name type baseType _ components arrayLength arrayChildren := param in
  if String.eqb baseType "address" then Ok (AddressCoder name)
  else if String.eqb baseType "bool" then Ok (BooleanCoder name)
  else if String.eqb baseType "string" then Ok (StringCoder name)
  else if String.eqb baseType "bytes" then Ok (BytesCoder name)
  else if String.eqb baseType "array" then
    match arrayChildren with
    | Some child =>
        coder <- _getCoder child ;;
        Ok (ArrayCoder coder (match arrayLength with Some n => n | None => 0 end) name)
    | None => Throw (typeError "Cannot read properties of null (reading 'baseType')")
    end
  else if String.eqb baseType "tuple" then
    coders <-
      match components with
      | Some cs =>
          (fix map_getCoder (cs : list ParamType.t) : Res (list Coder.t) :=
             match cs with
             | [] => Ok []
             | c :: r => x <- _getCoder c ;; xs <- map_getCoder r ;; Ok (x :: xs)
             end) cs
      | None => Ok []
      end ;;
    Ok (TupleCoder coders name)
  else if String.eqb baseType "" then Ok (NullCoder name)
  else
    match match_paramTypeNumber type with
    | Some (prefix, digits) =>
        let size := if String.eqb digits "" then 256 else parseInt digits in
        if (size =? 0) || (size >? 256) || negb (size mod 8 =? 0)
        then throwArgumentError ("invalid " +++ prefix +++ " bit length")
               (VString (js "param")) (VString (js type))
        else Ok (NumberCoder (size / 8) (String.eqb prefix "int") name)
    | None =>
        match match_paramTypeBytes type with
        | Some digits =>
            let size := parseInt digits in
            if String.eqb digits "" || (size =? 0) || (size >? 32)
            then throwArgumentError "invalid bytes length"
                   (VString (js "param")) (VString (js type))
            else Ok (FixedBytesCoder size name)
        | None =>
            throwArgumentError "invalid type" (VString (js "type")) (VString (js type))
        end
    end.

Definition _getReader (this : t) (data : list byte) (allowLoose : bool) : Reader.t :=
  Reader.new data (_getWordSize this) (coerceFunc this) allowLoose.

Definition _getWriter (this : t) : Writer.t := Writer.new (_getWordSize this).

Definition getCoders (types : list TypeArg) : Res (list Coder.t) :=
  mapM (fun type => p <- ParamType_from type ;; _getCoder p) types.

Definition encode (this : t) (types : list TypeArg) (values : list value)
  : Res string :=
  if negb (len types =? len values)
  then throwError "types/values length mismatch" INVALID_ARGUMENT
         [("count", VArray [VNumber (len types); VNumber (len values)]);
          ("value", VArray values)]
  else
    coders <- getCoders types ;;
    let coder := TupleCoder coders (Some "_") in
    let writer := _getWriter this in
    '(_, writer) <- Coder.encode coder writer (VArray values) ;;
    Ok (Writer.data writer).

Definition decode (this : t) (types : list TypeArg) (data : value) (loose : bool)
  : Res value :=
  coders <- getCoders types ;;
  let coder := TupleCoder coders (Some "_") in
  bytes <- arrayify data ;;
  fst (Coder.decode coder (_getReader this bytes loose)).

End AbiCoder.

Definition defaultAbiCoder : AbiCoder.t := AbiCoder.mk None.

(** ** Fragments (lines 2663-3303)

    The fragments as objects; the string grammar that builds them is not
    part of this development. *)

Fixpoint trim_left (s : string) : string :=
  match s with
  | String c r => if is_space c then trim_left r else s
  | EmptyString => EmptyString
  end.

(** [s.trim()] *)
Definition trim (s : string) : string :=
  string_rev (trim_left (string_rev (trim_left s))).

Definition format_signature (name : string) (inputs : list ParamType.t) : string :=
  trim (name +++ "(" +++ String.concat "," (map ParamType.format_sighash inputs) +++ ") ").

Module FunctionFragment.
Record t := mk {
  name : string;
  inputs : list ParamType.t;
  outputs : list ParamType.t;
  constant : bool;
  payable : bool;
  stateMutability : string
}.
(** [format()], the [sighash] format. *)
Definition format (this : t) : string := format_signature (name this) (inputs this).
End FunctionFragment.

Module EventFragment.
Record t := mk {
  name : string;
  inputs : list ParamType.t;
  anonymous : bool
}.
Definition format (this : t) : string := format_signature (name this) (inputs this).
End EventFragment.

Module ErrorFragment.
Record t := mk {
  name : string;
  inputs : list ParamType.t
}.
Definition format (this : t) : string := format_signature (name this) (inputs this).
End ErrorFragment.

(** ** Interface (lines 3320-4086) *)

(** [id(text)] *)
Definition id (text : string) : Res string :=
  bytes <- toUtf8Bytes (VString (js text)) ;; Ok (keccak256 bytes).

Record BuiltinError := mkBuiltin {
  builtin_signature : string;
  builtin_name : string;
  builtin_inputs : list string;
  builtin_reason : bool
}.

Definition BuiltinErrors (selector : string) : option BuiltinError :=
  if String.eqb selector "0x08c379a0"
  then Some (mkBuiltin "Error(string)" "Error" ["string"] true)
  else if String.eqb selector "0x4e487b71"
  then Some (mkBuiltin "Panic(uint256)" "Panic" ["uint256"] false)
  else None.

(** [wrapAccessError(property, error)] *)
Definition wrapAccessError (property : string) (e : error) : error :=
  MkError JsError None
    (VString (js ("deferred error during ABI decoding triggered accessing " +++ property)))
    [("error", VError e)].

(** [JSON.stringify(name)] for a name without characters to escape. *)
Definition JSON_stringify_text (name : string) : string :=
  String (chr 34) (name +++ String (chr 34) EmptyString).

Module Interface.

Inductive Fragment :=
| FFunction (f : FunctionFragment.t)
| FEvent (e : EventFragment.t)
| FError (e : ErrorFragment.t).

Record t := mk {
  fragments : list Fragment;
  functions : list (string * FunctionFragment.t);
  events : list (string * EventFragment.t);
  errors : list (string * ErrorFragment.t);
  _abiCoder : AbiCoder.t
}.

Definition has_key {A} (k : string) (bucket : list (string * A)) : bool :=
  match assoc k bucket with Some _ => true | None => false end.

(** The constructor, on fragment objects: each fragment goes to its
    bucket under its signature, a later duplicate is dropped (the
    constructor fragment and [deploy] are left out). *)
Fixpoint add_fragments (fs : list Fragment) (this : t) : t :=
  match fs with
  | [] => this
  | FFunction f :: r =>
      let signature := FunctionFragment.format f in
      add_fragments r
        (if has_key signature (functions this) then this
         else mk (fragments this) (functions this ++ [(signature, f)]) (events this)
                (errors this) (_abiCoder this))
  | FEvent e :: r =>
      let signature := EventFragment.format e in
      add_fragments r
        (if has_key signature (events this) then this
         else mk (fragments this) (functions this) (events this ++ [(signature, e)])
                (errors this) (_abiCoder this))
  | FError e :: r =>
      let signature := ErrorFragment.format e in
      add_fragments r
        (if has_key signature (errors this) then this
         else mk (fragments this) (functions this) (events this)
                (errors this ++ [(signature, e)]) (_abiCoder this))
  end.

Definition new (fragments : list Fragment) : t :=
  add_fragments fragments (mk fragments [] [] [] defaultAbiCoder).

(** The static [getSighash] and [getEventTopic]. *)
Definition getSighash (format : string) : Res string :=
  h <- id format ;; hexDataSlice h 0 4.

Definition getEventTopic (eventFragment : EventFragment.t) : Res string :=
  id (EventFragment.format eventFragment).

(** [getError(sighash)], the branch taken for a hex string: the first
    error of the bucket whose selector is the string. *)
Fixpoint find_error (sighash : string) (bucket : list (string * ErrorFragment.t))
  : Res ErrorFragment.t :=
  match bucket with
  | [] => throwArgumentError "no matching error" (VString (js "sighash"))
            (VString (js sighash))
  | (_, e) :: r =>
      h <- getSighash (ErrorFragment.format e) ;;
      if String.eqb sighash h then Ok e else find_error sighash r
  end.

Definition getError (this : t) (sighash : string) : Res ErrorFragment.t :=
  find_error sighash (errors this).

(** The receiver of a call to [decodeFunctionResult].  The method is
    declared [static]: called as [Interface.decodeFunctionResult(...)],
    as the last lines of the file do, [this] is the class. *)
Inductive receiver :=
| TheClass
| Instance (i : t).

(** [this._abiCoder]: an instance holds the coder its constructor
    stored; the class has no static property of that name, so the call
    of [_getWordSize] on it throws. *)
Definition this_abiCoder (this : receiver) : Res AbiCoder.t :=
  match this with
  | Instance i => Ok (_abiCoder i)
  | TheClass =>
      Throw (typeError "Cannot read properties of undefined (reading '_getWordSize')")
  end.

Definition this_getError (this : receiver) (sighash : string) : Res ErrorFragment.t :=
  match this with
  | Instance i => getError i sighash
  | TheClass => Throw (typeError "this.getError is not a function")
  end.

Definition call_revert {A} (functionFragment : FunctionFragment.t)
    (errorArgs errorName errorSignature reason : value) : Res A :=
  throwError "call revert exception" CALL_EXCEPTION
    [("method", VString (js (FunctionFragment.format functionFragment)));
     ("errorArgs", errorArgs); ("errorName", errorName);
     ("errorSignature", errorSignature); ("reason", reason)].

(** [decodeFunctionResult(functionFragment, data)], the fragment given
    as an object.  What the [catch] of the user-defined branch prints is
    not kept. *)
Definition decodeFunctionResult (this : receiver)
    (functionFragment : FunctionFragment.t) (data : value) : Res value :=
  bytes <- arrayify data ;;
  abiCoder <- this_abiCoder this ;;
  let m := len bytes mod AbiCoder._getWordSize abiCoder in
  if m =? 0 then
    match AbiCoder.decode abiCoder (map TParam (FunctionFragment.outputs functionFragment))
            (VBytes bytes) false with
    | Ok r => Ok r
    | Throw _ => call_revert functionFragment VNull VNull VNull VNull
    end
  else if m =? 4 then
    selector <- hexlify (VBytes (slice bytes 0 4)) ;;
    match BuiltinErrors selector with
    | Some builtin =>
        errorArgs <- AbiCoder.decode abiCoder (map TString (builtin_inputs builtin))
                       (VBytes (slice_from bytes 4)) false ;;
        reason <- (if builtin_reason builtin then Result_index errorArgs 0 else Ok VNull) ;;
        call_revert functionFragment errorArgs (VString (js (builtin_name builtin)))
          (VString (js (builtin_signature builtin))) reason
    | None =>
        match (error <- this_getError this selector ;;
               errorArgs <- AbiCoder.decode abiCoder
                              (map TParam (ErrorFragment.inputs error))
                              (VBytes (slice_from bytes 4)) false ;;
               Ok (errorArgs, error)) with
        | Ok (errorArgs, error) =>
            call_revert functionFragment errorArgs
              (VString (js (ErrorFragment.name error)))
              (VString (js (ErrorFragment.format error))) VNull
        | Throw _ => call_revert functionFragment VNull VNull VNull VNull
        end
    end
  else call_revert functionFragment VNull VNull VNull VNull.

Definition is_indexed (param : ParamType.t) : bool :=
  match ParamType.indexed param with
  | Some true => true
  | _ => false
  end.

(** The indexed parameters that are represented by a hash. *)
Definition is_hashed (param : ParamType.t) : bool :=
  String.eqb (ParamType.type param) "string"
  || String.eqb (ParamType.type param) "bytes"
  || String.eqb (ParamType.baseType param) "tuple"
  || String.eqb (ParamType.baseType param) "array".

(** The first [forEach] of [decodeEventLog]: [indexed], [nonIndexed],
    [dynamic]. *)
Fixpoint split_inputs (inputs : list ParamType.t)
  : list ParamType.t * list ParamType.t * list bool :=
  match inputs with
  | [] => ([], [], [])
  | param :: r =>
      let '(indexed, nonIndexed, dynamic) := split_inputs r in
      if is_indexed param then
        if is_hashed param then
          (ParamType.fromObject
             (ParamType.JObject (ParamType.name param) "bytes32" None None) :: indexed,
           nonIndexed, true :: dynamic)
        else (param :: indexed, nonIndexed, false :: dynamic)
      else (indexed, param :: nonIndexed, false :: dynamic)
  end.

(** [try { result[index] = r[i] } catch (error) { result[index] = error }] *)
Definition read_or_error (r : value) (i : nat) : value :=
  match Result_index r i with
  | Ok v => v
  | Throw e => VError e
  end.

(** The second [forEach]: the elements and the named properties.  An
    element that is an error is kept as it is until the final loop; the
    code runs in strict mode, where storing into an index that has only a
    getter throws. *)
Fixpoint fill_result (inputs : list ParamType.t) (dynamic : list bool)
    (resultIndexed : option value) (resultNonIndexed : value)
    (index nonIndexedIndex indexedIndex : nat)
    (items : list value) (getters : list nat) (named : list (string * value))
  : Res (list value * list nat * list (string * value)) :=
  match inputs with
  | [] => Ok (items, getters, named)
  | param :: r =>
      '(v, nonIndexedIndex, indexedIndex) <-
        (if is_indexed param then
           match resultIndexed with
           | None => Ok (VIndexed VNull, nonIndexedIndex, indexedIndex)
           | Some ri =>
               if nth index dynamic false then
                 h <- Result_index ri indexedIndex ;;
                 Ok (VIndexed h, nonIndexedIndex, S indexedIndex)
               else Ok (read_or_error ri indexedIndex, nonIndexedIndex, S indexedIndex)
           end
         else Ok (read_or_error resultNonIndexed nonIndexedIndex,
                  S nonIndexedIndex, indexedIndex)) ;;
      if existsb (Nat.eqb index) getters
      then Throw (typeError "Cannot set property which has only a getter")
      else
        let items := set_index items index v in
        '(items, getters, named) <-
          match ParamType.name param with
          | Some name =>
              if String.eqb name "" then Ok (items, getters, named)
              else
                has <- has_property items getters named name ;;
                if has then Ok (items, getters, named)
                else
                  let value :=
                    match v with
                    | VError e =>
                        VError (wrapAccessError
                                  ("property " +++ JSON_stringify_text name) e)
                    | _ => v
                    end in
                  match index_of_name name with
                  | Some i =>
                      Ok (set_index items i value,
                          match v with VError _ => i :: getters | _ => getters end, named)
                  | None => Ok (items, getters, assoc_set name value named)
                  end
          | None => Ok (items, getters, named)
          end ;;
        fill_result r dynamic resultIndexed resultNonIndexed (S index) nonIndexedIndex
          indexedIndex items getters named
  end.

(** The final loop: reading an index that is a getter throws; every other
    element that is an error becomes a getter that throws the wrapped
    error. *)
Fixpoint wrap_items (items : list value) (getters : list nat) (i : nat)
  : Res (list value) :=
  match items with
  | [] => Ok []
  | VError e :: r =>
      if existsb (Nat.eqb i) getters then Throw e
      else
        rest <- wrap_items r getters (S i) ;;
        Ok (VError (wrapAccessError ("index " +++ String_of_number (Z.of_nat i)) e)
              :: rest)
  | v :: r => rest <- wrap_items r getters (S i) ;; Ok (v :: rest)
  end.

(** [decodeEventLog(eventFragment, data, topics)], the fragment given as
    an object; [topics] is [None] when the argument is omitted. *)
Definition decodeEventLog (this : t) (eventFragment : EventFragment.t) (data : value)
    (topics : option (list value)) : Res value :=
  topics <-
    match topics with
    | Some ts =>
        if negb (EventFragment.anonymous eventFragment) then
          topicHash <- getEventTopic eventFragment ;;
          let t0 := nth 0 ts VUndefined in
          let same :=
            match t0 with
            | VString u =>
                match latin1 u with
                | Some s => String.eqb (toLowerCase s) topicHash
                | None => false
                end
            | _ => false
            end in
          if negb (isHexString t0 (Some 32)) || negb same
          then throwError "fragment/topic mismatch" INVALID_ARGUMENT
                 [("argument", VString (js "topics[0]"));
                  ("expected", VString (js topicHash)); ("value", t0)]
          else Ok (Some (slice_from ts 1))
        else Ok (Some ts)
    | None => Ok None
    end ;;
  let '(indexed, nonIndexed, dynamic) := split_inputs (EventFragment.inputs eventFragment) in
  resultIndexed <-
    match topics with
    | Some ts =>
        bytes <- concat ts ;;
        r <- AbiCoder.decode (_abiCoder this) (map TParam indexed) (VBytes bytes) false ;;
        Ok (Some r)
    | None => Ok None
    end ;;
  resultNonIndexed <- AbiCoder.decode (_abiCoder this) (map TParam nonIndexed) data true ;;
  '(items, getters, named) <-
    fill_result (EventFragment.inputs eventFragment) dynamic resultIndexed
      resultNonIndexed 0 0 0 [] [] [] ;;
  items <- wrap_items items getters 0 ;;
  Ok (VResult items named).

End Interface.

(** ** Specification-level functions

    The mathematical reading of the data the codec moves around; the
    theorems below relate the program to them. *)

(** The number a big-endian byte string denotes. *)
Definition be_value (bs : list byte) : Z :=
  fold_left (fun acc b => acc * 256 + b2z b) bs 0.

(** The [n] low bytes of [z], big-endian. *)
Fixpoint be_bytes (n : nat) (z : Z) : list byte :=
  match n with
  | O => []
  | S n' => be_bytes n' (z / 256) ++ [z2b z]
  end.

(** The digits of a positive number in a base, as [bn.toString] prints
    them. *)
Definition digits_of (base z : Z) : string :=
  BN.digits (S (Z.to_nat (Z.log2 z))) base z "".

(** The canonical hex string of an integer, as [toHex] leaves it: an even
    number of lower-case digits after ["0x"], a sign in front of a
    negative. *)
Definition canon (z : Z) : string :=
  if z <? 0 then "-" +++ toHex_unsigned (BN.toString 16 (- z))
  else toHex_unsigned (BN.toString 16 z).

(** The [BigNumber] of an integer. *)
Definition BN_of (z : Z) : BigNumber := mkBigNumber (canon z).

(** The [BigNumber] [readValue] makes of a word. *)
Definition BN_of_bytes (bs : list byte) : BigNumber :=
  mkBigNumber (toHex_unsigned ("0x" +++ hexlify_bytes bs)).

(** A thrown error of a given code. *)
Definition fails_with {A} (c : ErrorCode) (r : Res A) : Prop :=
  exists e, r = Throw e /\ err_code e = Some c.

Definition returns {A} (r : Res A) : Prop := exists a, r = Ok a.

(** The digit part that [toHex_trim] leaves: leading zero bytes dropped,
    one byte kept. *)
Definition starts00 (e : string) : bool :=
  match e with
  | String a (String b (String _ _)) => Ascii.eqb a "0" && Ascii.eqb b "0"
  | _ => false
  end.

Fixpoint strip00 (fuel : nat) (e : string) : string :=
  match fuel with
  | O => e
  | S f => if starts00 e then strip00 f (string_drop 2 e) else e
  end.

Definition strip (e : string) : string := strip00 (String.length e) e.

Definition has_x (e : string) : bool :=
  match e with
  | String _ (String b _) => Ascii.eqb b "x"
  | _ => false
  end.

Definition is_lowhex (c : ascii) : bool := is_digit c || is_lower_hex c.

(** The hex digits of [z >= 0], padded to an even length. *)
Definition hex_even (z : Z) : string :=
  let d := BN.toString 16 z in
  if Z.odd (slen d) then "0" +++ d else d.

(** A writer as [AbiCoder._getWriter] and [pack] make them. *)
Definition std_writer (w : Writer.t) : Prop :=
  Writer.wordSize w = 32 /\ Writer._padding w = repeat x00 32.

(** A reader as [AbiCoder._getReader] and [subReader] make them. *)
Definition std_reader (r : Reader.t) : Prop :=
  Reader.wordSize r = 32 /\ 0 <= Reader._offset r.

(** The values a number coder of [size] bytes encodes. *)
Definition in_range (size : Z) (signed : bool) (z : Z) : Prop :=
  if signed then - 2 ^ (8 * size - 1) <= z < 2 ^ (8 * size - 1)
  else 0 <= z < 2 ^ (8 * size).

(** The value a number coder of [size] bytes decodes to: a number up to
    48 bits, a [BigNumber] above. *)
Definition number_value (size : Z) (z : Z) : value :=
  if size * 8 <=? 48 then VNumber z else VBigNumber (BN_of z).

(** The integer a word denotes for a number coder. *)
Definition word_number (size : Z) (signed : bool) (word : list byte) : Z :=
  let m := be_value word mod 2 ^ (size * 8) in
  if signed then (if m <? 2 ^ (size * 8 - 1) then m else m - 2 ^ (size * 8)) else m.

(** ** Inputs of the statements below *)

(** The [ParamType] of a type without parts, as [ParamType.fromString]
    builds it for an unnamed parameter. *)
Definition plain_type (type : string) : ParamType.t :=
  ParamType.mk None type type None None None None.

(** A view function with no input and the one output [uint256]. *)
Definition balanceOf : FunctionFragment.t :=
  FunctionFragment.mk "balanceOf" [] [plain_type "uint256"] true false "view".

(** The word 0x00..01. *)
Definition word_one : list byte := repeat x00 31 ++ [x01].


(** ** The fields of [unpack], one by one

    What [unpack] does for one coder before it looks at the outcome: a
    dynamic coder's offset word is read from the reader and the coder
    decodes at that offset of the base reader; a static coder decodes from
    the reader.  The outer result is the reading of the offset word, the
    inner one what [coder.decode] returned or threw. *)
Definition decode_field (baseReader : Reader.t) (coder : Coder.t) : Reader.M (Res value) :=
  if Coder.dynamic coder then
    offset <~ Reader.readValue ;;
    n <~ Reader.lift (BigNumber.toNumber offset) ;;
    Reader.ret (fst (Coder.decode coder (Reader.subReader baseReader n)))
  else
    fun reader => let '(out, reader) := Coder.decode coder reader in (Ok out, reader).

(** Every field in turn, whatever the outcomes. *)
Fixpoint decode_fields (baseReader : Reader.t) (coders : list Coder.t)
  : Reader.M (list (Res value)) :=
  match coders with
  | [] => Reader.ret []
  | coder :: r =>
      out <~ decode_field baseReader coder ;;
      outs <~ decode_fields baseReader r ;;
      Reader.ret (out :: outs)
  end.

(** The field a deferred outcome leaves: the value, or the error with the
    coder's [baseType], [name] and [type]. *)
Definition defer (coder : Coder.t) (out : Res value) : value :=
  match out with
  | Ok v => v
  | Throw e => VError (annotate e coder)
  end.

Fixpoint deferred (coders : list Coder.t) (outs : list (Res value)) : list value :=
  match coders, outs with
  | coder :: r, out :: outs => defer coder out :: deferred r outs
  | _, _ => []
  end.

(** What [unpack] pushes: a value that is not [null] or [undefined]. *)
Definition keep (v : value) : bool := negb (is_nullish v).

Definition overrun (out : Res value) : bool :=
  match out with
  | Throw e => is_overrun e
  | Ok _ => false
  end.

(** A local name that is neither an array index nor [length]. *)
Definition plain_name (coder : Coder.t) : bool :=
  match Coder.localName coder with
  | Some n =>
      match index_of_name n with
      | Some _ => false
      | None => negb (String.eqb n "length")
      end
  | None => true
  end.

(** Two named fields, a [uint256] and a [string], and data whose string
    holds the one byte 0xff, which is not UTF-8. *)
Definition two_fields : list Coder.t :=
  [NumberCoder 32 false (Some "a"); StringCoder (Some "s")].

Definition bad_string_data : list byte :=
  be_bytes 32 5 ++ be_bytes 32 64 ++ be_bytes 32 1 ++ [xff] ++ repeat x00 31.

(** The address [getAddress] goes on with when its argument is 40 hex
    digits: the prefix [0x] is added when missing. *)
Definition with_prefix (address : string) : string :=
  if negb (String.eqb (substring 0 2 address) "0x") then "0x" +++ address else address.

(** The event [E(string indexed s)]. *)
Definition indexed_string_event : EventFragment.t :=
  EventFragment.mk "E"
    [ParamType.mk (Some "s") "string" "string" (Some true) None None None] false.

(** A run of [n] digits ["0"]. *)
Fixpoint zeros (n : nat) : string :=
  match n with
  | O => EmptyString
  | S n' => String "0" (zeros n')
  end.

(** ** The content of a writer *)

(** The bytes a writer holds, in order. *)
Definition wbytes (w : Writer.t) : list byte := concat_arrays (Writer._data w).

(** A writer as the coders keep it: 32-byte words, zero padding, and a
    length that counts the bytes it holds. *)
Definition writer_ok (w : Writer.t) : Prop :=
  std_writer w /\ Writer._dataLength w = len (wbytes w).

(** Bytes padded with zeros on the right to a multiple of 32. *)
Definition pad32 (bs : list byte) : list byte :=
  bs ++ repeat x00 (Z.to_nat ((- len bs) mod 32)).

(** ** What a coder writes and reads *)

(** [w'] is [w] with the bytes [bs] written after what it held. *)
Definition appended (w w' : Writer.t) (bs : list byte) : Prop :=
  exists chunks,
    Writer._data w' = Writer._data w ++ chunks
    /\ concat_arrays chunks = bs
    /\ Writer.wordSize w' = Writer.wordSize w
    /\ Writer._padding w' = Writer._padding w
    /\ Writer._dataLength w' = Writer._dataLength w + len bs.

(** [coder.encode(writer, v)] writes the bytes [bs], on every writer of
    32-byte words. *)
Definition encodes (c : Coder.t) (v : value) (bs : list byte) : Prop :=
  forall w, std_writer w ->
    exists n w', Coder.encode c w v = Ok (n, w') /\ appended w w' bs.

(** [coder.decode(reader)] returns [v] when the reader stands at the bytes
    [bs], whatever comes before and after them; a coder that is not
    dynamic leaves the reader after them. *)
Definition decodes (c : Coder.t) (bs : list byte) (v : value) : Prop :=
  forall r pre suf,
    Reader.wordSize r = 32 -> Reader._coerceFunc r = None ->
    Reader._data r = pre ++ bs ++ suf -> Reader._offset r = len pre ->
    exists r', Coder.decode c r = (Ok v, r')
      /\ (Coder.dynamic c = false -> r' = Reader.advance r (len bs)).

(** ** The head and tail layout of [pack]

    A field is the bytes its coder writes, with whether the coder is
    dynamic.  The head holds the bytes of a static field, and for a
    dynamic field one word: the offset of its bytes, counted from the
    start of the head.  The tail holds the bytes of the dynamic fields. *)
Fixpoint heads (fields : list (bool * list byte)) (base off : Z) : list byte :=
  match fields with
  | [] => []
  | (false, bs) :: r => bs ++ heads r base off
  | (true, bs) :: r => be_bytes 32 (base + off) ++ heads r base (off + len bs)
  end.

Fixpoint tails (fields : list (bool * list byte)) : list byte :=
  match fields with
  | [] => []
  | (false, _) :: r => tails r
  | (true, bs) :: r => bs ++ tails r
  end.

Fixpoint head_len (fields : list (bool * list byte)) : Z :=
  match fields with
  | [] => 0
  | (false, bs) :: r => len bs + head_len r
  | (true, _) :: r => 32 + head_len r
  end.

Definition layout (fields : list (bool * list byte)) : list byte :=
  heads fields (head_len fields) 0 ++ tails fields.

(** The offset updates of [pack] applied to the chunks of the static
    writer. *)
Fixpoint fill (updateFuncs : list (nat * Z)) (base : Z) (chunks : list (list byte))
  : list (list byte) :=
  match updateFuncs with
  | [] => chunks
  | (i, off) :: r => fill r base (Writer.set_nth chunks i (be_bytes 32 (base + off)))
  end.

(** Coders, the values they encode and the fields they write. *)
Inductive packs : list Coder.t -> list value -> list (bool * list byte) -> Prop :=
| packs_nil : packs [] [] []
| packs_cons c v bs cs vs fs :
    encodes c v bs -> packs cs vs fs ->
    packs (c :: cs) (v :: vs) ((Coder.dynamic c, bs) :: fs).

(** Coders, the fields they read and the values they decode, none of
    them [null] or [undefined]. *)
Inductive unpacks : list Coder.t -> list (bool * list byte) -> list value -> Prop :=
| unpacks_nil : unpacks [] [] []
| unpacks_cons c bs v cs fs vs :
    decodes c bs v -> is_nullish v = false -> unpacks cs fs vs ->
    unpacks (c :: cs) ((Coder.dynamic c, bs) :: fs) (v :: vs).

(** The [Result] that [unpack] builds from decoded values: the values and
    the named properties its second loop adds. *)
Definition unpacked (coders : list Coder.t) (vs : list value) : value :=
  match unpack_names coders coders 0 vs [] [] with
  | Ok (items, _, named) => VResult items named
  | Throw _ => VResult vs []
  end.

(** ** The encoding of typed values

    [abi c v bs v']: the coder [c] takes the value [v], its encoding is
    the bytes [bs], and [v'] is the value the bytes stand for (a number up
    to 48 bits or a [BigNumber], a boolean, hex text, an address in
    checksum case, a [Result]).  [abi_fields] is the same for the fields
    of a tuple or the elements of an array. *)
Inductive abi : Coder.t -> value -> list byte -> value -> Prop :=
| abi_number size (signed : bool) name v z :
    1 <= size <= 32 -> toBN v = Ok z -> in_range size signed z ->
    abi (NumberCoder size signed name) v (be_bytes 32 (z mod 2 ^ 256)) (number_value size z)
| abi_boolean name v :
    abi (BooleanCoder name) v (be_bytes 32 (if truthy v then 1 else 0)) (VBool (truthy v))
| abi_fixed_bytes size name v bs :
    1 <= size <= 32 -> arrayify v = Ok bs -> len bs = size ->
    abi (FixedBytesCoder size name) v (pad32 bs) (VString (js ("0x" +++ hexlify_bytes bs)))
| abi_bytes name v bs :
    arrayify v = Ok bs -> len bs < MAX_SAFE ->
    abi (BytesCoder name) v (be_bytes 32 (len bs) ++ pad32 bs)
      (VString (js ("0x" +++ hexlify_bytes bs)))
| abi_address name d r :
    getAddress (VString (js ("0x" +++ d))) = Ok r ->
    abi (AddressCoder name) (VString (js ("0x" +++ d))) (repeat x00 12 ++ arrayify_hex d)
      (VString (js r))
| abi_tuple coders name values vs fs vs' :
    array_items values = Some vs ->
    (is_result values = true -> Forall (fun v => forall e, v <> VError e) vs) ->
    abi_fields coders vs fs vs' ->
    forallb plain_name coders = true ->
    len (layout fs) < MAX_SAFE ->
    abi (TupleCoder coders name) values (layout fs) (unpacked coders vs')
| abi_array coder length name values vs fs vs' :
    array_items values = Some vs ->
    (is_result values = true -> Forall (fun v => forall e, v <> VError e) vs) ->
    abi_fields (repeat coder (List.length vs)) vs fs vs' ->
    length = -1 \/ length = len vs ->
    (length = -1 -> len vs * 32 <= 32 + len (layout fs)) ->
    len vs < MAX_SAFE -> 32 + len (layout fs) < MAX_SAFE ->
    abi (ArrayCoder coder length name) values
      ((if length =? -1 then be_bytes 32 (len vs) else []) ++ layout fs) (VResult vs' [])
with abi_fields : list Coder.t -> list value -> list (bool * list byte) -> list value -> Prop :=
| abi_fields_nil : abi_fields [] [] [] []
| abi_fields_cons c v bs v' cs vs fs vs' :
    abi c v bs v' -> abi_fields cs vs fs vs' ->
    abi_fields (c :: cs) (v :: vs) ((Coder.dynamic c, bs) :: fs) (v' :: vs').

(** * Theorems *)

(** Decides the integer comparisons of a goal by linear arithmetic. *)
Ltac zbool :=
  rewrite ?Z.gtb_ltb, ?Z.geb_leb;
  repeat match goal with
  | |- context [?a <=? ?b] =>
      first [rewrite (proj2 (Z.leb_le a b)) by lia | rewrite (proj2 (Z.leb_gt a b)) by lia]
  | |- context [?a <? ?b] =>
      first [rewrite (proj2 (Z.ltb_lt a b)) by lia | rewrite (proj2 (Z.ltb_ge a b)) by lia]
  | |- context [?a =? ?b] =>
      first [rewrite (proj2 (Z.eqb_eq a b)) by lia | rewrite (proj2 (Z.eqb_neq a b)) by lia]
  end.

Ltac zbool_in H :=
  rewrite ?Z.gtb_ltb, ?Z.geb_leb in H;
  repeat match type of H with
  | context [?a <=? ?b] =>
      first [rewrite (proj2 (Z.leb_le a b)) in H by lia
            | rewrite (proj2 (Z.leb_gt a b)) in H by lia]
  | context [?a <? ?b] =>
      first [rewrite (proj2 (Z.ltb_lt a b)) in H by lia
            | rewrite (proj2 (Z.ltb_ge a b)) in H by lia]
  | context [?a =? ?b] =>
      first [rewrite (proj2 (Z.eqb_eq a b)) in H by lia
            | rewrite (proj2 (Z.eqb_neq a b)) in H by lia]
  end.

(** *** Strings *)

Lemma slen_String c s : slen (String c s) = 1 + slen s.
Proof. unfold slen. cbn [String.length]. lia. Qed.

Lemma slen_nonneg s : 0 <= slen s.
Proof. unfold slen. lia. Qed.

Lemma slen_append a b : slen (a +++ b) = slen a + slen b.
Proof.
  induction a as [|c a IH]; cbn [String.append].
  - unfold slen. simpl. lia.
  - rewrite !slen_String. lia.
Qed.

Lemma code_chr_ascii c : chr (code c) = c.
Proof. unfold chr, code. rewrite N2Z.id. apply ascii_N_embedding. Qed.

Lemma code_range c : 0 <= code c < 256.
Proof. unfold code. pose proof (N_ascii_bounded c). lia. Qed.

Lemma latin1_js s : latin1 (js s) = Some s.
Proof.
  unfold js. induction s as [|c s IH]; [reflexivity|].
  simpl. fold (code c). pose proof (code_range c).
  destruct (0 <=? code c) eqn:E1; [|lia].
  destruct (code c <? 256) eqn:E2; [|lia].
  simpl. rewrite IH. simpl. fold (chr (code c)). now rewrite code_chr_ascii.
Qed.

Lemma string_forallb_app f a b :
  string_forallb f (a +++ b) = string_forallb f a && string_forallb f b.
Proof.
  induction a as [|c a IH]; simpl; [reflexivity|].
  rewrite IH. now rewrite andb_assoc.
Qed.

(** *** Digits: printing and parsing in a base *)

Lemma digitval_digitChar d : 0 <= d < 36 -> BN.digitval (BN.digitChar d) = d.
Proof.
  intros H.
  assert (Hc : forall n, 0 <= n < 256 -> code (chr n) = n).
  { intros n Hn. unfold code, chr. rewrite N_ascii_embedding; lia. }
  unfold BN.digitval, BN.digitChar, is_digit.
  destruct (Z.ltb_spec d 10).
  - rewrite Hc by lia. zbool. cbn [andb]. lia.
  - rewrite Hc by lia. zbool. cbn [andb]. lia.
Qed.

Lemma parse_acc base s acc :
  BN.parse base s acc = acc * base ^ slen s + BN.parse base s 0.
Proof.
  revert acc. induction s as [|c s IH]; intros acc.
  - simpl. unfold slen. simpl. lia.
  - cbn [BN.parse]. rewrite IH. rewrite (IH (0 * base + BN.digitval c)).
    rewrite slen_String. rewrite Z.pow_add_r by (pose proof (slen_nonneg s); lia).
    ring.
Qed.

Lemma parse_app base a b acc :
  BN.parse base (a +++ b) acc = BN.parse base b (BN.parse base a acc).
Proof. revert acc. induction a as [|c a IH]; intros; simpl; auto. Qed.

Lemma parse_digits base fuel : 2 <= base <= 36 -> forall z acc,
  0 <= z < base ^ Z.of_nat fuel ->
  BN.parse base (BN.digits fuel base z acc) 0
  = z * base ^ slen acc + BN.parse base acc 0.
Proof.
  intros Hb. induction fuel as [|f IH]; intros z acc Hz.
  - simpl in Hz. assert (z = 0) by lia. subst. simpl. lia.
  - cbn [BN.digits]. destruct (z =? 0) eqn:E.
    + apply Z.eqb_eq in E. subst. lia.
    + apply Z.eqb_neq in E.
      rewrite IH.
      2:{ rewrite Nat2Z.inj_succ, Z.pow_succ_r in Hz by lia.
          split; [apply Z.div_pos; lia|]. apply Z.div_lt_upper_bound; lia. }
      rewrite slen_String. cbn [BN.parse].
      rewrite (parse_acc base acc (0 * base + _)).
      rewrite digitval_digitChar by (pose proof (Z.mod_pos_bound z base); lia).
      rewrite Z.pow_add_r by (pose proof (slen_nonneg acc); lia).
      rewrite (Z.div_mod z base) at 3 by lia. ring.
Qed.

Lemma log2_fuel base z : 2 <= base -> 0 < z -> z < base ^ Z.of_nat (S (Z.to_nat (Z.log2 z))).
Proof.
  intros Hb Hz.
  pose proof (Z.log2_spec z Hz) as [_ H].
  pose proof (Z.log2_nonneg z).
  rewrite Nat2Z.inj_succ, Z2Nat.id by lia.
  eapply Z.lt_le_trans; [exact H|].
  apply Z.pow_le_mono_l. lia.
Qed.

Lemma code_chr n : 0 <= n < 256 -> code (chr n) = n.
Proof. intros Hn. unfold code, chr. rewrite N_ascii_embedding; lia. Qed.

Lemma code_digitChar d : 0 <= d < 36 ->
  code (BN.digitChar d) = if d <? 10 then 48 + d else 87 + d.
Proof.
  intros H. unfold BN.digitChar.
  destruct (Z.ltb_spec d 10); rewrite code_chr; lia.
Qed.

Lemma digits_forallb (P : ascii -> bool) base : 0 < base ->
  (forall d, 0 <= d < base -> P (BN.digitChar d) = true) ->
  forall fuel z acc, string_forallb P acc = true ->
  string_forallb P (BN.digits fuel base z acc) = true.
Proof.
  intros Hb HP. induction fuel as [|f IH]; intros z acc Hacc; cbn [BN.digits]; auto.
  destruct (z =? 0); auto.
  apply IH. cbn [string_forallb]. rewrite Hacc, andb_true_r.
  apply HP. apply Z.mod_pos_bound. lia.
Qed.

Lemma ofString_unsigned base s : first_is "-" s = false ->
  BN.ofString base s = BN.parse base s 0.
Proof. intros H. unfold BN.ofString. now rewrite H. Qed.

Lemma ofString_signed base s :
  BN.ofString base (String "-" s) = - BN.parse base s 0.
Proof. reflexivity. Qed.

Lemma digitChar_not_minus d : 0 <= d < 36 ->
  negb (Ascii.eqb (BN.digitChar d) "-") = true.
Proof.
  intros H. destruct (Ascii.eqb (BN.digitChar d) "-") eqn:E; [|reflexivity].
  apply Ascii.eqb_eq in E. apply (f_equal code) in E.
  rewrite code_digitChar in E by lia.
  change (code "-") with 45 in E. destruct (d <? 10); lia.
Qed.

Lemma parse_digits_of base z : 2 <= base <= 36 -> 0 < z ->
  BN.parse base (digits_of base z) 0 = z.
Proof.
  intros Hb Hz. unfold digits_of.
  rewrite parse_digits; [change (slen "") with 0; cbn [BN.parse]; lia|lia|].
  split; [lia|]. apply log2_fuel; lia.
Qed.

Lemma toString_pos base z : 0 < z -> BN.toString base z = digits_of base z.
Proof.
  intros Hz. unfold BN.toString, digits_of. zbool. now rewrite Z.abs_eq by lia.
Qed.

Lemma toString_neg base z : z < 0 ->
  BN.toString base z = String "-" (digits_of base (- z)).
Proof.
  intros Hz. unfold BN.toString, digits_of. zbool. now rewrite Z.abs_neq by lia.
Qed.

Lemma digits_of_nonempty base z : 2 <= base <= 36 -> 0 < z -> digits_of base z <> "".
Proof.
  intros Hb Hz E. pose proof (parse_digits_of base z Hb Hz) as H.
  rewrite E in H. cbn in H. lia.
Qed.

Lemma digits_of_forallb (P : ascii -> bool) base z : 0 < base ->
  (forall d, 0 <= d < base -> P (BN.digitChar d) = true) ->
  string_forallb P (digits_of base z) = true.
Proof. intros Hb HP. apply digits_forallb; auto. Qed.

Lemma first_is_forallb (P : ascii -> bool) c s :
  P c = false -> string_forallb P s = true -> first_is c s = false.
Proof.
  intros Hc Hs. destruct s as [|a r]; [reflexivity|].
  cbn [string_forallb] in Hs. apply andb_true_iff in Hs as [Ha _].
  cbn [first_is]. destruct (Ascii.eqb_spec a c); [subst; congruence|reflexivity].
Qed.

Lemma digits_of_unsigned base z : 2 <= base <= 36 ->
  first_is "-" (digits_of base z) = false.
Proof.
  intros Hb.
  apply (first_is_forallb (fun c => negb (Ascii.eqb c "-"))); [reflexivity|].
  apply digits_of_forallb; [lia|]. intros d Hd. apply digitChar_not_minus. lia.
Qed.

(** [new BN(bn.toString(base), base)] is the number. *)
Lemma ofString_toString base z : 2 <= base <= 36 ->
  BN.ofString base (BN.toString base z) = z.
Proof.
  intros Hb.
  destruct (Z.lt_trichotomy z 0) as [Hz|[Hz|Hz]].
  - rewrite toString_neg by lia. rewrite ofString_signed.
    rewrite parse_digits_of by lia. lia.
  - subst. reflexivity.
  - rewrite toString_pos by lia.
    rewrite ofString_unsigned by now apply digits_of_unsigned.
    now apply parse_digits_of.
Qed.

(** *** toHex *)

Lemma slen_gt4 e : (slen ("0x" +++ e) >? 4) = (slen e >? 2).
Proof.
  cbn [String.append]. rewrite !slen_String.
  destruct (Z.gtb_spec (slen e) 2); zbool; reflexivity.
Qed.

Lemma String_eqb_cons a s b t :
  String.eqb (String a s) (String b t) = Ascii.eqb a b && String.eqb s t.
Proof.
  cbn [String.eqb]. destruct (Ascii.eqb a b); reflexivity.
Qed.

Lemma trim_test e :
  (slen ("0x" +++ e) >? 4) && String.eqb (substring 0 4 ("0x" +++ e)) "0x00" = starts00 e.
Proof.
  rewrite slen_gt4. destruct e as [|a [|b [|c r]]].
  - reflexivity.
  - reflexivity.
  - reflexivity.
  - rewrite !slen_String. pose proof (slen_nonneg r). zbool. cbn [andb starts00].
    change (substring 0 4 ("0x" +++ String a (String b (String c r))))
      with (String "0" (String "x" (String a (String b "")))).
    rewrite !String_eqb_cons. cbn [String.eqb].
    rewrite !Ascii.eqb_refl. cbn [andb]. now rewrite andb_true_r.
Qed.

Lemma toHex_trim_strip fuel e :
  toHex_trim fuel ("0x" +++ e) = "0x" +++ strip00 fuel e.
Proof.
  revert e. induction fuel as [|f IH]; intros e; [reflexivity|].
  cbn [toHex_trim strip00]. rewrite trim_test.
  destruct (starts00 e); [|reflexivity].
  change (substring_from 4 ("0x" +++ e)) with (string_drop 2 e). apply IH.
Qed.

Lemma starts00_parse base e : starts00 e = true ->
  BN.parse base (string_drop 2 e) 0 = BN.parse base e 0.
Proof.
  destruct e as [|a [|b [|c r]]]; try discriminate.
  cbn [starts00]. intros H. apply andb_true_iff in H as [Ha Hb].
  apply Ascii.eqb_eq in Ha, Hb. subst. reflexivity.
Qed.

Lemma parse_strip00 base fuel e : BN.parse base (strip00 fuel e) 0 = BN.parse base e 0.
Proof.
  revert e. induction fuel as [|f IH]; intros e; [reflexivity|].
  cbn [strip00]. destruct (starts00 e) eqn:E; [|reflexivity].
  rewrite IH. now apply starts00_parse.
Qed.

Lemma strip00_trimmed fuel e : starts00 e = false -> strip00 fuel e = e.
Proof. destruct fuel; [reflexivity|]. cbn [strip00]. now intros ->. Qed.

Lemma string_drop_length n e : (String.length (string_drop n e) <= String.length e)%nat.
Proof.
  revert e. induction n as [|n IH]; intros e; cbn [string_drop]; [lia|].
  destruct e as [|c r]; cbn [String.length]; [lia|]. specialize (IH r). lia.
Qed.

Lemma starts00_drop e : starts00 e = true ->
  (S (String.length (string_drop 2 e)) < String.length e)%nat.
Proof.
  destruct e as [|a [|b [|c r]]]; try discriminate. intros _. cbn. lia.
Qed.

(** Enough fuel: the result does not depend on it. *)
Lemma strip00_fuel n m e :
  (String.length e <= n)%nat -> (String.length e <= m)%nat ->
  strip00 n e = strip00 m e.
Proof.
  revert m e. induction n as [|n IH]; intros m e Hn Hm.
  - destruct e; [|cbn in Hn; lia]. destruct m; reflexivity.
  - destruct m as [|m].
    + destruct e; [|cbn in Hm; lia]. reflexivity.
    + cbn [strip00]. destruct (starts00 e) eqn:E; [|reflexivity].
      pose proof (starts00_drop e E). apply IH; lia.
Qed.

Lemma strip00_strip n e : (String.length e <= n)%nat -> strip00 n e = strip e.
Proof. intros H. unfold strip. apply strip00_fuel; lia. Qed.

Lemma parse_strip base e : BN.parse base (strip e) 0 = BN.parse base e 0.
Proof. apply parse_strip00. Qed.

Lemma strip_trimmed e : starts00 e = false -> strip e = e.
Proof. apply strip00_trimmed. Qed.

Lemma odd_slen_0x d : Z.odd (slen ("0x" +++ d)) = Z.odd (slen d).
Proof.
  cbn [String.append]. rewrite !slen_String.
  replace (1 + (1 + slen d)) with (slen d + 2 * 1) by lia.
  now rewrite Z.odd_add_mul_2.
Qed.

(** [toHex] on digits without a prefix: pad to an even length, trim. *)
Lemma toHex_unsigned_digits d : d <> "" -> has_x d = false ->
  toHex_unsigned d = "0x" +++ strip (if Z.odd (slen d) then "0" +++ d else d).
Proof.
  intros Hd Hx. unfold toHex_unsigned.
  assert (H1 : String.eqb (substring 0 2 d) "0x" = false).
  { destruct d as [|a [|b r]]; [reflexivity| |].
    - change (substring 0 2 (String a "")) with (String a "").
      rewrite String_eqb_cons. cbn [String.eqb]. now rewrite andb_false_r.
    - change (substring 0 2 (String a (String b r))) with (String a (String b "")).
      rewrite !String_eqb_cons. cbn [has_x] in Hx. rewrite Hx.
      now rewrite andb_false_r. }
  rewrite H1. cbn [negb].
  assert (H2 : String.eqb ("0x" +++ d) "0x" = false).
  { apply String.eqb_neq. destruct d; cbn; congruence. }
  rewrite H2, odd_slen_0x.
  destruct (Z.odd (slen d)).
  - change ("0x0" +++ substring_from 2 ("0x" +++ d)) with ("0x" +++ ("0" +++ d)).
    rewrite toHex_trim_strip. f_equal. apply strip00_strip.
    cbn [String.append String.length]. lia.
  - rewrite toHex_trim_strip. f_equal. apply strip00_strip.
    cbn [String.append String.length]. lia.
Qed.

(** [toHex] on trimmed digits after the prefix changes nothing. *)
Lemma toHex_unsigned_prefixed e : e <> "" -> Z.odd (slen e) = false ->
  toHex_unsigned ("0x" +++ e) = "0x" +++ strip e.
Proof.
  intros He Hodd. unfold toHex_unsigned.
  change (substring 0 2 ("0x" +++ e)) with "0x".
  change (String.eqb "0x" "0x") with true. cbn [negb].
  assert (H2 : String.eqb ("0x" +++ e) "0x" = false).
  { apply String.eqb_neq. destruct e; cbn; congruence. }
  rewrite H2, odd_slen_0x, Hodd.
  rewrite toHex_trim_strip. f_equal. apply strip00_strip.
  cbn [String.append String.length]. lia.
Qed.

(** *** The canonical hex of an integer *)

Lemma is_lowhex_digitChar d : 0 <= d < 16 -> is_lowhex (BN.digitChar d) = true.
Proof.
  intros H. unfold is_lowhex, is_digit, is_lower_hex.
  rewrite code_digitChar by lia.
  destruct (Z.ltb_spec d 10); zbool; reflexivity.
Qed.

Lemma is_lowhex_is_hex c : is_lowhex c = true -> is_hex c = true.
Proof. unfold is_lowhex, is_hex. intros ->. reflexivity. Qed.

Lemma forallb_impl (P Q : ascii -> bool) s :
  (forall c, P c = true -> Q c = true) ->
  string_forallb P s = true -> string_forallb Q s = true.
Proof.
  intros H. induction s as [|c r IH]; [reflexivity|].
  cbn [string_forallb]. intros E. apply andb_true_iff in E as [E1 E2].
  now rewrite (H _ E1), IH.
Qed.

Lemma digits_top base fuel : 2 <= base <= 36 -> forall z acc,
  0 < z < base ^ Z.of_nat fuel ->
  first_is "0" (BN.digits fuel base z acc) = false.
Proof.
  intros Hb. induction fuel as [|f IH]; intros z acc Hz.
  - cbn in Hz. lia.
  - cbn [BN.digits]. zbool.
    rewrite Nat2Z.inj_succ, Z.pow_succ_r in Hz by lia.
    destruct (Z.eq_dec (z / base) 0) as [E|E].
    + rewrite E.
      assert (Hd : forall a, BN.digits f base 0 a = a) by (destruct f; reflexivity).
      rewrite Hd. cbn [first_is].
      assert (Hzb : z < base).
      { destruct (Z.lt_ge_cases z base) as [|Hge]; [assumption|].
        pose proof (Z.div_le_mono base z base ltac:(lia) Hge) as Hq.
        rewrite Z.div_same in Hq by lia. lia. }
      rewrite Z.mod_small by lia.
      destruct (Ascii.eqb_spec (BN.digitChar z) "0") as [E0|]; [|reflexivity].
      apply (f_equal code) in E0. rewrite code_digitChar in E0 by lia.
      change (code "0") with 48 in E0. destruct (z <? 10); lia.
    + apply IH. split.
      * pose proof (Z.div_pos z base). lia.
      * apply Z.div_lt_upper_bound; lia.
Qed.

Lemma digits_of_top base z : 2 <= base <= 36 -> 0 < z ->
  first_is "0" (digits_of base z) = false.
Proof.
  intros Hb Hz. apply digits_top; [lia|]. split; [lia|]. apply log2_fuel; lia.
Qed.

Lemma toString_lowhex z : 0 <= z -> string_forallb is_lowhex (BN.toString 16 z) = true.
Proof.
  intros Hz. destruct (Z.eq_dec z 0) as [->|E]; [reflexivity|].
  rewrite toString_pos by lia.
  apply digits_of_forallb; [lia|]. apply is_lowhex_digitChar.
Qed.

Lemma toString_nonempty base z : 2 <= base <= 36 -> BN.toString base z <> "".
Proof.
  intros Hb. destruct (Z.lt_trichotomy z 0) as [Hz|[Hz|Hz]].
  - rewrite toString_neg by lia. discriminate.
  - subst. discriminate.
  - rewrite toString_pos by lia. apply digits_of_nonempty; lia.
Qed.

Lemma has_x_forallb s : string_forallb is_hex s = true -> has_x s = false.
Proof.
  destruct s as [|a [|b r]]; try reflexivity.
  cbn [string_forallb has_x]. intros H.
  apply andb_true_iff in H as [_ H]. apply andb_true_iff in H as [H _].
  destruct (Ascii.eqb_spec b "x"); [subst; discriminate|reflexivity].
Qed.

Lemma hex_even_lowhex z : 0 <= z -> string_forallb is_lowhex (hex_even z) = true.
Proof.
  intros Hz. unfold hex_even. destruct (Z.odd _).
  - cbn [String.append string_forallb]. now rewrite toString_lowhex.
  - now apply toString_lowhex.
Qed.

Lemma hex_even_even z : Z.odd (slen (hex_even z)) = false.
Proof.
  unfold hex_even. destruct (Z.odd (slen (BN.toString 16 z))) eqn:E; [|exact E].
  cbn [String.append]. rewrite slen_String.
  rewrite Z.add_comm, Z.odd_add. rewrite E. reflexivity.
Qed.

Lemma hex_even_nonempty z : hex_even z <> "".
Proof.
  unfold hex_even. destruct (Z.odd _); [discriminate|].
  apply toString_nonempty. lia.
Qed.

Lemma parse_hex_even z : 0 <= z -> BN.parse 16 (hex_even z) 0 = z.
Proof.
  intros Hz.
  assert (H : BN.parse 16 (BN.toString 16 z) 0 = z).
  { destruct (Z.eq_dec z 0) as [->|E]; [reflexivity|].
    rewrite toString_pos by lia. apply parse_digits_of; lia. }
  unfold hex_even. destruct (Z.odd _); [|exact H].
  cbn [String.append BN.parse]. exact H.
Qed.

Lemma hex_even_trimmed z : 0 <= z -> starts00 (hex_even z) = false.
Proof.
  intros Hz. destruct (Z.eq_dec z 0) as [->|E]; [reflexivity|].
  unfold hex_even. rewrite toString_pos by lia.
  pose proof (digits_of_top 16 z ltac:(lia) ltac:(lia)) as Ht.
  destruct (Z.odd _).
  - destruct (digits_of 16 z) as [|a r]; [reflexivity|].
    cbn [String.append starts00]. cbn [first_is] in Ht. rewrite Ht.
    destruct r; reflexivity.
  - destruct (digits_of 16 z) as [|a [|b [|c r]]]; try reflexivity.
    cbn [starts00]. cbn [first_is] in Ht. now rewrite Ht.
Qed.

Lemma canon_nonneg z : 0 <= z -> canon z = "0x" +++ hex_even z.
Proof.
  intros Hz. unfold canon. zbool.
  rewrite toHex_unsigned_digits.
  - fold (hex_even z). now rewrite strip_trimmed by now apply hex_even_trimmed.
  - apply toString_nonempty. lia.
  - apply has_x_forallb. eapply forallb_impl; [apply is_lowhex_is_hex|].
    now apply toString_lowhex.
Qed.

Lemma canon_neg z : z < 0 -> canon z = "-0x" +++ hex_even (- z).
Proof.
  intros Hz. unfold canon. zbool.
  rewrite toHex_unsigned_digits.
  - fold (hex_even (- z)).
    now rewrite strip_trimmed by (apply hex_even_trimmed; lia).
  - apply toString_nonempty. lia.
  - apply has_x_forallb. eapply forallb_impl; [apply is_lowhex_is_hex|].
    apply toString_lowhex. lia.
Qed.

Lemma hex_even_nonzero z : 0 < z -> String.eqb ("0x" +++ hex_even z) "0x00" = false.
Proof.
  intros Hz. apply String.eqb_neq. intros E.
  injection E as E. pose proof (parse_hex_even z ltac:(lia)) as H.
  rewrite E in H. cbn in H. lia.
Qed.

Lemma first_is_lowhex c s :
  is_lowhex c = false -> string_forallb is_lowhex s = true -> first_is c s = false.
Proof. apply first_is_forallb. Qed.

(** [toHex] leaves a canonical string as it is. *)
Lemma toHex_canon z : toHex (canon z) = Ok (canon z).
Proof.
  destruct (Z.ltb_spec z 0) as [Hz|Hz].
  - rewrite canon_neg by assumption. unfold toHex.
    change (first_is "-" ("-0x" +++ hex_even (- z))) with true. cbn iota.
    change (substring_from 1 ("-0x" +++ hex_even (- z))) with ("0x" +++ hex_even (- z)).
    change (first_is "-" ("0x" +++ hex_even (- z))) with false. cbn iota zeta.
    rewrite toHex_unsigned_prefixed
      by (try apply hex_even_nonempty; try apply hex_even_even).
    rewrite strip_trimmed by (apply hex_even_trimmed; lia).
    now rewrite hex_even_nonzero by lia.
  - rewrite canon_nonneg by assumption. unfold toHex.
    change (first_is "-" ("0x" +++ hex_even z)) with false. cbn iota.
    rewrite toHex_unsigned_prefixed
      by (try apply hex_even_nonempty; try apply hex_even_even).
    now rewrite strip_trimmed by (apply hex_even_trimmed; lia).
Qed.

Lemma toString_unsigned z : 0 <= z -> first_is "-" (BN.toString 16 z) = false.
Proof.
  intros Hz. apply (first_is_lowhex "-"); [reflexivity|]. now apply toString_lowhex.
Qed.

(** [toHex(bn)] is the canonical string. *)
Lemma toHex_toString z : toHex (BN.toString 16 z) = Ok (canon z).
Proof.
  destruct (Z.ltb_spec z 0) as [Hz|Hz].
  - unfold toHex. rewrite toString_neg by assumption.
    cbn [first_is]. change (Ascii.eqb "-" "-") with true. cbn iota.
    change (substring_from 1 (String "-" (digits_of 16 (- z)))) with (digits_of 16 (- z)).
    rewrite digits_of_unsigned by lia. cbn zeta.
    rewrite <- toString_pos by lia.
    pose proof (canon_neg z Hz) as Hc. unfold canon in Hc. zbool_in Hc.
    injection Hc as Hc. rewrite Hc.
    pose proof (hex_even_nonzero (- z) ltac:(lia)) as Hn.
    cbn [String.append] in Hn. rewrite Hn.
    unfold canon. zbool. now rewrite Hc.
  - unfold toHex. rewrite toString_unsigned by assumption.
    unfold canon. zbool. reflexivity.
Qed.

Lemma is_hex_number_canon z : is_hex_number (canon z) = true.
Proof.
  assert (H : forall m, 0 <= m ->
            negb (String.eqb (hex_even m) "") && string_forallb is_hex (hex_even m) = true).
  { intros m Hm. apply andb_true_iff. split.
    - apply negb_true_iff, String.eqb_neq, hex_even_nonempty.
    - eapply forallb_impl; [apply is_lowhex_is_hex|]. now apply hex_even_lowhex. }
  destruct (Z.ltb_spec z 0) as [Hz|Hz].
  - rewrite canon_neg by assumption. unfold is_hex_number.
    change (first_is "-" ("-0x" +++ hex_even (- z))) with true. cbn iota.
    change (substring_from 1 ("-0x" +++ hex_even (- z))) with ("0x" +++ hex_even (- z)).
    cbn [String.append]. change (Ascii.eqb "0" "0") with true.
    change (Ascii.eqb "x" "x") with true. cbn [andb orb].
    apply H. lia.
  - rewrite canon_nonneg by assumption. unfold is_hex_number.
    change (first_is "-" ("0x" +++ hex_even z)) with false. cbn iota.
    cbn [String.append]. change (Ascii.eqb "0" "0") with true.
    change (Ascii.eqb "x" "x") with true. cbn [andb orb].
    now apply H.
Qed.

Lemma from_text_canon z v : BigNumber_from_text (canon z) v = Ok (BN_of z).
Proof.
  unfold BigNumber_from_text. rewrite is_hex_number_canon, toHex_canon. reflexivity.
Qed.

(** [toBigNumber] returns the canonical [BigNumber]. *)
Lemma toBigNumber_ok z : toBigNumber z = Ok (BN_of z).
Proof.
  unfold toBigNumber. rewrite toHex_toString. cbn [bind].
  unfold BigNumber_from. rewrite latin1_js. apply from_text_canon.
Qed.

(** [toBN] of the canonical [BigNumber] of [z] is [z]. *)
Lemma toBN_BN_of z : toBN (VBigNumber (BN_of z)) = Ok z.
Proof.
  unfold toBN. cbn [BigNumber_from bind BN_of _hex].
  destruct (Z.ltb_spec z 0) as [Hz|Hz].
  - rewrite canon_neg by assumption.
    change (first_is "-" ("-0x" +++ hex_even (- z))) with true. cbn iota.
    change (substring_from 3 ("-0x" +++ hex_even (- z))) with (hex_even (- z)).
    change ("-" +++ hex_even (- z)) with (String "-" (hex_even (- z))).
    rewrite ofString_signed, parse_hex_even by lia. f_equal. lia.
  - rewrite canon_nonneg by assumption.
    change (first_is "-" ("0x" +++ hex_even z)) with false. cbn iota.
    change (substring_from 2 ("0x" +++ hex_even z)) with (hex_even z).
    rewrite ofString_unsigned, parse_hex_even; auto.
    apply (first_is_lowhex "-"); [reflexivity|]. now apply hex_even_lowhex.
Qed.

Lemma isNegative_BN_of z : BigNumber.isNegative (BN_of z) = (z <? 0).
Proof.
  unfold BigNumber.isNegative, BN_of. cbn [_hex].
  destruct (Z.ltb_spec z 0) as [Hz|Hz].
  - now rewrite canon_neg.
  - now rewrite canon_nonneg.
Qed.

(** *** Bytes *)

Lemma b2z_range b : 0 <= b2z b < 256.
Proof. unfold b2z. pose proof (Byte.to_N_bounded b). lia. Qed.

Lemma z2b_b2z b : z2b (b2z b) = b.
Proof.
  unfold z2b. rewrite Z.mod_small by apply b2z_range.
  unfold b2z. rewrite N2Z.id, Byte.of_to_N. reflexivity.
Qed.

Lemma b2z_z2b x : b2z (z2b x) = x mod 256.
Proof.
  unfold z2b, b2z.
  pose proof (Z.mod_pos_bound x 256 ltac:(lia)) as H.
  destruct (Byte.of_N (Z.to_N (x mod 256))) as [b|] eqn:E.
  - apply Byte.to_of_N in E. rewrite E. lia.
  - apply Byte.of_N_None_iff in E. lia.
Qed.

Lemma len_nonneg {A} (l : list A) : 0 <= len l.
Proof. unfold len. lia. Qed.

Lemma len_app {A} (a b : list A) : len (a ++ b) = len a + len b.
Proof. unfold len. rewrite length_app. lia. Qed.

Lemma len_cons {A} (a : A) l : len (a :: l) = 1 + len l.
Proof. unfold len. cbn [List.length]. lia. Qed.

Lemma len_nil {A} : len (@nil A) = 0.
Proof. reflexivity. Qed.

Lemma len_repeat {A} (a : A) n : len (repeat a n) = Z.of_nat n.
Proof. unfold len. now rewrite repeat_length. Qed.

Lemma be_value_acc bs acc :
  fold_left (fun acc b => acc * 256 + b2z b) bs acc = acc * 256 ^ len bs + be_value bs.
Proof.
  unfold be_value. revert acc. induction bs as [|b r IH]; intros acc.
  - cbn. lia.
  - cbn [fold_left]. rewrite IH. rewrite (IH (0 * 256 + b2z b)).
    rewrite len_cons, Z.pow_add_r by (pose proof (len_nonneg r); lia). ring.
Qed.

Lemma be_value_cons b r : be_value (b :: r) = b2z b * 256 ^ len r + be_value r.
Proof. unfold be_value at 1. cbn [fold_left]. rewrite be_value_acc. ring. Qed.

Lemma be_value_app a b : be_value (a ++ b) = be_value a * 256 ^ len b + be_value b.
Proof.
  unfold be_value at 1. rewrite fold_left_app. fold (be_value a).
  apply be_value_acc.
Qed.

Lemma be_value_range bs : 0 <= be_value bs < 256 ^ len bs.
Proof.
  induction bs as [|b r IH]; [cbn; lia|].
  rewrite be_value_cons, len_cons.
  rewrite Z.pow_add_r by (pose proof (len_nonneg r); lia).
  pose proof (b2z_range b). nia.
Qed.

Lemma be_value_zeros n bs : be_value (repeat x00 n ++ bs) = be_value bs.
Proof.
  induction n as [|n IH]; [reflexivity|].
  cbn [repeat app]. rewrite be_value_cons, IH. change (b2z x00) with 0. lia.
Qed.

Lemma be_bytes_length n z : List.length (be_bytes n z) = n.
Proof.
  revert z. induction n as [|n IH]; intros z; [reflexivity|].
  cbn [be_bytes]. rewrite length_app, IH. cbn. lia.
Qed.

Lemma be_value_be_bytes n z : be_value (be_bytes n z) = z mod 256 ^ Z.of_nat n.
Proof.
  revert z. induction n as [|n IH]; intros z.
  - cbn. now rewrite Z.mod_1_r.
  - cbn [be_bytes]. rewrite be_value_app, IH.
    cbn [be_value fold_left]. rewrite b2z_z2b.
    change (len [z2b z]) with 1. rewrite Z.pow_1_r, Nat2Z.inj_succ, Z.pow_succ_r by lia.
    rewrite Z.rem_mul_r by lia. lia.
Qed.

(** A byte string is the big-endian writing of its value. *)
Lemma be_bytes_be_value bs : be_bytes (List.length bs) (be_value bs) = bs.
Proof.
  induction bs as [|b r IH] using rev_ind; [reflexivity|].
  rewrite length_app. cbn [List.length]. rewrite Nat.add_1_r. cbn [be_bytes].
  rewrite be_value_app. change (len [b]) with 1. rewrite Z.pow_1_r.
  change (be_value [b]) with (0 * 256 + b2z b).
  pose proof (b2z_range b).
  replace ((be_value r * 256 + (0 * 256 + b2z b)) / 256) with (be_value r).
  2:{ symmetry. replace (be_value r * 256 + (0 * 256 + b2z b)) with (b2z b + be_value r * 256) by ring.
      rewrite Z.div_add by lia. rewrite Z.div_small by lia. lia. }
  rewrite IH. f_equal. f_equal.
  rewrite <- (z2b_b2z b) at 2. unfold z2b. f_equal. f_equal.
  replace (be_value r * 256 + (0 * 256 + b2z b)) with (b2z b + be_value r * 256) by ring.
  rewrite Z.mod_add by lia. reflexivity.
Qed.

Lemma be_bytes_unique n bs z : List.length bs = n -> be_value bs = z -> bs = be_bytes n z.
Proof. intros <- <-. symmetry. apply be_bytes_be_value. Qed.

(** *** Hex of bytes *)

Lemma hexlify_byte_parse b :
  BN.digitval (HexCharacters_at (Z.shiftr (Z.land (b2z b) 0xf0) 4)) * 16
  + BN.digitval (HexCharacters_at (Z.land (b2z b) 0x0f)) = b2z b.
Proof. destruct b; reflexivity. Qed.

Lemma hexlify_byte_hexval b :
  z2b (16 * hexval (HexCharacters_at (Z.shiftr (Z.land (b2z b) 0xf0) 4))
       + hexval (HexCharacters_at (Z.land (b2z b) 0x0f))) = b.
Proof. destruct b; reflexivity. Qed.

Lemma hexlify_byte_lowhex b :
  is_lowhex (HexCharacters_at (Z.shiftr (Z.land (b2z b) 0xf0) 4))
  && is_lowhex (HexCharacters_at (Z.land (b2z b) 0x0f)) = true.
Proof. destruct b; reflexivity. Qed.

Lemma parse_hexlify_bytes bs : BN.parse 16 (hexlify_bytes bs) 0 = be_value bs.
Proof.
  induction bs as [|b r IH]; [reflexivity|].
  cbn [hexlify_bytes BN.parse]. rewrite parse_acc, IH, be_value_cons.
  replace (slen (hexlify_bytes r)) with (2 * len r).
  2:{ clear. induction r as [|b r IH]; [reflexivity|].
      cbn [hexlify_bytes]. rewrite !slen_String, len_cons. lia. }
  rewrite Z.pow_mul_r by (pose proof (len_nonneg r); lia).
  change (16 ^ 2) with 256. pose proof (hexlify_byte_parse b) as Hb.
  set (d1 := BN.digitval (HexCharacters_at (Z.shiftr (Z.land (b2z b) 0xf0) 4))) in *.
  set (d2 := BN.digitval (HexCharacters_at (Z.land (b2z b) 0x0f))) in *.
  rewrite <- Hb. ring.
Qed.

Lemma slen_hexlify_bytes bs : slen (hexlify_bytes bs) = 2 * len bs.
Proof.
  induction bs as [|b r IH]; [reflexivity|].
  cbn [hexlify_bytes]. rewrite !slen_String, len_cons. lia.
Qed.

Lemma hexlify_bytes_lowhex bs : string_forallb is_lowhex (hexlify_bytes bs) = true.
Proof.
  induction bs as [|b r IH]; [reflexivity|].
  cbn [hexlify_bytes string_forallb]. rewrite IH, andb_true_r. apply hexlify_byte_lowhex.
Qed.

Lemma hexlify_bytes_hex bs : string_forallb is_hex (hexlify_bytes bs) = true.
Proof. eapply forallb_impl; [apply is_lowhex_is_hex|apply hexlify_bytes_lowhex]. Qed.

Lemma arrayify_hex_hexlify bs : arrayify_hex (hexlify_bytes bs) = bs.
Proof.
  induction bs as [|b r IH]; [reflexivity|].
  cbn [hexlify_bytes arrayify_hex]. now rewrite hexlify_byte_hexval, IH.
Qed.

Lemma hexlify_bytes_app a b : hexlify_bytes (a ++ b) = hexlify_bytes a +++ hexlify_bytes b.
Proof. induction a as [|x a IH]; [reflexivity|]. cbn. now rewrite IH. Qed.

Lemma toLowerCase_lowhex s : string_forallb is_lowhex s = true -> toLowerCase s = s.
Proof.
  induction s as [|c r IH]; [reflexivity|].
  cbn [string_forallb]. intros H. apply andb_true_iff in H as [Hc Hr].
  unfold toLowerCase in *. cbn [string_map]. rewrite IH by assumption. f_equal.
  unfold toLowerCase_char. unfold is_lowhex, is_digit, is_lower_hex in Hc.
  destruct ((65 <=? code c) && (code c <=? 90)) eqn:E; [|reflexivity].
  apply andb_true_iff in E as [E1 E2]. apply Z.leb_le in E1, E2.
  apply orb_true_iff in Hc as [Hc|Hc]; apply andb_true_iff in Hc as [H1 H2];
    apply Z.leb_le in H1, H2; lia.
Qed.

Lemma hexval_digitval c : is_hex c = true -> hexval c = BN.digitval c.
Proof.
  unfold hexval, BN.digitval, is_hex, is_lower_hex, is_upper_hex.
  destruct (is_digit c); [reflexivity|]. cbn [orb].
  intros H. apply orb_true_iff in H as [H|H]; apply andb_true_iff in H as [H1 H2];
    apply Z.leb_le in H1, H2; zbool; reflexivity.
Qed.

Lemma hexval_range c : is_hex c = true -> 0 <= hexval c < 16.
Proof.
  unfold hexval, is_hex, is_digit, is_lower_hex, is_upper_hex. intros H.
  destruct ((48 <=? code c) && (code c <=? 57)) eqn:E1.
  { apply andb_true_iff in E1 as [A B]. apply Z.leb_le in A, B. lia. }
  destruct ((97 <=? code c) && (code c <=? 102)) eqn:E2.
  { apply andb_true_iff in E2 as [A B]. apply Z.leb_le in A, B. lia. }
  destruct ((65 <=? code c) && (code c <=? 70)) eqn:E3.
  { apply andb_true_iff in E3 as [A B]. apply Z.leb_le in A, B. lia. }
  discriminate.
Qed.

(** The bytes of an even hex string denote the number it writes. *)
Lemma arrayify_hex_value e : string_forallb is_hex e = true -> Z.odd (slen e) = false ->
  be_value (arrayify_hex e) = BN.parse 16 e 0 /\ 2 * len (arrayify_hex e) = slen e.
Proof.
  remember (String.length e) as n eqn:Hn. revert e Hn.
  induction n as [n IH] using lt_wf_ind. intros e Hn Hhex Hodd.
  destruct e as [|a [|b r]].
  - split; reflexivity.
  - rewrite slen_String in Hodd. change (slen "") with 0 in Hodd. discriminate.
  - cbn [string_forallb] in Hhex.
    apply andb_true_iff in Hhex as [Ha Hhex]. apply andb_true_iff in Hhex as [Hb Hr].
    rewrite !slen_String in Hodd.
    replace (1 + (1 + slen r)) with (slen r + 2 * 1) in Hodd by lia.
    rewrite Z.odd_add_mul_2 in Hodd.
    destruct (IH (String.length r) ltac:(subst; cbn; lia) r eq_refl Hr Hodd) as [IH1 IH2].
    cbn [arrayify_hex BN.parse]. rewrite be_value_cons, len_cons, !slen_String. split; [|lia].
    rewrite (parse_acc 16 r (_ + BN.digitval b)), IH1. rewrite <- IH2.
    rewrite Z.pow_mul_r by (pose proof (len_nonneg (arrayify_hex r)); lia).
    change (16 ^ 2) with 256.
    rewrite b2z_z2b. pose proof (hexval_range a Ha). pose proof (hexval_range b Hb).
    rewrite Z.mod_small by lia.
    rewrite <- !hexval_digitval by assumption. ring.
Qed.

(** *** BigNumber.from *)

Lemma toString10_digits n : 0 <= n -> string_forallb is_digit (BN.toString 10 n) = true.
Proof.
  intros Hn. destruct (Z.eq_dec n 0) as [->|E]; [reflexivity|].
  rewrite toString_pos by lia. apply digits_of_forallb; [lia|].
  intros d Hd. unfold is_digit. rewrite code_digitChar by lia. zbool. reflexivity.
Qed.

Lemma is_hex_number_digits s : string_forallb is_digit s = true -> is_hex_number s = false.
Proof.
  intros H. unfold is_hex_number.
  rewrite (first_is_forallb is_digit "-" s eq_refl H).
  destruct s as [|a [|b r]]; try reflexivity.
  cbn [string_forallb] in H. apply andb_true_iff in H as [_ H].
  apply andb_true_iff in H as [H _].
  assert (Hx : Ascii.eqb b "x" || Ascii.eqb b "X" = false).
  { destruct (Ascii.eqb_spec b "x"); [subst; discriminate|].
    destruct (Ascii.eqb_spec b "X"); [subst; discriminate|]. reflexivity. }
  rewrite Hx. now rewrite andb_false_r.
Qed.

Lemma String_of_number_from n v :
  BigNumber_from_text (String_of_number n) v = Ok (BN_of n).
Proof.
  unfold BigNumber_from_text, String_of_number.
  assert (Hhex : is_hex_number (BN.toString 10 n) = false).
  { destruct (Z.ltb_spec n 0) as [Hn|Hn].
    - rewrite toString_neg by assumption. unfold is_hex_number.
      cbn [first_is]. change (Ascii.eqb "-" "-") with true. cbn iota.
      change (substring_from 1 (String "-" (digits_of 10 (- n)))) with (digits_of 10 (- n)).
      pose proof (toString10_digits (- n) ltac:(lia)) as Hd.
      rewrite toString_pos in Hd by lia.
      pose proof (is_hex_number_digits _ Hd) as Hh. unfold is_hex_number in Hh.
      now rewrite (first_is_forallb is_digit "-" _ eq_refl Hd) in Hh.
    - apply is_hex_number_digits. now apply toString10_digits. }
  rewrite Hhex.
  assert (Hdec : is_decimal_number (BN.toString 10 n) = true).
  { unfold is_decimal_number. destruct (Z.ltb_spec n 0) as [Hn|Hn].
    - rewrite toString_neg by assumption.
      cbn [first_is]. change (Ascii.eqb "-" "-") with true. cbn iota.
      change (substring_from 1 (String "-" (digits_of 10 (- n)))) with (digits_of 10 (- n)).
      rewrite <- toString_pos by lia. rewrite toString10_digits by lia.
      rewrite andb_true_r. apply negb_true_iff, String.eqb_neq, toString_nonempty. lia.
    - rewrite (first_is_forallb is_digit "-" _ eq_refl (toString10_digits n Hn)).
      rewrite toString10_digits by lia.
      rewrite andb_true_r. apply negb_true_iff, String.eqb_neq, toString_nonempty. lia. }
  rewrite Hdec, ofString_toString by lia. rewrite toHex_toString. reflexivity.
Qed.

(** [BigNumber.from(n)] for a safe integer. *)
Lemma from_VNumber n : - MAX_SAFE < n < MAX_SAFE ->
  BigNumber.from (VNumber n) = Ok (BN_of n).
Proof.
  intros Hn. unfold BigNumber.from, BigNumber_from. zbool. cbn [orb].
  apply String_of_number_from.
Qed.

Lemma strip00_suffix fuel e : exists p, e = p +++ strip00 fuel e.
Proof.
  revert e. induction fuel as [|f IH]; intros e; [exists ""; reflexivity|].
  cbn [strip00]. destruct (starts00 e) eqn:E; [|exists ""; reflexivity].
  destruct e as [|a [|b r]]; try discriminate.
  destruct (IH r) as [p Hp]. exists (String a (String b p)).
  cbn [string_drop String.append]. now rewrite <- Hp.
Qed.

Lemma strip_forallb P e : string_forallb P e = true -> string_forallb P (strip e) = true.
Proof.
  intros H. destruct (strip00_suffix (String.length e) e) as [p Hp].
  fold (strip e) in Hp. rewrite Hp, string_forallb_app in H.
  now apply andb_true_iff in H as [_ H].
Qed.

Lemma hexlify_VBytes bs : hexlify (VBytes bs) = Ok ("0x" +++ hexlify_bytes bs).
Proof. reflexivity. Qed.

Lemma hexlify_bytes_nonempty b r : hexlify_bytes (b :: r) <> "".
Proof. discriminate. Qed.

Lemma is_hex_number_0x e : e <> "" -> string_forallb is_hex e = true ->
  is_hex_number ("0x" +++ e) = true.
Proof.
  intros He Hh. unfold is_hex_number.
  change (first_is "-" ("0x" +++ e)) with false. cbn iota.
  cbn [String.append]. change (Ascii.eqb "0" "0") with true.
  change (Ascii.eqb "x" "x") with true. cbn [andb orb]. rewrite Hh, andb_true_r.
  now apply negb_true_iff, String.eqb_neq.
Qed.

(** [BigNumber.from(bytes)]: the bytes as one big-endian number. *)
Lemma from_VBytes bs : bs <> [] -> BigNumber.from (VBytes bs) = Ok (BN_of_bytes bs).
Proof.
  intros Hbs. unfold BigNumber.from, BigNumber_from.
  cbn [isBytes bind]. rewrite hexlify_VBytes. cbn [bind].
  unfold BigNumber_from_text.
  rewrite is_hex_number_0x.
  - reflexivity.
  - destruct bs; [congruence|discriminate].
  - apply hexlify_bytes_hex.
Qed.

Lemma BN_of_bytes_hex bs : bs <> [] ->
  _hex (BN_of_bytes bs) = "0x" +++ strip (hexlify_bytes bs).
Proof.
  intros Hbs. unfold BN_of_bytes. cbn [_hex].
  apply toHex_unsigned_prefixed.
  - destruct bs; [congruence|discriminate].
  - rewrite slen_hexlify_bytes. now rewrite Z.mul_comm, Z.odd_mul, andb_false_r.
Qed.

Lemma toBN_bytes bs : bs <> [] -> toBN (VBigNumber (BN_of_bytes bs)) = Ok (be_value bs).
Proof.
  intros Hbs. unfold toBN. cbn [BigNumber_from bind].
  rewrite BN_of_bytes_hex by assumption.
  change (first_is "-" ("0x" +++ strip (hexlify_bytes bs))) with false. cbn iota.
  change (substring_from 2 ("0x" +++ strip (hexlify_bytes bs))) with (strip (hexlify_bytes bs)).
  rewrite ofString_unsigned.
  - now rewrite parse_strip, parse_hexlify_bytes.
  - apply (first_is_lowhex "-"); [reflexivity|].
    apply strip_forallb, hexlify_bytes_lowhex.
Qed.

Lemma isNegative_bytes bs : bs <> [] -> BigNumber.isNegative (BN_of_bytes bs) = false.
Proof.
  intros Hbs. unfold BigNumber.isNegative. now rewrite BN_of_bytes_hex.
Qed.

(** *** BigNumber methods, through [toBN] *)

Lemma toBN_from v z : toBN v = Ok z ->
  exists b, BigNumber.from v = Ok b /\ toBN (VBigNumber b) = Ok z.
Proof.
  unfold toBN, BigNumber.from. destruct (BigNumber_from v) as [b|e]; [|discriminate].
  cbn [bind]. intros H. exists b. split; [reflexivity|]. exact H.
Qed.

Section Methods.
Variables (this : BigNumber) (a : Z).
Hypothesis Hthis : toBN (VBigNumber this) = Ok a.

Lemma fromTwos_ok w : BigNumber.fromTwos this w = Ok (BN_of (BN.fromTwos w a)).
Proof. unfold BigNumber.fromTwos. rewrite Hthis. apply toBigNumber_ok. Qed.

Lemma toTwos_ok w : BigNumber.toTwos this w = Ok (BN_of (BN.toTwos w a)).
Proof. unfold BigNumber.toTwos. rewrite Hthis. apply toBigNumber_ok. Qed.

Lemma mask_ok n : BigNumber.isNegative this = false -> 0 <= n ->
  BigNumber.mask this n = Ok (BN_of (a mod 2 ^ n)).
Proof.
  intros Hneg Hn. unfold BigNumber.mask. rewrite Hneg. zbool. cbn [orb].
  rewrite Hthis. apply toBigNumber_ok.
Qed.

Lemma isZero_ok : BigNumber.isZero this = Ok (a =? 0).
Proof. unfold BigNumber.isZero. now rewrite Hthis. Qed.

Lemma toNumber_ok : Z.abs a < 2 ^ 53 -> BigNumber.toNumber this = Ok a.
Proof.
  intros Ha. unfold BigNumber.toNumber, BN.toNumber. rewrite Hthis. cbn [bind].
  zbool. reflexivity.
Qed.

Lemma toNumber_overflow : 2 ^ 53 <= Z.abs a ->
  BigNumber.toNumber this
  = throwFault "overflow" "toNumber" (Some (VString (js (BN.toString 10 a)))).
Proof.
  intros Ha. unfold BigNumber.toNumber, BN.toNumber, BigNumber.toString.
  rewrite Hthis. cbn [bind]. zbool. reflexivity.
Qed.

Variables (other : value) (b : Z).
Hypothesis Hother : toBN other = Ok b.

Lemma add_ok : BigNumber.add this other = Ok (BN_of (a + b)).
Proof. unfold BigNumber.add. rewrite Hthis, Hother. apply toBigNumber_ok. Qed.

Lemma mul_ok : BigNumber.mul this other = Ok (BN_of (a * b)).
Proof. unfold BigNumber.mul. rewrite Hthis, Hother. apply toBigNumber_ok. Qed.

Lemma gt_ok : BigNumber.gt this other = Ok (a >? b).
Proof. unfold BigNumber.gt. now rewrite Hthis, Hother. Qed.

Lemma lt_ok : BigNumber.lt this other = Ok (a <? b).
Proof. unfold BigNumber.lt. now rewrite Hthis, Hother. Qed.

Lemma div_ok : b <> 0 -> BigNumber.div this other = Ok (BN_of (Z.quot a b)).
Proof.
  intros Hb. unfold BigNumber.div.
  destruct (toBN_from other b Hother) as (o & Ho & Hob).
  rewrite Ho. cbn [bind]. unfold BigNumber.isZero. rewrite Hob. cbn [bind].
  zbool. rewrite Hthis, Hother. apply toBigNumber_ok.
Qed.

Lemma div_zero : b = 0 ->
  BigNumber.div this other = throwFault "division by zero" "div" None.
Proof.
  intros Hb. unfold BigNumber.div.
  destruct (toBN_from other b Hother) as (o & Ho & Hob).
  rewrite Ho. cbn [bind]. unfold BigNumber.isZero. rewrite Hob. cbn [bind].
  zbool. reflexivity.
Qed.

Lemma mod_negative : b < 0 ->
  BigNumber.mod_ this other = throwFault "cannot modulo negative values" "mod" None.
Proof.
  intros Hb. unfold BigNumber.mod_. rewrite Hother. cbn [bind]. zbool. reflexivity.
Qed.

Lemma mod_ok : 0 < b -> BigNumber.mod_ this other = Ok (BN_of (a mod b)).
Proof.
  intros Hb. unfold BigNumber.mod_, BN.umod. rewrite Hother. cbn [bind]. zbool.
  rewrite Hthis. cbn [bind]. zbool. rewrite Z.abs_eq by lia. apply toBigNumber_ok.
Qed.
End Methods.

(** *** Slices *)

Lemma slice_firstn_skipn {A} (l : list A) a b : 0 <= a <= b -> b <= len l ->
  slice l a b = firstn (Z.to_nat (b - a)) (skipn (Z.to_nat a) l).
Proof.
  intros Hab Hb. unfold slice. zbool.
  rewrite (Z.min_l a) by lia. rewrite (Z.min_l b) by lia. reflexivity.
Qed.

Lemma slice_from_skipn {A} (l : list A) a : 0 <= a <= len l ->
  slice_from l a = skipn (Z.to_nat a) l.
Proof.
  intros Ha. unfold slice_from. rewrite slice_firstn_skipn by lia.
  apply firstn_all2. rewrite length_skipn. unfold len in *. lia.
Qed.

Lemma slice_from_beyond {A} (l : list A) a : len l <= a -> slice_from l a = [].
Proof.
  intros Ha. unfold slice_from, slice. pose proof (len_nonneg l). zbool.
  rewrite (Z.min_r a) by lia. rewrite Z.min_id.
  replace (len l - len l) with 0 by lia. reflexivity.
Qed.

Lemma slice_prefix {A} (l : list A) n : 0 <= n -> len l <= n -> slice l 0 n = l.
Proof.
  intros Hn Hl. unfold slice. pose proof (len_nonneg l). zbool.
  rewrite (Z.min_l 0) by lia. rewrite (Z.min_r n) by lia.
  rewrite Z.sub_0_r. cbn [Z.to_nat skipn]. apply firstn_all2. unfold len in *. lia.
Qed.

Lemma slice_app_mid {A} (pre mid post : list A) :
  slice (pre ++ mid ++ post) (len pre) (len pre + len mid) = mid.
Proof.
  pose proof (len_nonneg pre). pose proof (len_nonneg mid). pose proof (len_nonneg post).
  rewrite slice_firstn_skipn by (rewrite ?len_app; lia).
  unfold len. rewrite Nat2Z.id.
  rewrite skipn_app, skipn_all, Nat.sub_diag. cbn [skipn app].
  replace (Z.to_nat (_ + _ - _)) with (List.length mid) by lia.
  rewrite firstn_app, firstn_all, Nat.sub_diag. cbn [firstn]. apply app_nil_r.
Qed.

Lemma slice_from_app {A} (pre post : list A) : slice_from (pre ++ post) (len pre) = post.
Proof.
  rewrite slice_from_skipn by (rewrite len_app; pose proof (len_nonneg pre);
                               pose proof (len_nonneg post); lia).
  unfold len. rewrite Nat2Z.id, skipn_app, skipn_all, Nat.sub_diag. reflexivity.
Qed.

(** *** Writer *)

Lemma std_new : std_writer (Writer.new 32).
Proof. split; reflexivity. Qed.

Lemma std_writeData w data : std_writer w -> std_writer (snd (Writer._writeData w data)).
Proof. intros [H1 H2]. split; assumption. Qed.

Lemma arrayify_BigNumber_0x e :
  string_forallb is_hex e = true -> Z.odd (slen e) = false ->
  arrayify (VBigNumber (mkBigNumber ("0x" +++ e))) = Ok (arrayify_hex e).
Proof.
  intros Hh Ho. unfold arrayify. cbn [_hex].
  assert (H : isHexString_text ("0x" +++ e) = true).
  { cbn [String.append isHexString_text]. now rewrite Hh. }
  rewrite H. unfold arrayify_text.
  change (substring_from 2 ("0x" +++ e)) with e. now rewrite Ho.
Qed.

(** Padding on the left to one word keeps the number. *)
Lemma pad_word bytes : 0 < len bytes <= 32 ->
  (if negb (len bytes mod 32 =? 0)
   then slice_from (repeat x00 32) (len bytes mod 32) ++ bytes
   else bytes) = be_bytes 32 (be_value bytes).
Proof.
  intros Hl. apply be_bytes_unique.
  - destruct (Z.eq_dec (len bytes) 32) as [E|E].
    + rewrite E. cbn. unfold len in E. lia.
    + rewrite Z.mod_small by lia. zbool. cbn [negb].
      rewrite slice_from_skipn by (rewrite len_repeat; lia).
      rewrite length_app, length_skipn, repeat_length. unfold len in *. lia.
  - destruct (Z.eq_dec (len bytes) 32) as [E|E].
    + rewrite E. reflexivity.
    + rewrite Z.mod_small by lia. zbool. cbn [negb].
      rewrite slice_from_skipn by (rewrite len_repeat; lia).
      replace (skipn (Z.to_nat (len bytes)) (repeat x00 32))
        with (repeat x00 (32 - Z.to_nat (len bytes))).
      * apply be_value_zeros.
      * unfold len. rewrite Nat2Z.id.
        assert (Hk : (List.length bytes <= 32)%nat) by (unfold len in Hl; lia).
        clear - Hk. revert Hk. generalize (List.length bytes) as k. intros k Hk.
        replace 32%nat with (k + (32 - k))%nat at 2 by lia.
        rewrite repeat_app, skipn_app, skipn_all2 by (rewrite repeat_length; lia).
        rewrite repeat_length, Nat.sub_diag. reflexivity.
Qed.

Lemma hex_even_length z : 0 <= z < 2 ^ 256 -> 0 < slen (hex_even z) <= 64.
Proof.
  intros Hz.
  assert (Hd : forall fuel z acc n, 0 <= z < 16 ^ Z.of_nat n ->
            (String.length (BN.digits fuel 16 z acc) <= n + String.length acc)%nat).
  { clear. induction fuel as [|f IH]; intros z acc n Hz; cbn [BN.digits]; [lia|].
    destruct (Z.eqb_spec z 0); [lia|].
    destruct n as [|n]; [cbn in Hz; lia|].
    rewrite Nat2Z.inj_succ, Z.pow_succ_r in Hz by lia.
    specialize (IH (z / 16) (String (BN.digitChar (z mod 16)) acc) n).
    cbn [String.length] in IH. etransitivity; [apply IH|lia].
    split; [apply Z.div_pos; lia|]. apply Z.div_lt_upper_bound; lia. }
  assert (Hs : slen (BN.toString 16 z) <= 64).
  { destruct (Z.eq_dec z 0) as [->|E]; [cbn; lia|].
    rewrite toString_pos by lia. unfold digits_of, slen.
    specialize (Hd (S (Z.to_nat (Z.log2 z))) z "" 64%nat).
    cbn [String.length] in Hd. change (16 ^ Z.of_nat 64) with (2 ^ 256) in Hd.
    specialize (Hd Hz). lia. }
  pose proof (hex_even_even z) as He. pose proof (hex_even_nonempty z) as Hne.
  split.
  - destruct (hex_even z); [congruence|]. rewrite slen_String.
    pose proof (slen_nonneg s). lia.
  - unfold hex_even in *. destruct (Z.odd (slen (BN.toString 16 z))) eqn:Eo; [|exact Hs].
    cbn [String.append]. rewrite slen_String.
    destruct (Z.eq_dec (slen (BN.toString 16 z)) 64) as [E64|]; [|lia].
    rewrite E64 in Eo. discriminate.
Qed.

(** [writeValue] of a canonical [BigNumber] below 2^256: one word, its
    big-endian writing. *)
Lemma getValue_BN_of w z : std_writer w -> 0 <= z < 2 ^ 256 ->
  Writer._getValue w (VBigNumber (BN_of z)) = Ok (be_bytes 32 z).
Proof.
  intros [Hw Hp] Hz. unfold Writer._getValue, BigNumber.from.
  cbn [BigNumber_from bind]. unfold BN_of. rewrite canon_nonneg by lia.
  rewrite arrayify_BigNumber_0x.
  2:{ eapply forallb_impl; [apply is_lowhex_is_hex|]. apply hex_even_lowhex. lia. }
  2:{ apply hex_even_even. }
  cbn [bind]. rewrite Hw, Hp.
  pose proof (hex_even_length z Hz) as Hl.
  destruct (arrayify_hex_value (hex_even z)) as [Hv H2].
  { eapply forallb_impl; [apply is_lowhex_is_hex|]. apply hex_even_lowhex. lia. }
  { apply hex_even_even. }
  rewrite parse_hex_even in Hv by lia.
  assert (Hlen : 0 < len (arrayify_hex (hex_even z)) <= 32) by lia.
  zbool. rewrite pad_word by assumption. now rewrite Hv.
Qed.

Lemma writeValue_BN_of w z : std_writer w -> 0 <= z < 2 ^ 256 ->
  Writer.writeValue w (VBigNumber (BN_of z)) = Ok (Writer._writeData w (be_bytes 32 z)).
Proof.
  intros Hw Hz. unfold Writer.writeValue. now rewrite getValue_BN_of.
Qed.

Lemma getValue_VNumber w n : std_writer w -> 0 <= n < MAX_SAFE ->
  Writer._getValue w (VNumber n) = Ok (be_bytes 32 n).
Proof.
  intros Hw Hn.
  assert (Hz : 0 <= n < 2 ^ 256) by (unfold MAX_SAFE in Hn; lia).
  pose proof (getValue_BN_of w n Hw Hz) as H.
  unfold Writer._getValue in *. rewrite from_VNumber by lia.
  cbn [BigNumber.from BigNumber_from bind] in H. exact H.
Qed.

Lemma writeValue_VNumber w n : std_writer w -> 0 <= n < MAX_SAFE ->
  Writer.writeValue w (VNumber n) = Ok (Writer._writeData w (be_bytes 32 n)).
Proof.
  intros Hw Hn. unfold Writer.writeValue. now rewrite getValue_VNumber.
Qed.

(** *** Reader *)

Lemma aligned_32 n : 0 <= n -> Reader.aligned n 32 = 32 * ((n + 31) / 32).
Proof.
  intros Hn. unfold Reader.aligned.
  replace (- n) with ((31 - (n + 31) mod 32) + - ((n + 31) / 32) * 32).
  2:{ pose proof (Z.div_mod (n + 31) 32 ltac:(lia)). lia. }
  rewrite Z.div_add by lia.
  pose proof (Z.mod_pos_bound (n + 31) 32 ltac:(lia)).
  rewrite Z.div_small by lia. lia.
Qed.

Lemma aligned_mult k : 0 <= k -> Reader.aligned (32 * k) 32 = 32 * k.
Proof.
  intros Hk. rewrite aligned_32 by lia. f_equal.
  replace (32 * k + 31) with (31 + k * 32) by lia.
  rewrite Z.div_add by lia. reflexivity.
Qed.

(** Reading [n] bytes (a multiple of the word) that are there. *)
Lemma readBytes_ok r k loose : std_reader r -> 0 <= k ->
  Reader._offset r + 32 * k <= len (Reader._data r) ->
  Reader.readBytes (32 * k) loose r
  = (Ok (slice (Reader._data r) (Reader._offset r) (Reader._offset r + 32 * k)),
     Reader.advance r (32 * k)).
Proof.
  intros [Hw Ho] Hk Hlen. unfold Reader.readBytes, Reader._peekBytes.
  rewrite Hw, aligned_mult by lia. zbool.
  assert (Hs : len (slice (Reader._data r) (Reader._offset r) (Reader._offset r + 32 * k))
               = 32 * k).
  { rewrite slice_firstn_skipn by lia. unfold len.
    rewrite length_firstn, length_skipn. unfold len in Hlen. lia. }
  rewrite Hs, slice_prefix by lia. reflexivity.
Qed.

Lemma readBytes_overrun r n loose : std_reader r -> 0 <= n ->
  Reader.allowLoose r && loose = false ->
  len (Reader._data r) < Reader._offset r + 32 * ((n + 31) / 32) ->
  exists e, Reader.readBytes n loose r = (Throw e, r) /\ err_code e = Some BUFFER_OVERRUN.
Proof.
  intros [Hw Ho] Hn Hloose Hlen. unfold Reader.readBytes, Reader._peekBytes.
  rewrite Hw, aligned_32 by lia. zbool. rewrite Hloose. cbn [andb].
  eexists. split; reflexivity.
Qed.

(** [readValue] when a word is there: the number it writes. *)
Lemma readValue_ok r : std_reader r ->
  Reader._offset r + 32 <= len (Reader._data r) ->
  let word := slice (Reader._data r) (Reader._offset r) (Reader._offset r + 32) in
  Reader.readValue r = (Ok (BN_of_bytes word), Reader.advance r 32)
  /\ toBN (VBigNumber (BN_of_bytes word)) = Ok (be_value word)
  /\ BigNumber.isNegative (BN_of_bytes word) = false
  /\ List.length word = 32%nat.
Proof.
  intros Hr Hlen word.
  assert (Hl : List.length word = 32%nat).
  { subst word. destruct Hr as [Hw Ho]. rewrite slice_firstn_skipn by lia.
    rewrite length_firstn, length_skipn. unfold len in Hlen. lia. }
  assert (Hne : word <> []) by (intro E; rewrite E in Hl; discriminate).
  split; [|split; [|split]].
  - unfold Reader.readValue, Reader.bindM. destruct Hr as [Hw Ho]. rewrite Hw.
    pose proof (readBytes_ok r 1 false (conj Hw Ho) ltac:(lia) ltac:(lia)) as H.
    change (32 * 1) with 32 in H. rewrite H. fold word.
    unfold Reader.lift. now rewrite from_VBytes.
  - now apply toBN_bytes.
  - now apply isNegative_bytes.
  - exact Hl.
Qed.

Lemma readValue_overrun r : std_reader r ->
  len (Reader._data r) < Reader._offset r + 32 ->
  exists e, Reader.readValue r = (Throw e, r) /\ err_code e = Some BUFFER_OVERRUN.
Proof.
  intros Hr Hlen. unfold Reader.readValue, Reader.bindM.
  destruct Hr as [Hw Ho]. rewrite Hw.
  destruct (readBytes_overrun r 32 false (conj Hw Ho) ltac:(lia)) as (e & He & Hc).
  - now rewrite andb_false_r.
  - change ((32 + 31) / 32) with 1. lia.
  - rewrite He. now exists e.
Qed.

(** *** Two's complement in [bn] *)

Lemma notn_small w m : 0 <= w -> 0 <= m < 2 ^ w -> BN.notn w m = 2 ^ w - 1 - m.
Proof.
  intros Hw Hm. unfold BN.notn. cbv zeta.
  assert (Ht : w <= 26 * ((w + 25) / 26)).
  { pose proof (Z.div_mod (w + 25) 26 ltac:(lia)).
    pose proof (Z.mod_pos_bound (w + 25) 26 ltac:(lia)). lia. }
  assert (Hp : 2 ^ w <= 2 ^ (26 * ((w + 25) / 26))) by (apply Z.pow_le_mono_r; lia).
  rewrite Z.div_small by lia. rewrite Z.mod_small by lia. lia.
Qed.

Lemma toTwos_nonneg w z : 0 <= z -> BN.toTwos w z = z.
Proof. intros Hz. unfold BN.toTwos. zbool. reflexivity. Qed.

Lemma toTwos_neg w z : 0 <= w -> - 2 ^ w < z < 0 -> BN.toTwos w z = 2 ^ w + z.
Proof.
  intros Hw Hz. unfold BN.toTwos. zbool. rewrite notn_small by lia. lia.
Qed.

Lemma testbit_top w t : 0 < w -> 0 <= t < 2 ^ w ->
  Z.testbit t (w - 1) = negb (t <? 2 ^ (w - 1)).
Proof.
  intros Hw Ht.
  assert (H2 : 2 ^ w = 2 * 2 ^ (w - 1)).
  { rewrite <- Z.pow_succ_r by lia. f_equal. lia. }
  destruct (Z.ltb_spec t (2 ^ (w - 1))) as [Hlt|Hge]; cbn [negb].
  - apply Z.testbit_false; [lia|]. rewrite Z.div_small by lia. reflexivity.
  - apply Z.testbit_true; [lia|].
    replace (t / 2 ^ (w - 1)) with 1; [reflexivity|].
    apply Z.div_unique with (r := t - 2 ^ (w - 1)); lia.
Qed.

Lemma fromTwos_spec w t : 0 < w -> 0 <= t < 2 ^ w ->
  BN.fromTwos w t = if t <? 2 ^ (w - 1) then t else t - 2 ^ w.
Proof.
  intros Hw Ht. unfold BN.fromTwos. rewrite Z.abs_eq by lia.
  rewrite testbit_top by lia.
  destruct (Z.ltb_spec t (2 ^ (w - 1))); cbn [negb]; [reflexivity|].
  rewrite notn_small by lia.
  assert (0 < 2 ^ (w - 1)) by (apply Z.pow_pos_nonneg; lia).
  rewrite Z.sgn_pos by lia. lia.
Qed.

(** *** The name of a number coder *)

Lemma parseInt_String_of_number n : 0 <= n -> parseInt (String_of_number n) = n.
Proof.
  intros Hn. unfold parseInt, String_of_number.
  rewrite <- (ofString_unsigned 10).
  - apply ofString_toString. lia.
  - apply (first_is_forallb is_digit "-"); [reflexivity|]. now apply toString10_digits.
Qed.

Lemma match_int_name_int (signed : bool) n : 0 <= n ->
  match_int_name ((if signed then "int" else "uint") +++ String_of_number n)
  = Some (String_of_number n).
Proof.
  intros Hn.
  assert (H : negb (String.eqb (String_of_number n) "")
              && string_forallb is_digit (String_of_number n) = true).
  { unfold String_of_number. rewrite toString10_digits by assumption.
    rewrite andb_true_r. apply negb_true_iff, String.eqb_neq, toString_nonempty. lia. }
  destruct signed; unfold match_int_name; cbn [String.append]; now rewrite H.
Qed.

Lemma coerce_number r size (signed : bool) z :
  Reader._coerceFunc r = None -> 0 < size -> Z.abs z < 2 ^ 53 \/ 48 < size * 8 ->
  Reader.coerce r ((if signed then "int" else "uint") +++ String_of_number (size * 8))
    (VBigNumber (BN_of z)) = Ok (number_value size z).
Proof.
  intros Hc Hs Hz. unfold Reader.coerce, Reader.coerce_default, number_value.
  rewrite Hc, match_int_name_int, parseInt_String_of_number by lia.
  destruct (Z.leb_spec (size * 8) 48); [|reflexivity].
  rewrite (toNumber_ok _ z (toBN_BN_of z)) by lia. reflexivity.
Qed.

(** *** NumberCoder *)

Lemma toBN_MaxUint256 : toBN (VBigNumber MaxUint256) = Ok (2 ^ 256 - 1).
Proof. vm_compute. reflexivity. Qed.

Lemma toBN_One : toBN (VBigNumber One) = Ok 1.
Proof. reflexivity. Qed.

Lemma toBN_NegativeOne : toBN (VBigNumber NegativeOne) = Ok (-1).
Proof. reflexivity. Qed.

Lemma toBN_Zero : toBN (VBigNumber Zero) = Ok 0.
Proof. reflexivity. Qed.

Lemma pow2_le a b : 0 <= a <= b -> 2 ^ a <= 2 ^ b.
Proof. intros. apply Z.pow_le_mono_r; lia. Qed.

Lemma pow2_pos a : 0 <= a -> 0 < 2 ^ a.
Proof. intros. apply Z.pow_pos_nonneg; lia. Qed.

Lemma mod_pow2_pred a b : 0 <= a <= b -> (2 ^ b - 1) mod 2 ^ a = 2 ^ a - 1.
Proof.
  intros H. pose proof (pow2_pos a ltac:(lia)).
  replace (2 ^ b - 1) with ((2 ^ a - 1) + (2 ^ (b - a) - 1) * 2 ^ a).
  - rewrite Z.mod_add by lia. apply Z.mod_small. lia.
  - replace b with (a + (b - a)) at 2 by lia. rewrite Z.pow_add_r by lia. ring.
Qed.

Lemma mod_neg_range m z : - m < z < 0 -> z mod m = m + z.
Proof.
  intros Hz. replace z with ((m + z) + (-1) * m) at 1 by ring.
  rewrite Z.mod_add by lia. apply Z.mod_small. lia.
Qed.

Lemma toTwos_mod w z : 0 <= w -> - 2 ^ w < z < 2 ^ w ->
  BN.toTwos w z = z mod 2 ^ w /\ 0 <= z mod 2 ^ w < 2 ^ w.
Proof.
  intros Hw Hz. pose proof (pow2_pos w Hw).
  split; [|apply Z.mod_pos_bound; lia].
  destruct (Z.ltb_spec z 0).
  - rewrite toTwos_neg, mod_neg_range by lia. reflexivity.
  - rewrite toTwos_nonneg by lia. symmetry. apply Z.mod_small. lia.
Qed.

Lemma signed_mod w z : 0 < w -> - 2 ^ (w - 1) <= z < 2 ^ (w - 1) ->
  (if z mod 2 ^ w <? 2 ^ (w - 1) then z mod 2 ^ w else z mod 2 ^ w - 2 ^ w) = z.
Proof.
  intros Hw Hz. pose proof (pow2_pos (w - 1) ltac:(lia)).
  assert (H2 : 2 ^ w = 2 * 2 ^ (w - 1)).
  { rewrite <- Z.pow_succ_r by lia. f_equal. lia. }
  destruct (Z.ltb_spec z 0).
  - rewrite mod_neg_range by lia. zbool. lia.
  - rewrite Z.mod_small by lia. zbool. reflexivity.
Qed.

Section NumberCoder.
Variables (size : Z) (signed : bool) (localName : option string).
Hypothesis Hsize : 1 <= size <= 32.

Let coder := NumberCoder size signed localName.

(** The bounds test of [encode]. *)
Lemma NumberCoder_encode_spec w v z :
  std_writer w -> toBN v = Ok z ->
  Coder.encode coder w v
  = if (if signed then (z >? 2 ^ (size * 8 - 1) - 1) || (z <? - 2 ^ (size * 8 - 1))
        else (z <? 0) || (z >? 2 ^ (size * 8) - 1))
    then throwArgumentError "value out-of-bounds" (name_value localName) v
    else Ok (Writer._writeData w (be_bytes 32 (z mod 2 ^ 256))).
Proof.
  intros Hw Hv. destruct (toBN_from v z Hv) as (b & Hb & Hbz).
  unfold coder, NumberCoder. cbn [Coder.encode]. rewrite Hb. cbn [bind].
  destruct Hw as [Hws Hwp]. rewrite Hws.
  change (32 * 8) with 256. change (8 * 32) with 256.
  rewrite (mask_ok _ _ toBN_MaxUint256) by (reflexivity || lia). cbn [bind].
  rewrite (mod_pow2_pred 256 256) by lia.
  pose proof (pow2_pos (size * 8 - 1) ltac:(lia)) as Hp1.
  pose proof (pow2_pos (size * 8) ltac:(lia)) as Hp2.
  assert (H2 : 2 ^ (size * 8) = 2 * 2 ^ (size * 8 - 1)).
  { rewrite <- Z.pow_succ_r by lia. f_equal. lia. }
  pose proof (pow2_le (size * 8) 256 ltac:(lia)) as Hp3.
  assert (Hfinal : forall t, 0 <= t < 2 ^ 256 ->
            Writer.writeValue w (VBigNumber (BN_of t))
            = Ok (Writer._writeData w (be_bytes 32 t))).
  { intros t Ht. apply writeValue_BN_of; [split; assumption|assumption]. }
  destruct signed.
  - rewrite (mask_ok _ _ (toBN_BN_of _)); [|rewrite isNegative_BN_of; zbool; reflexivity|lia].
    cbn [bind]. rewrite (mod_pow2_pred (size * 8 - 1) 256) by lia.
    rewrite (gt_ok _ _ Hbz _ _ (toBN_BN_of _)). cbn [bind].
    destruct (Z.gtb_spec z (2 ^ (size * 8 - 1) - 1)) as [Hgt|Hle]; cbn [orb]; [reflexivity|].
    rewrite (add_ok _ _ (toBN_BN_of _) _ _ toBN_One). cbn [bind].
    rewrite (mul_ok _ _ (toBN_BN_of _) _ _ toBN_NegativeOne). cbn [bind].
    rewrite (lt_ok _ _ Hbz _ _ (toBN_BN_of _)). cbn [bind].
    replace ((2 ^ (size * 8 - 1) - 1 + 1) * -1) with (- 2 ^ (size * 8 - 1)) by ring.
    destruct (Z.ltb_spec z (- 2 ^ (size * 8 - 1))) as [Hlt|Hge]; [reflexivity|].
    cbn [bind]. rewrite (toTwos_ok _ _ Hbz). cbn [bind].
    destruct (toTwos_mod (size * 8) z ltac:(lia) ltac:(lia)) as [Ht Hr]. rewrite Ht.
    rewrite (mask_ok _ _ (toBN_BN_of _)); [|rewrite isNegative_BN_of; zbool; reflexivity|lia].
    cbn [bind]. rewrite Z.mod_mod by lia.
    rewrite (fromTwos_ok _ _ (toBN_BN_of _)). cbn [bind].
    rewrite fromTwos_spec by lia.
    rewrite signed_mod by lia.
    rewrite (toTwos_ok _ _ (toBN_BN_of _)). cbn [bind].
    destruct (toTwos_mod 256 z ltac:(lia) ltac:(lia)) as [Hw1 Hw2].
    rewrite Hw1. now apply Hfinal.
  - rewrite (lt_ok _ _ Hbz _ _ toBN_Zero). cbn [bind].
    destruct (Z.ltb_spec z 0) as [Hneg|Hnn]; cbn [orb]; [reflexivity|].
    rewrite (mask_ok _ _ (toBN_BN_of _)); [|rewrite isNegative_BN_of; zbool; reflexivity|lia].
    cbn [bind]. rewrite (mod_pow2_pred (size * 8) 256) by lia.
    rewrite (gt_ok _ _ Hbz _ _ (toBN_BN_of _)). cbn [bind].
    destruct (Z.gtb_spec z (2 ^ (size * 8) - 1)) as [Hgt|Hle]; [reflexivity|].
    cbn [bind]. rewrite (toTwos_ok _ _ Hbz). cbn [bind].
    rewrite toTwos_nonneg by lia.
    rewrite (mask_ok _ _ (toBN_BN_of _)); [|rewrite isNegative_BN_of; zbool; reflexivity|lia].
    cbn [bind]. rewrite (Z.mod_small z (2 ^ (size * 8))) by lia.
    rewrite (Z.mod_small z (2 ^ 256)) by lia. apply Hfinal. lia.
Qed.

(** [decode] on a reader that holds a word. *)
Lemma NumberCoder_decode_spec r :
  std_reader r -> Reader._coerceFunc r = None ->
  Reader._offset r + 32 <= len (Reader._data r) ->
  let word := slice (Reader._data r) (Reader._offset r) (Reader._offset r + 32) in
  Coder.decode coder r
  = (Ok (number_value size (word_number size signed word)), Reader.advance r 32).
Proof.
  intros Hr Hc Hlen word.
  destruct (readValue_ok r Hr Hlen) as (Hrv & Hbn & Hneg & Hl). fold word in Hrv, Hbn, Hneg.
  unfold coder, NumberCoder. cbn [Coder.decode]. unfold Reader.bindM.
  rewrite Hrv. unfold Reader.lift.
  rewrite (mask_ok _ _ Hbn) by (assumption || lia).
  pose proof (pow2_pos (size * 8 - 1) ltac:(lia)) as Hp1.
  pose proof (pow2_pos (size * 8) ltac:(lia)) as Hp2.
  assert (H2 : 2 ^ (size * 8) = 2 * 2 ^ (size * 8 - 1)).
  { rewrite <- Z.pow_succ_r by lia. f_equal. lia. }
  pose proof (Z.mod_pos_bound (be_value word) (2 ^ (size * 8)) ltac:(lia)) as Hm.
  assert (Hco : forall z, Z.abs z < 2 ^ (size * 8) ->
            Reader.coerceM ((if signed then "int" else "uint")
                              +++ String_of_number (size * 8))
              (VBigNumber (BN_of z)) (Reader.advance r 32)
            = (Ok (number_value size z), Reader.advance r 32)).
  { intros z Hz. unfold Reader.coerceM. rewrite coerce_number; [reflexivity|exact Hc|lia|].
    destruct (Z.leb_spec (size * 8) 48); [left|right; lia].
    eapply Z.lt_le_trans; [exact Hz|]. apply Z.pow_le_mono_r; lia. }
  unfold word_number. destruct signed.
  - rewrite (fromTwos_ok _ _ (toBN_BN_of _)).
    rewrite fromTwos_spec by lia. apply Hco.
    destruct (Z.ltb_spec (be_value word mod 2 ^ (size * 8)) (2 ^ (size * 8 - 1))); lia.
  - apply Hco. lia.
Qed.
End NumberCoder.

(** ** BigNumber division and modulo (C7) *)

(** C7, as stated, fails for [div]: 6 divided by -2 returns -3; it does
    not raise a numeric fault. *)
Lemma div_negative_returns :
  BigNumber.div (mkBigNumber "0x06") (VBigNumber (mkBigNumber "-0x02"))
  = Ok (mkBigNumber "-0x03")
  /\ ~ fails_with NUMERIC_FAULT
         (BigNumber.div (mkBigNumber "0x06") (VBigNumber (mkBigNumber "-0x02"))).
Proof.
  assert (H : BigNumber.div (mkBigNumber "0x06") (VBigNumber (mkBigNumber "-0x02"))
              = Ok (mkBigNumber "-0x03")) by (vm_compute; reflexivity).
  split; [exact H|]. intros (e & He & _). rewrite H in He. discriminate.
Qed.

(** C7, amended: for every [BigNumber] x and operand y of negative value,
    [x.mod(y)] raises the numeric fault "cannot modulo negative values",
    while [x.div(y)] returns the quotient truncated toward zero; [div]
    raises a numeric fault ("division by zero") for a zero operand only. *)
Theorem div_mod_negative_operand (x : BigNumber) (y : value) (a b : Z) :
  toBN (VBigNumber x) = Ok a -> toBN y = Ok b ->
  (b < 0 ->
   BigNumber.mod_ x y = throwFault "cannot modulo negative values" "mod" None
   /\ fails_with NUMERIC_FAULT (BigNumber.mod_ x y)
   /\ BigNumber.div x y = Ok (BN_of (Z.quot a b)))
  /\ (fails_with NUMERIC_FAULT (BigNumber.div x y) <-> b = 0).
Proof.
  intros Hx Hy. split.
  - intros Hb. rewrite (mod_negative _ _ b Hy Hb).
    split; [reflexivity|]. split.
    + eexists. split; reflexivity.
    + apply (div_ok x a Hx y b Hy). lia.
  - split.
    + intros (e & He & _). destruct (Z.eq_dec b 0) as [|Hb]; [assumption|].
      rewrite (div_ok x a Hx y b Hy Hb) in He. discriminate.
    + intros Hb. rewrite (div_zero x y b Hy Hb). eexists. split; reflexivity.
Qed.

Lemma div_mod_negative_operand_witness :
  toBN (VBigNumber (mkBigNumber "-0x07")) = Ok (-7)
  /\ toBN (VNumber (-2)) = Ok (-2)
  /\ BigNumber.mod_ (mkBigNumber "-0x07") (VNumber (-2))
     = throwFault "cannot modulo negative values" "mod" None
  /\ BigNumber.div (mkBigNumber "-0x07") (VNumber (-2)) = Ok (BN_of 3).
Proof.
  assert (Hx : toBN (VBigNumber (mkBigNumber "-0x07")) = Ok (-7)) by reflexivity.
  assert (Hy : toBN (VNumber (-2)) = Ok (-2)) by reflexivity.
  destruct (div_mod_negative_operand _ _ _ _ Hx Hy) as [H _].
  destruct (H ltac:(lia)) as (Hm & _ & Hd).
  repeat split; assumption.
Defined.

(** ** Signed bounds of the number coder (C2) *)

(** C2: for every N in 8, 16, ..., 256, the signed number coder of N bits
    refuses the value 2^(N-1) with the invalid-argument error "value
    out-of-bounds", and encodes 2^(N-1) - 1 into one word whose decoding is
    2^(N-1) - 1 again (a number up to 48 bits, a [BigNumber] above). *)
Theorem NumberCoder_signed_bounds (N : Z) (localName : option string) (v : value) :
  8 <= N <= 256 -> N mod 8 = 0 ->
  let coder := NumberCoder (N / 8) true localName in
  (toBN v = Ok (2 ^ (N - 1)) ->
   Coder.encode coder (Writer.new 32) v
   = throwArgumentError "value out-of-bounds" (name_value localName) v)
  /\ (toBN v = Ok (2 ^ (N - 1) - 1) ->
      exists w, Coder.encode coder (Writer.new 32) v = Ok (32, w)
        /\ fst (Coder.decode coder
                  (Reader.new (concat_arrays (Writer._data w)) 32 None false))
           = Ok (number_value (N / 8) (2 ^ (N - 1) - 1))).
Proof.
  intros HN Hm coder.
  assert (Hs : 1 <= N / 8 <= 32).
  { pose proof (Z.div_mod N 8 ltac:(lia)). lia. }
  assert (HN8 : N / 8 * 8 = N).
  { pose proof (Z.div_mod N 8 ltac:(lia)). lia. }
  pose proof (pow2_pos (N - 1) ltac:(lia)) as Hp.
  split; intros Hv.
  - unfold coder.
    rewrite (NumberCoder_encode_spec (N / 8) true localName Hs _ v _ std_new Hv).
    rewrite HN8. zbool. reflexivity.
  - unfold coder.
    rewrite (NumberCoder_encode_spec (N / 8) true localName Hs _ v _ std_new Hv).
    rewrite HN8. zbool. cbn [orb].
    assert (H256 : 2 ^ (N - 1) - 1 < 2 ^ 256).
    { pose proof (pow2_le (N - 1) 256 ltac:(lia)). lia. }
    rewrite Z.mod_small by lia.
    set (word := be_bytes 32 (2 ^ (N - 1) - 1)).
    eexists. split.
    + unfold Writer._writeData, len, word.
      rewrite be_bytes_length. reflexivity.
    + cbn [Writer._data Writer.new app concat_arrays]. rewrite app_nil_r.
      assert (Hl : len word = 32) by (unfold len, word; now rewrite be_bytes_length).
      rewrite (NumberCoder_decode_spec (N / 8) true localName Hs).
      * cbn [fst Reader.new Reader._data Reader._offset]. f_equal. f_equal.
        fold word. change (0 + 32) with 32. rewrite (slice_prefix word 32) by lia.
        unfold word_number, word. rewrite be_value_be_bytes.
        change (256 ^ Z.of_nat 32) with (2 ^ 256).
        rewrite (Z.mod_small _ (2 ^ 256)) by lia.
        rewrite HN8. rewrite signed_mod by lia. reflexivity.
      * split; [reflexivity|cbn [Reader.new Reader._offset]; lia].
      * reflexivity.
      * cbn [Reader.new Reader._data Reader._offset]. fold word. lia.
Qed.

Lemma NumberCoder_signed_bounds_witness :
  Coder.encode (NumberCoder 1 true None) (Writer.new 32) (VNumber 128)
  = throwArgumentError "value out-of-bounds" VNull (VNumber 128)
  /\ exists w, Coder.encode (NumberCoder 1 true None) (Writer.new 32) (VNumber 127)
               = Ok (32, w)
        /\ fst (Coder.decode (NumberCoder 1 true None)
                  (Reader.new (concat_arrays (Writer._data w)) 32 None false))
           = Ok (VNumber 127).
Proof.
  destruct (NumberCoder_signed_bounds 8 None (VNumber 128) ltac:(lia) eq_refl) as [H1 _].
  destruct (NumberCoder_signed_bounds 8 None (VNumber 127) ltac:(lia) eq_refl) as [_ H2].
  split.
  - apply H1. reflexivity.
  - apply H2. reflexivity.
Defined.

(** ** Boolean decoding (C10) *)

Lemma be_value_zero word : be_value word = 0 <-> word = repeat x00 (List.length word).
Proof.
  split; intros H.
  - rewrite <- (be_bytes_be_value word) at 1. rewrite H.
    generalize (List.length word) as n. induction n as [|n IH]; [reflexivity|].
    cbn [be_bytes]. change (0 / 256) with 0. rewrite IH.
    change [z2b 0] with (repeat x00 1). rewrite <- repeat_app.
    f_equal. lia.
  - rewrite H. rewrite <- (app_nil_r (repeat _ _)). apply be_value_zeros.
Qed.

(** C10: on a reader that holds a word (and has the default coercion),
    [BooleanCoder.decode] consumes the word and returns [false] exactly
    when its 32 bytes are all zero; every other word decodes to [true], so
    it never fails on a word that is not 0 or 1. *)
Theorem BooleanCoder_decode_nonzero (localName : option string) (r : Reader.t) :
  std_reader r -> Reader._coerceFunc r = None ->
  Reader._offset r + 32 <= len (Reader._data r) ->
  let word := slice (Reader._data r) (Reader._offset r) (Reader._offset r + 32) in
  exists b, Coder.decode (BooleanCoder localName) r = (Ok (VBool b), Reader.advance r 32)
    /\ (b = false <-> word = repeat x00 32).
Proof.
  intros Hr Hc Hlen word.
  destruct (readValue_ok r Hr Hlen) as (Hrv & Hbn & Hneg & Hl). fold word in Hrv, Hbn, Hl.
  exists (negb (be_value word =? 0)). split.
  - unfold BooleanCoder. cbn [Coder.decode]. unfold Reader.bindM, Reader.lift.
    rewrite Hrv, (isZero_ok _ _ Hbn).
    unfold Reader.coerceM, Reader.coerce, Reader.advance.
    cbn [Reader._coerceFunc]. rewrite Hc. reflexivity.
  - rewrite negb_false_iff, Z.eqb_eq, be_value_zero, Hl. reflexivity.
Qed.

Lemma BooleanCoder_decode_nonzero_witness :
  exists b,
    Coder.decode (BooleanCoder None)
      (Reader.new (repeat x00 31 ++ ["002"%byte]) 32 None false)
    = (Ok (VBool b), Reader.advance (Reader.new (repeat x00 31 ++ ["002"%byte]) 32 None false) 32)
    /\ (b = false <-> repeat x00 31 ++ ["002"%byte] = repeat x00 32).
Proof.
  apply (BooleanCoder_decode_nonzero None
           (Reader.new (repeat x00 31 ++ ["002"%byte]) 32 None false)).
  - split; [reflexivity|cbn; lia].
  - reflexivity.
  - cbn. lia.
Defined.

(** ** The type parser on a comma outside parentheses *)

(** On ["uint256,"] the parser returns no node, but what it throws at
    the comma is the native [TypeError] of reading [components] of the
    missing parent, not the positional error "unexpected character at
    position 7", which the closing parenthesis does raise in the same
    place. *)
Theorem parseParamType_stray_comma (allowIndexed : bool) :
  parseParamType "uint256," allowIndexed
  = Throw (typeError "Cannot read properties of undefined (reading 'components')")
  /\ ParamType_fromString "uint256," allowIndexed
     = Throw (typeError "Cannot read properties of undefined (reading 'components')")
  /\ ~ fails_with INVALID_ARGUMENT (parseParamType "uint256," allowIndexed)
  /\ parseParamType "uint256)" allowIndexed = unexpected 7 "uint256)".
Proof.
  assert (H : parseParamType "uint256," allowIndexed
              = Throw (typeError "Cannot read properties of undefined (reading 'components')"))
    by (destruct allowIndexed; vm_compute; reflexivity).
  split; [exact H|]. split.
  - unfold ParamType_fromString. rewrite H. reflexivity.
  - split.
    + intros (e & He & Hc). rewrite H in He. injection He as <-. discriminate Hc.
    + destruct allowIndexed; vm_compute; reflexivity.
Qed.

(** ** [decodeFunctionResult] called on the class *)


(** On an instance the same body decodes the word 0x00..01 with the
    output [uint256] to a result whose one element is 1. *)
Lemma decodeFunctionResult_instance_one :
  exists r, Interface.decodeFunctionResult (Interface.Instance (Interface.new []))
              balanceOf (VBytes word_one) = Ok r
    /\ Result_index r 0 = Ok (VBigNumber (mkBigNumber "0x01"))
    /\ Result_index r 1 = Ok VUndefined.
Proof. eexists. split; [vm_compute; reflexivity|]. split; reflexivity. Qed.

(** ** The count check of dynamic arrays *)

(** A count of 2^53 or more is not reported as an overrun: on the length word
    0xff..ff over 32 bytes of data the count times 32 exceeds the data,
    yet what [ArrayCoder.decode] throws is the numeric fault "overflow" of
    [toNumber], not a buffer overrun. *)
Lemma ArrayCoder_decode_huge_count :
  be_value (repeat xff 32) * 32 > len (repeat xff 32)
  /\ fst (Coder.decode (ArrayCoder (NumberCoder 32 false None) (-1) None)
            (Reader.new (repeat xff 32) 32 None false))
     = throwFault "overflow" "toNumber"
         (Some (VString (js (BN.toString 10 (2 ^ 256 - 1)))))
  /\ ~ fails_with BUFFER_OVERRUN
         (fst (Coder.decode (ArrayCoder (NumberCoder 32 false None) (-1) None)
                 (Reader.new (repeat xff 32) 32 None false))).
Proof.
  assert (H : fst (Coder.decode (ArrayCoder (NumberCoder 32 false None) (-1) None)
                     (Reader.new (repeat xff 32) 32 None false))
              = throwFault "overflow" "toNumber"
                  (Some (VString (js (BN.toString 10 (2 ^ 256 - 1))))))
    by (vm_compute; reflexivity).
  split; [vm_compute; reflexivity|]. split; [exact H|].
  intros (e & He & Hc). rewrite H in He. injection He as <-. discriminate Hc.
Qed.

(** A dynamic array's decode reads the length word as the
    count.  When the count is below 2^53 and 32 times the count exceeds
    the length of the reader's data, it throws the buffer overrun
    "insufficient data length" (with the data length and the count); when
    the count is 2^53 or more it throws the numeric fault "overflow".  In
    both cases the reader is left after the length word and the outcome is
    the same for every element coder: none is made or run. *)
Theorem ArrayCoder_decode_count_check (coder : Coder.t) (localName : option string)
    (r : Reader.t) :
  std_reader r -> Reader._offset r + 32 <= len (Reader._data r) ->
  let count := be_value (slice (Reader._data r) (Reader._offset r) (Reader._offset r + 32)) in
  (count < 2 ^ 53 -> count * 32 > len (Reader._data r) ->
   Coder.decode (ArrayCoder coder (-1) localName) r
   = (throwError "insufficient data length" BUFFER_OVERRUN
        [("length", VNumber (len (Reader._data r))); ("count", VNumber count)],
      Reader.advance r 32)
   /\ fails_with BUFFER_OVERRUN (fst (Coder.decode (ArrayCoder coder (-1) localName) r)))
  /\ (2 ^ 53 <= count ->
      Coder.decode (ArrayCoder coder (-1) localName) r
      = (throwFault "overflow" "toNumber" (Some (VString (js (BN.toString 10 count)))),
         Reader.advance r 32)).
Proof.
  intros Hr Hlen count.
  destruct (readValue_ok r Hr Hlen) as (Hrv & Hbn & _ & Hl).
  fold count in Hbn.
  assert (Hc0 : 0 <= count) by (unfold count; apply be_value_range).
  split.
  - intros Hc Hbig.
    assert (E : Coder.decode (ArrayCoder coder (-1) localName) r
      = (throwError "insufficient data length" BUFFER_OVERRUN
           [("length", VNumber (len (Reader._data r))); ("count", VNumber count)],
         Reader.advance r 32)).
    { unfold ArrayCoder. cbn [Coder.decode]. change (-1 =? -1) with true. cbv iota.
      unfold Reader.bindM at 1. unfold Reader.bindM at 1. rewrite Hrv.
      unfold Reader.bindM at 1. unfold Reader.lift.
      rewrite (toNumber_ok _ _ Hbn) by (rewrite Z.abs_eq; lia).
      unfold Reader.advance; cbn [Reader._data]. zbool. reflexivity. }
    split; [exact E|]. rewrite E. eexists. split; reflexivity.
  - intros Hc.
    unfold ArrayCoder. cbn [Coder.decode]. change (-1 =? -1) with true. cbv iota.
    unfold Reader.bindM at 1. unfold Reader.bindM at 1. rewrite Hrv.
    unfold Reader.bindM at 1. unfold Reader.lift.
    rewrite (toNumber_overflow _ _ Hbn) by (rewrite Z.abs_eq; lia).
    reflexivity.
Qed.

Lemma ArrayCoder_decode_count_check_witness :
  Coder.decode (ArrayCoder (NumberCoder 32 false None) (-1) None)
    (Reader.new (repeat x00 31 ++ [x03]) 32 None false)
  = (throwError "insufficient data length" BUFFER_OVERRUN
       [("length", VNumber 32); ("count", VNumber 3)],
     Reader.advance (Reader.new (repeat x00 31 ++ [x03]) 32 None false) 32).
Proof.
  assert (Hr : std_reader (Reader.new (repeat x00 31 ++ [x03]) 32 None false))
    by (split; [reflexivity|apply Z.le_refl]).
  assert (Hlen : Reader._offset (Reader.new (repeat x00 31 ++ [x03]) 32 None false) + 32
                 <= len (Reader._data (Reader.new (repeat x00 31 ++ [x03]) 32 None false)))
    by (vm_compute; discriminate).
  destruct (ArrayCoder_decode_count_check (NumberCoder 32 false None) None _ Hr Hlen)
    as [H _].
  destruct H as [H _]; [vm_compute; reflexivity | vm_compute; reflexivity | exact H].
Defined.

(** ** Deferred errors of [unpack] *)

Lemma unpack_loop_cons c cs base vs r :
  unpack_loop (c :: cs) base vs r
  = match decode_field base c r with
    | (Throw e, r1) => (Throw e, r1)
    | (Ok (Throw e), r1) =>
        if is_overrun e then (Throw e, r1)
        else unpack_loop cs base (vs ++ [VError (annotate e c)]) r1
    | (Ok (Ok v), r1) => unpack_loop cs base (if keep v then vs ++ [v] else vs) r1
    end.
Proof.
  cbn [unpack_loop]. unfold decode_field, keep.
  destruct (Coder.dynamic c).
  - unfold Reader.bindM, Reader.lift, Reader.ret.
    destruct (Reader.readValue r) as [[off|e] r1]; [|reflexivity].
    destruct (BigNumber.toNumber off) as [n|e]; [|reflexivity].
    destruct (fst (Coder.decode c (Reader.subReader base n))) as [v|e]; [reflexivity|].
    destruct (is_overrun e); reflexivity.
  - destruct (Coder.decode c r) as [[v|e] r1]; [reflexivity|].
    destruct (is_overrun e); reflexivity.
Qed.

Lemma decode_fields_cons base c cs r res r' :
  decode_fields base (c :: cs) r = (res, r') ->
  match decode_field base c r with
  | (Throw e, r1) => res = Throw e /\ r' = r1
  | (Ok out, r1) =>
      match decode_fields base cs r1 with
      | (Throw e, r2) => res = Throw e /\ r' = r2
      | (Ok outs, r2) => res = Ok (out :: outs) /\ r' = r2
      end
  end.
Proof.
  cbn [decode_fields]. unfold Reader.bindM, Reader.ret.
  destruct (decode_field base c r) as [[out|e] r1].
  - destruct (decode_fields base cs r1) as [[outs|e] r2]; intros [= <- <-]; split; reflexivity.
  - intros [= <- <-]; split; reflexivity.
Qed.

Lemma unpack_loop_deferred coders : forall base vs r outs r',
  decode_fields base coders r = (Ok outs, r') ->
  forallb (fun out => negb (overrun out)) outs = true ->
  unpack_loop coders base vs r = (Ok (vs ++ filter keep (deferred coders outs)), r').
Proof.
  induction coders as [|c cs IH]; intros base vs r outs r' H Hno.
  - injection H as <- <-. cbn. now rewrite app_nil_r.
  - apply decode_fields_cons in H. rewrite unpack_loop_cons.
    destruct (decode_field base c r) as [[out|e] r1]; [|destruct H; discriminate].
    destruct (decode_fields base cs r1) as [[outs'|e] r2] eqn:E2; [|destruct H; discriminate].
    destruct H as [[= ->] ->]. cbn [forallb] in Hno. apply andb_true_iff in Hno.
    destruct Hno as [Ho Hno]. destruct out as [v|e].
    + rewrite (IH _ _ _ _ _ E2 Hno). cbn [deferred defer filter].
      destruct (keep v); [rewrite <- app_assoc|]; reflexivity.
    + cbn [overrun] in Ho. apply negb_true_iff in Ho. rewrite Ho.
      rewrite (IH _ _ _ _ _ E2 Hno). cbn [deferred defer filter keep is_nullish negb].
      rewrite <- app_assoc. reflexivity.
Qed.

Lemma unpack_loop_first_overrun coders : forall base vs r outs r' i e,
  decode_fields base coders r = (Ok outs, r') ->
  nth_error outs i = Some (Throw e) -> is_overrun e = true ->
  (forall j out, (j < i)%nat -> nth_error outs j = Some out -> overrun out = false) ->
  fst (unpack_loop coders base vs r) = Throw e.
Proof.
  induction coders as [|c cs IH]; intros base vs r outs r' i e H Hi He Hj.
  - injection H as <- <-. destruct i; discriminate.
  - apply decode_fields_cons in H. rewrite unpack_loop_cons.
    destruct (decode_field base c r) as [[out|e1] r1]; [|destruct H; discriminate].
    destruct (decode_fields base cs r1) as [[outs'|e1] r2] eqn:E2; [|destruct H; discriminate].
    destruct H as [[= ->] ->]. destruct i as [|i].
    + injection Hi as ->. rewrite He. reflexivity.
    + cbn [nth_error] in Hi.
      assert (Ho : overrun out = false) by (apply (Hj 0%nat); [lia|reflexivity]).
      assert (Hj' : forall j o, (j < i)%nat -> nth_error outs' j = Some o -> overrun o = false).
      { intros j o Hlt Hn. apply (Hj (S j)); [lia|exact Hn]. }
      destruct out as [v|e1].
      * apply (IH _ _ _ _ _ _ _ E2 Hi He Hj').
      * cbn [overrun] in Ho. rewrite Ho. apply (IH _ _ _ _ _ _ _ E2 Hi He Hj').
Qed.

Lemma unpack_loop_offset_failure coders : forall base vs r e r',
  decode_fields base coders r = (Throw e, r') ->
  exists e', fst (unpack_loop coders base vs r) = Throw e'
             /\ (e' = e \/ is_overrun e' = true).
Proof.
  induction coders as [|c cs IH]; intros base vs r e r' H.
  - discriminate.
  - apply decode_fields_cons in H. rewrite unpack_loop_cons.
    destruct (decode_field base c r) as [[out|e1] r1].
    + destruct (decode_fields base cs r1) as [[outs'|e2] r2] eqn:E2; [destruct H; discriminate|].
      destruct H as [[= ->] ->]. destruct out as [v|e1].
      * apply (IH _ _ _ _ _ E2).
      * destruct (is_overrun e1) eqn:Eo.
        -- exists e1. split; [reflexivity|now right].
        -- apply (IH _ _ _ _ _ E2).
    + destruct H as [[= ->] ->]. eexists. split; [reflexivity|now left].
Qed.

Lemma read_slot_nil items i : read_slot items [] i = Ok (nth i items VUndefined).
Proof.
  unfold read_slot. revert i. induction items as [|v items IH]; intros [|i]; cbn; try reflexivity.
  - destruct v; reflexivity.
  - apply IH.
Qed.

Lemma unpack_getters_nil items : forall i, unpack_getters items [] i = Ok tt.
Proof.
  induction items as [|v items IH]; intros i; [reflexivity|].
  destruct v; cbn; apply IH.
Qed.

Lemma count_name_app a b n : count_name (a ++ b) n = (count_name a n + count_name b n)%nat.
Proof. unfold count_name. now rewrite filter_app, length_app. Qed.

Lemma count_name_zero l n c :
  count_name l n = 0%nat -> In c l -> Coder.localName c = Some n -> False.
Proof.
  unfold count_name. induction l as [|a l IH]; intros H Hin Hn; [destruct Hin|].
  cbn [filter] in H. destruct Hin as [->|Hin].
  - rewrite Hn, String.eqb_refl in H. discriminate.
  - destruct (Coder.localName a) as [m|]; [destruct (String.eqb m n)|];
      try discriminate; now apply IH.
Qed.

Lemma assoc_set_other {A} k k' (v : A) l : k <> k' -> assoc k (assoc_set k' v l) = assoc k l.
Proof.
  intros Hk. induction l as [|[k0 v0] l IH]; cbn.
  - destruct (String.eqb_spec k k'); [contradiction|reflexivity].
  - destruct (String.eqb_spec k' k0) as [->|Hne]; cbn.
    + destruct (String.eqb_spec k k0); [contradiction|reflexivity].
    + destruct (String.eqb k k0); [reflexivity|exact IH].
Qed.

Lemma assoc_set_same {A} k (v : A) l : assoc k (assoc_set k v l) = Some v.
Proof.
  induction l as [|[k0 v0] l IH]; cbn.
  - now rewrite String.eqb_refl.
  - destruct (String.eqb_spec k k0) as [->|Hne]; cbn.
    + now rewrite String.eqb_refl.
    + destruct (String.eqb_spec k k0); [contradiction|exact IH].
Qed.

Lemma count_name_cons c l n :
  count_name (c :: l) n
  = ((match Coder.localName c with
      | Some m => if String.eqb m n then 1 else 0
      | None => 0
      end) + count_name l n)%nat.
Proof.
  unfold count_name. cbn [filter].
  destruct (Coder.localName c) as [m|]; [destruct (String.eqb m n)|]; reflexivity.
Qed.

Lemma unpack_names_plain all : forall coders done items named,
  all = done ++ coders ->
  forallb plain_name coders = true ->
  (forall k v, assoc k named = Some v ->
     exists c, In c done /\ Coder.localName c = Some k) ->
  exists named',
    unpack_names all coders (List.length done) items [] named = Ok (items, [], named')
    /\ (forall k v, assoc k named = Some v -> assoc k named' = Some v)
    /\ (forall i c n, nth_error coders i = Some c -> Coder.localName c = Some n ->
          n <> "" -> count_name all n = 1%nat ->
          existsb (String.eqb n) Array_prototype = false ->
          assoc n named' = Some (nth (List.length done + i) items VUndefined)).
Proof.
  induction coders as [|c cs IH]; intros done items named Hall Hplain Hinv.
  - exists named. split; [reflexivity|]. split; [auto|].
    intros [|i] c n Hn; discriminate.
  - cbn [forallb] in Hplain. apply andb_true_iff in Hplain. destruct Hplain as [Hc Hplain].
    assert (Hall' : all = (done ++ [c]) ++ cs) by (rewrite <- app_assoc; exact Hall).
    assert (Hlen : List.length (done ++ [c]) = S (List.length done))
      by (rewrite length_app; cbn; lia).
    assert (Hinv' : forall k v, assoc k named = Some v ->
              exists c0, In c0 (done ++ [c]) /\ Coder.localName c0 = Some k).
    { intros k v Hk. destruct (Hinv k v Hk) as (c0 & Hin & Hn). exists c0.
      split; [apply in_or_app; now left|exact Hn]. }
    (* the step that adds nothing *)
    assert (Skip : forall (Hno : forall n, Coder.localName c = Some n -> n <> "" ->
                       count_name all n = 1%nat ->
                       existsb (String.eqb n) Array_prototype = false -> False),
              exists named',
                unpack_names all cs (S (List.length done)) items [] named
                = Ok (items, [], named')
                /\ (forall k v, assoc k named = Some v -> assoc k named' = Some v)
                /\ (forall i c0 n, nth_error (c :: cs) i = Some c0 ->
                      Coder.localName c0 = Some n -> n <> "" -> count_name all n = 1%nat ->
                      existsb (String.eqb n) Array_prototype = false ->
                      assoc n named' = Some (nth (List.length done + i) items VUndefined))).
    { intros Hno. destruct (IH (done ++ [c]) items named Hall' Hplain Hinv')
        as (named' & E & Hpres & Hnames).
      rewrite Hlen in E. exists named'. split; [exact E|]. split; [exact Hpres|].
      intros [|i] c0 n Hnth Hn Hne Hcount Hproto.
      - injection Hnth as <-. destruct (Hno n Hn Hne Hcount Hproto).
      - rewrite (Hnames i c0 n Hnth Hn Hne Hcount Hproto). rewrite Hlen.
        do 2 f_equal. lia. }
    cbn [unpack_names]. destruct (Coder.localName c) as [n|] eqn:En.
    + destruct (String.eqb n "" || negb (count_name all n =? 1)%nat) eqn:Esk.
      * apply Skip. intros n0 [= <-] Hne Hcount _.
        apply orb_true_iff in Esk. destruct Esk as [Esk|Esk].
        -- apply String.eqb_eq in Esk. contradiction.
        -- rewrite Hcount in Esk. discriminate.
      * apply orb_false_iff in Esk. destruct Esk as [Hne Hcount].
        apply negb_false_iff, Nat.eqb_eq in Hcount.
        unfold plain_name in Hc. rewrite En in Hc.
        destruct (index_of_name n) eqn:Ei; [discriminate|].
        apply negb_true_iff in Hc. rewrite Hc.
        change (if false then "_length" else n) with n.
        assert (Hfresh : assoc n named = None).
        { destruct (assoc n named) as [v|] eqn:Ea; [|reflexivity].
          destruct (Hinv n v Ea) as (c0 & Hin & Hn0). exfalso.
          rewrite Hall, count_name_app, count_name_cons, En, String.eqb_refl in Hcount.
          apply (count_name_zero done n c0); [lia|exact Hin|exact Hn0]. }
        unfold has_property. rewrite Hfresh. rewrite Ei, Hc. cbn [orb bind].
        destruct (existsb (String.eqb n) Array_prototype) eqn:Ep.
        -- apply Skip. intros n0 [= <-] _ _ Hp. rewrite Ep in Hp. discriminate.
        -- rewrite read_slot_nil. cbn [bind].
           set (v := nth (List.length done) items VUndefined).
           assert (Hinv1 : forall k v0, assoc k (assoc_set n v named) = Some v0 ->
                     exists c0, In c0 (done ++ [c]) /\ Coder.localName c0 = Some k).
           { intros k v0 Hk. destruct (String.eqb_spec k n) as [->|Hkn].
             - exists c. split; [apply in_or_app; right; now left|exact En].
             - rewrite assoc_set_other in Hk by exact Hkn. apply (Hinv' k v0 Hk). }
           destruct (IH (done ++ [c]) items (assoc_set n v named) Hall' Hplain Hinv1)
             as (named' & E & Hpres & Hnames).
           rewrite Hlen in E. exists named'. split; [exact E|]. split.
           ++ intros k v0 Hk. apply Hpres. rewrite assoc_set_other; [exact Hk|].
              intros ->. rewrite Hfresh in Hk. discriminate.
           ++ intros [|i] c0 n0 Hnth Hn Hne0 Hcount0 Hproto.
              ** injection Hnth as <-. rewrite En in Hn. injection Hn as <-.
                 rewrite Nat.add_0_r. apply Hpres. apply assoc_set_same.
              ** rewrite (Hnames i c0 n0 Hnth Hn Hne0 Hcount0 Hproto). rewrite Hlen.
                 do 2 f_equal. lia.
    + apply Skip. intros n0 [=].
Qed.

Lemma filter_keep_all l : forallb keep l = true -> filter keep l = l.
Proof.
  induction l as [|v l IH]; [reflexivity|]. cbn [forallb filter].
  intros H. apply andb_true_iff in H. destruct H as [-> H]. now rewrite IH.
Qed.

Lemma nth_error_deferred coders : forall outs i c out,
  nth_error coders i = Some c -> nth_error outs i = Some out ->
  nth_error (deferred coders outs) i = Some (defer c out).
Proof.
  induction coders as [|c0 cs IH]; intros outs i c out Hc Ho.
  - destruct i; discriminate.
  - destruct outs as [|o outs]; [destruct i; discriminate|].
    destruct i as [|i]; cbn in *.
    + injection Hc as <-. injection Ho as <-. reflexivity.
    + now apply IH.
Qed.

Lemma read_index_nth items : forall i,
  read_index true items i
  = match nth i items VUndefined with
    | VError e => Throw e
    | v => Ok v
    end.
Proof.
  unfold read_index.
  induction items as [|v items IH]; intros [|i]; cbn; try reflexivity.
  - destruct v; reflexivity.
  - apply IH.
Qed.

(** The offset word of a dynamic field is read outside the [try]: with the
    one field [string] and 32 bytes 0xff the offset does not fit a number,
    the failure is a numeric fault, not a buffer overrun, and yet it is not
    deferred: the whole decode throws it. *)
Lemma unpack_offset_not_deferred :
  fst (unpack [StringCoder None] (Reader.new (repeat xff 32) 32 None false))
  = throwFault "overflow" "toNumber" (Some (VString (js (BN.toString 10 (2 ^ 256 - 1)))))
  /\ AbiCoder.decode defaultAbiCoder [TString "string"] (VBytes (repeat xff 32)) false
     = throwFault "overflow" "toNumber" (Some (VString (js (BN.toString 10 (2 ^ 256 - 1)))))
  /\ ~ fails_with BUFFER_OVERRUN
         (AbiCoder.decode defaultAbiCoder [TString "string"] (VBytes (repeat xff 32)) false)
  /\ ~ returns
         (AbiCoder.decode defaultAbiCoder [TString "string"] (VBytes (repeat xff 32)) false).
Proof.
  assert (H : AbiCoder.decode defaultAbiCoder [TString "string"] (VBytes (repeat xff 32)) false
     = throwFault "overflow" "toNumber" (Some (VString (js (BN.toString 10 (2 ^ 256 - 1))))))
    by (vm_compute; reflexivity).
  split; [vm_compute; reflexivity|]. split; [exact H|]. split.
  - intros (e & He & Hc). rewrite H in He. injection He as <-. discriminate Hc.
  - intros (a & Ha). rewrite H in Ha. discriminate.
Qed.

(** Let the fields of [unpack] be read one by one
    ([decode_fields]: for a dynamic coder the offset word is read and the
    coder decodes at that offset, a static coder decodes in place).

    When every offset word is read and no [coder.decode] throws a buffer
    overrun, and no local name is an array index or [length], [unpack]
    returns a result that holds, in order, the decoded values that are not
    null and, for each failed field, its error with the coder's
    [baseType], [name] and [type]; when no value is null, reading index i
    throws the error of field i if its decode failed and returns its value
    otherwise; reading a name that is not empty, is unique among the
    coders and is not a property every array has gives what reading the
    index of its field gives.

    When the first buffer overrun thrown by a [coder.decode] is that of
    field i, [unpack] throws it.  When an offset word cannot be read as a
    number, [unpack] throws too: that failure or an earlier buffer
    overrun. *)
Theorem unpack_deferral (coders : list Coder.t) (r : Reader.t)
    (res : Res (list (Res value))) (r' : Reader.t) :
  decode_fields (Reader.subReader r 0) coders r = (res, r') ->
  match res with
  | Ok outs =>
      (forallb plain_name coders = true ->
       forallb (fun out => negb (overrun out)) outs = true ->
       exists named,
         let result := VResult (filter keep (deferred coders outs)) named in
         unpack coders r = (Ok result, r')
         /\ (forallb keep (deferred coders outs) = true ->
             forall i c, nth_error coders i = Some c ->
               (forall e, nth_error outs i = Some (Throw e) ->
                  Result_index result i = Throw (annotate e c))
               /\ (forall v, nth_error outs i = Some (Ok v) -> (forall e, v <> VError e) ->
                     Result_index result i = Ok v))
         /\ (forall i c n, nth_error coders i = Some c -> Coder.localName c = Some n ->
               n <> "" -> count_name coders n = 1%nat ->
               existsb (String.eqb n) Array_prototype = false ->
               Result_name result n = Result_index result i))
      /\ (forall i e, nth_error outs i = Some (Throw e) -> is_overrun e = true ->
            (forall j out, (j < i)%nat -> nth_error outs j = Some out -> overrun out = false) ->
            fst (unpack coders r) = Throw e)
  | Throw e =>
      exists e', fst (unpack coders r) = Throw e' /\ (e' = e \/ is_overrun e' = true)
  end.
Proof.
  intros H. destruct res as [outs|e].
  - split.
    + intros Hplain Hno.
      destruct (unpack_names_plain coders coders [] (filter keep (deferred coders outs)) []
                  eq_refl Hplain) as (named & E & _ & Hnames).
      { intros k v Hk. discriminate. }
      exists named. cbv zeta. split; [|split].
      * unfold unpack. rewrite (unpack_loop_deferred _ _ [] _ _ _ H Hno).
        cbn [app]. cbn [List.length] in E. rewrite E. cbn [bind].
        rewrite unpack_getters_nil. reflexivity.
      * intros Hkeep i c Hc. cbn [Result_index]. unfold read_index.
        rewrite (filter_keep_all _ Hkeep). split.
        -- intros e He. rewrite (nth_error_deferred _ _ _ _ _ Hc He). reflexivity.
        -- intros v Hv Hne. rewrite (nth_error_deferred _ _ _ _ _ Hc Hv). cbn [defer].
           destruct v; try reflexivity. destruct (Hne e eq_refl).
      * intros i c n Hc Hn Hne Hcount Hproto. cbn [Result_index Result_name].
        rewrite (Hnames i c n Hc Hn Hne Hcount Hproto), read_index_nth.
        cbn [List.length Nat.add].
        destruct (nth i (filter keep (deferred coders outs)) VUndefined); reflexivity.
    + intros i e Hi He Hj. unfold unpack.
      pose proof (unpack_loop_first_overrun coders _ [] r outs r' i e H Hi He Hj) as E.
      destruct (unpack_loop coders (Reader.subReader r 0) [] r) as [[vs|e0] r0];
        cbn [fst] in E; [discriminate|]. injection E as ->. reflexivity.
  - destruct (unpack_loop_offset_failure coders _ [] r e r' H) as (e' & E & He').
    exists e'. split; [|exact He']. unfold unpack.
    destruct (unpack_loop coders (Reader.subReader r 0) [] r) as [[vs|e0] r0];
      cbn [fst] in E; [discriminate|]. injection E as ->. reflexivity.
Qed.

Lemma unpack_deferral_witness :
  exists result e,
    fst (unpack two_fields (Reader.new bad_string_data 32 None false)) = Ok result
    /\ Result_index result 0 = Ok (VBigNumber (mkBigNumber "0x05"))
    /\ Result_index result 1 = Throw e
    /\ Result_name result "s" = Throw e
    /\ err_code e = Some INVALID_ARGUMENT.
Proof.
  pose (r := Reader.new bad_string_data 32 None false).
  destruct (decode_fields (Reader.subReader r 0) two_fields r) as [res r'] eqn:E.
  pose proof (unpack_deferral two_fields r res r' E) as H.
  vm_compute in E. injection E as <- <-. cbv iota in H.
  destruct H as [H _].
  destruct (H ltac:(vm_compute; reflexivity) ltac:(vm_compute; reflexivity))
    as (named & Hu & Hidx & Hname).
  cbv zeta in Hu, Hidx, Hname.
  specialize (Hidx ltac:(vm_compute; reflexivity)).
  destruct (Hidx 0%nat _ eq_refl) as [_ H0].
  destruct (Hidx 1%nat _ eq_refl) as [H1 _].
  eexists. eexists. split; [fold r; rewrite Hu; reflexivity|].
  split; [apply H0; [reflexivity|discriminate]|].
  split; [apply H1; reflexivity|].
  split.
  - rewrite (Hname 1%nat _ "s" eq_refl eq_refl); [apply H1; reflexivity|discriminate| |];
      vm_compute; reflexivity.
  - reflexivity.
Defined.

(** ** Addresses *)

Lemma arrayify_keccak data :
  arrayify (VString (js (keccak256 data))) = Ok (Keccak.digest data).
Proof.
  unfold arrayify, isHexString, keccak256, Keccak.keccak_256. rewrite latin1_js.
  cbn [String.append isHexString_text]. change (Ascii.eqb "0" "0") with true.
  change (Ascii.eqb "x" "x") with true. cbn [andb]. rewrite hexlify_bytes_hex.
  cbn [negb]. unfold arrayify_text. cbn [substring_from string_drop].
  rewrite slen_hexlify_bytes, Z.odd_mul. cbn [Z.odd andb].
  now rewrite arrayify_hex_hexlify.
Qed.

Lemma lower_of_hex c : is_hex c = true -> is_lowhex (toLowerCase_char c) = true.
Proof.
  destruct c as [[] [] [] [] [] [] [] []]; intros H; try discriminate H; reflexivity.
Qed.

Lemma upper_of_lowhex c : is_lowhex c = true ->
  is_hex (toUpperCase_char c) = true
  /\ toLowerCase_char (toUpperCase_char c) = c /\ toLowerCase_char c = c.
Proof.
  destruct c as [[] [] [] [] [] [] [] []]; intros H; try discriminate H;
    repeat split; reflexivity.
Qed.

Lemma letters_0x c : is_hex c = true -> is_upper_hex c = true \/ is_lower_hex c = true \/ is_digit c = true.
Proof.
  unfold is_hex. intros H. apply orb_true_iff in H. destruct H as [H|H]; [|now left].
  apply orb_true_iff in H. destruct H as [H|H]; [right; now right|right; now left].
Qed.

Lemma toLowerCase_hex d :
  string_forallb is_hex d = true -> string_forallb is_lowhex (toLowerCase d) = true.
Proof.
  unfold toLowerCase. induction d as [|c d IH]; [reflexivity|].
  cbn [string_forallb string_map]. intros H. apply andb_true_iff in H. destruct H as [Hc Hd].
  now rewrite (lower_of_hex c Hc), IH.
Qed.

Lemma length_toLowerCase d : String.length (toLowerCase d) = String.length d.
Proof. unfold toLowerCase. induction d as [|c d IH]; cbn; [reflexivity|now rewrite IH]. Qed.

Lemma checksum_chars_spec hashed : forall chars,
  string_forallb is_lowhex chars = true ->
  String.length (checksum_chars chars hashed) = String.length chars
  /\ string_forallb is_hex (checksum_chars chars hashed) = true
  /\ toLowerCase (checksum_chars chars hashed) = chars.
Proof.
  induction hashed as [|h hs IH]; intros chars Hc.
  - assert (E : checksum_chars chars [] = chars) by (destruct chars as [|c1 [|c2 r]]; reflexivity).
    rewrite E. split; [reflexivity|]. split.
    + eapply forallb_impl; [apply is_lowhex_is_hex|exact Hc].
    + now apply toLowerCase_lowhex.
  - destruct chars as [|c1 [|c2 r]].
    + repeat split; reflexivity.
    + cbn [checksum_chars]. split; [reflexivity|]. split.
      * eapply forallb_impl; [apply is_lowhex_is_hex|exact Hc].
      * now apply toLowerCase_lowhex.
    + cbn [string_forallb] in Hc. apply andb_true_iff in Hc. destruct Hc as [H1 Hc].
      apply andb_true_iff in Hc. destruct Hc as [H2 Hr].
      destruct (IH r Hr) as (Il & Ih & It).
      destruct (upper_of_lowhex c1 H1) as (U1 & L1 & K1).
      destruct (upper_of_lowhex c2 H2) as (U2 & L2 & K2).
      cbn [checksum_chars]. split; [|split].
      * cbn [String.length]. now rewrite Il.
      * cbn [string_forallb]. rewrite Ih, andb_true_r. apply andb_true_iff. split.
        -- destruct (_ >=? 8); [exact U1|now apply is_lowhex_is_hex].
        -- destruct (_ >=? 8); [exact U2|now apply is_lowhex_is_hex].
      * unfold toLowerCase in *. cbn [string_map]. rewrite It. f_equal; [|f_equal].
        -- destruct (_ >=? 8); [exact L1|exact K1].
        -- destruct (_ >=? 8); [exact L2|exact K2].
Qed.

(** The checksum of a prefixed address of 40 hex digits. *)
Lemma getChecksumAddress_hex d :
  String.length d = 40%nat -> string_forallb is_hex d = true ->
  getChecksumAddress (String "0" (String "x" d))
  = Ok ("0x" +++ checksum_chars (toLowerCase d)
                   (Keccak.digest (bytes_of_text (toLowerCase d)))).
Proof.
  intros Hl Hh. unfold getChecksumAddress, isHexString. rewrite latin1_js.
  cbn [isHexString_text]. change (Ascii.eqb "0" "0") with true.
  change (Ascii.eqb "x" "x") with true. cbn [andb]. rewrite Hh. cbn [negb].
  rewrite !slen_String. unfold slen. rewrite Hl. cbn [negb andb Z.eqb].
  change (negb (20 =? 0) && negb (1 + (1 + Z.of_nat 40) =? 2 + 2 * 20)) with false.
  cbv iota. cbn [negb]. cbv iota.
  unfold toLowerCase at 1 2. cbn [string_map]. change (toLowerCase_char "0") with "0"%char.
  change (toLowerCase_char "x") with "x"%char.
  cbn [substring_from string_drop]. fold (toLowerCase d).
  rewrite arrayify_keccak. reflexivity.
Qed.

Lemma getChecksumAddress_inv a r :
  getChecksumAddress a = Ok r ->
  exists d, a = String "0" (String "x" d) /\ String.length d = 40%nat
            /\ string_forallb is_hex d = true.
Proof.
  unfold getChecksumAddress, isHexString. rewrite latin1_js.
  destruct (isHexString_text a) eqn:Et; cbn [negb]; [|discriminate].
  destruct a as [|a0 [|x0 d]]; try discriminate Et. cbn [isHexString_text] in Et.
  apply andb_true_iff in Et. destruct Et as [Et Hh]. apply andb_true_iff in Et.
  destruct Et as [E0 Ex]. apply Ascii.eqb_eq in E0, Ex. subst a0 x0.
  change (negb (20 =? 0)) with true. cbn [andb].
  destruct (slen (String "0" (String "x" d)) =? 2 + 2 * 20) eqn:El; cbn [negb]; [|discriminate].
  intros _. exists d. split; [reflexivity|]. split; [|exact Hh].
  apply Z.eqb_eq in El. rewrite !slen_String in El. unfold slen in El. lia.
Qed.

(** A checksum address is accepted and returned as it is. *)
Lemma getAddress_text_checksum d :
  String.length d = 40%nat -> string_forallb is_hex d = true ->
  let r := "0x" +++ checksum_chars (toLowerCase d)
                      (Keccak.digest (bytes_of_text (toLowerCase d))) in
  getAddress_text r = Ok r.
Proof.
  intros Hl Hh r.
  destruct (checksum_chars_spec (Keccak.digest (bytes_of_text (toLowerCase d)))
              (toLowerCase d) (toLowerCase_hex d Hh)) as (Cl & Ch & Ct).
  set (cc := checksum_chars (toLowerCase d) (Keccak.digest (bytes_of_text (toLowerCase d)))) in *.
  rewrite length_toLowerCase, Hl in Cl.
  assert (Er : r = String "0" (String "x" cc)) by reflexivity.
  assert (Ea : is_address_text r = true).
  { change (is_address_text r)
      with ((String.length cc =? 40)%nat && string_forallb is_hex cc).
    now rewrite Cl, Ch. }
  assert (Ep : (if negb (String.eqb (substring 0 2 r) "0x") then "0x" +++ r else r) = r)
    by reflexivity.
  unfold getAddress_text. rewrite Ea, Ep. rewrite Er at 1.
  rewrite (getChecksumAddress_hex cc Cl Ch). rewrite Ct.
  cbn [bind]. fold cc. fold r. rewrite String.eqb_refl. cbn [negb]. rewrite andb_false_r.
  reflexivity.
Qed.

Lemma getAddress_checksum_source a r :
  getAddress a = Ok r -> exists a', getChecksumAddress a' = Ok r.
Proof.
  unfold getAddress. destruct a; try discriminate.
  destruct (latin1 s) as [t|]; [|discriminate].
  unfold getAddress_text. destruct (is_address_text t).
  - set (a' := if negb (String.eqb (substring 0 2 t) "0x") then "0x" +++ t else t).
    destruct (getChecksumAddress a') as [c|e] eqn:E; cbn [bind]; [|discriminate].
    destruct (has_mixed_case a' && negb (String.eqb c a')); [discriminate|].
    intros [= <-]. now exists a'.
  - destruct (is_icap_text t); [|discriminate].
    destruct (negb _); [discriminate|]. intros H. eexists. exact H.
Qed.

Lemma address_digits s :
  (exists d, s = String "0" (String "x" d)
             /\ is_address_text s = ((String.length d =? 40)%nat && string_forallb is_hex d)
             /\ with_prefix s = s)
  \/ (is_address_text s = ((String.length s =? 40)%nat && string_forallb is_hex s)
      /\ with_prefix s = String "0" (String "x" s)).
Proof.
  destruct s as [|a s']; [right; split; reflexivity|].
  destruct a as [[] [] [] [] [] [] [] []]; try (right; split; reflexivity).
  destruct s' as [|b r]; [right; split; reflexivity|].
  destruct b as [[] [] [] [] [] [] [] []]; try (right; split; reflexivity).
  left. exists r. repeat split; reflexivity.
Qed.

Lemma with_prefix_shape s :
  is_address_text s = true ->
  exists d, with_prefix s = String "0" (String "x" d) /\ String.length d = 40%nat
            /\ string_forallb is_hex d = true
            /\ has_mixed_case (with_prefix s) = has_mixed_case s.
Proof.
  intros H. destruct (address_digits s) as [(d & -> & E & Ep)|[E Ep]];
    rewrite E in H; apply andb_true_iff in H; destruct H as [Hl Hh];
    apply Nat.eqb_eq in Hl; rewrite Ep.
  - exists d. repeat split; assumption.
  - exists s. repeat split; assumption.
Qed.

(** [getAddress] is idempotent: an address it returns is accepted and
    returned unchanged.  And for a string of 40 hex digits (with or
    without the prefix [0x]) that holds a capital and a small hex letter,
    the checksum form exists, and when it differs from the (prefixed)
    string [getAddress] throws the invalid-argument error "bad address
    checksum". *)
Theorem getAddress_idempotent_checksum (a : value) (r s : string) :
  (getAddress a = Ok r -> getAddress (VString (js r)) = Ok r)
  /\ (is_address_text s = true -> has_mixed_case s = true ->
      exists c, getChecksumAddress (with_prefix s) = Ok c
        /\ (c <> with_prefix s ->
            getAddress (VString (js s))
            = throwArgumentError "bad address checksum" (VString (js "address"))
                (VString (js (with_prefix s)))
            /\ fails_with INVALID_ARGUMENT (getAddress (VString (js s))))).
Proof.
  split.
  - intros H. destruct (getAddress_checksum_source a r H) as (a' & Ha).
    destruct (getChecksumAddress_inv a' r Ha) as (d & -> & Hl & Hh).
    rewrite (getChecksumAddress_hex d Hl Hh) in Ha. injection Ha as <-.
    unfold getAddress. rewrite latin1_js. apply (getAddress_text_checksum d Hl Hh).
  - intros Ha Hm. destruct (with_prefix_shape s Ha) as (d & Ep & Hl & Hh & Emix).
    eexists. split; [rewrite Ep; apply (getChecksumAddress_hex d Hl Hh)|].
    intros Hne.
    assert (E : getAddress (VString (js s))
                = throwArgumentError "bad address checksum" (VString (js "address"))
                    (VString (js (with_prefix s)))).
    { unfold getAddress. rewrite latin1_js. unfold getAddress_text. rewrite Ha.
      fold (with_prefix s). rewrite Emix, Hm. rewrite Ep at 1.
      rewrite (getChecksumAddress_hex d Hl Hh). cbn [bind andb].
      apply String.eqb_neq in Hne. rewrite Hne. reflexivity. }
    split; [exact E|]. rewrite E. eexists. split; reflexivity.
Qed.

Lemma getAddress_idempotent_checksum_witness :
  getAddress (VString (js "0x5aAeb6053F3E94C9b9A09f33669435E7Ef1BeAed"))
  = Ok "0x5aAeb6053F3E94C9b9A09f33669435E7Ef1BeAed"
  /\ getAddress (VString (js "0x5aaeb6053F3E94C9b9A09f33669435E7Ef1BeAed"))
     = throwArgumentError "bad address checksum" (VString (js "address"))
         (VString (js "0x5aaeb6053F3E94C9b9A09f33669435E7Ef1BeAed")).
Proof.
  destruct (getAddress_idempotent_checksum
              (VString (js "0x5aaeb6053f3e94c9b9a09f33669435e7ef1beaed"))
              "0x5aAeb6053F3E94C9b9A09f33669435E7Ef1BeAed"
              "0x5aaeb6053F3E94C9b9A09f33669435E7Ef1BeAed") as [H1 H2].
  split.
  - apply H1. vm_compute. reflexivity.
  - destruct (H2 eq_refl eq_refl) as (c & Hc & H).
    vm_compute in Hc. injection Hc as <-.
    apply H. discriminate.
Defined.

(** ** Indexed markers of [decodeEventLog] *)

Lemma set_index_same items : forall i v, nth_error (set_index items i v) i = Some v.
Proof.
  induction items as [|a items IH]; intros i v.
  - induction i as [|i IHi]; [reflexivity|exact IHi].
  - destruct i as [|i]; [reflexivity|apply IH].
Qed.

Lemma set_index_other items : forall i k v x,
  i <> k -> nth_error items i = Some x -> nth_error (set_index items k v) i = Some x.
Proof.
  induction items as [|a items IH]; intros i k v x Hne Hx.
  - destruct i; discriminate.
  - destruct i as [|i], k as [|k]; cbn in *; try congruence.
    apply IH; [congruence|exact Hx].
Qed.

Lemma read_slot_marker items getters i h :
  nth_error items i = Some (VIndexed h) -> read_slot items getters i = Ok (VIndexed h).
Proof. unfold read_slot. now intros ->. Qed.

Lemma split_inputs_dynamic inputs : forall j p,
  nth_error inputs j = Some p ->
  Interface.is_indexed p = true -> Interface.is_hashed p = true ->
  nth j (snd (Interface.split_inputs inputs)) false = true.
Proof.
  induction inputs as [|q inputs IH]; intros j p Hj Hi Hh.
  - destruct j; discriminate.
  - cbn [Interface.split_inputs].
    destruct (Interface.split_inputs inputs) as [[indexed nonIndexed] dynamic] eqn:E.
    cbn [snd] in IH. destruct j as [|j].
    + injection Hj as ->. rewrite Hi, Hh. reflexivity.
    + cbn [nth_error] in Hj. specialize (IH j p Hj Hi Hh).
      destruct (Interface.is_indexed q); [destruct (Interface.is_hashed q)|]; exact IH.
Qed.

Lemma wrap_items_keeps items : forall getters i0 items' i h,
  Interface.wrap_items items getters i0 = Ok items' ->
  nth_error items i = Some (VIndexed h) -> nth_error items' i = Some (VIndexed h).
Proof.
  induction items as [|v items IH]; intros getters i0 items' i h H Hi.
  - destruct i; discriminate.
  - assert (Hv : (exists e, v = VError e) \/
                 Interface.wrap_items (v :: items) getters i0
                 = (rest <- Interface.wrap_items items getters (S i0) ;; Ok (v :: rest))).
    { destruct v; try (right; reflexivity). left. eexists. reflexivity. }
    destruct Hv as [[e ->]|Hv].
    + cbn [Interface.wrap_items] in H.
      destruct (existsb (Nat.eqb i0) getters); [discriminate|].
      destruct (Interface.wrap_items items getters (S i0)) as [rest|e0] eqn:E; [|discriminate].
      injection H as <-. destruct i as [|i]; [discriminate|].
      cbn [nth_error] in *. apply (IH _ _ _ _ _ E Hi).
    + rewrite Hv in H.
      destruct (Interface.wrap_items items getters (S i0)) as [rest|e0] eqn:E; [|discriminate].
      injection H as <-. destruct i as [|i]; [exact Hi|].
      cbn [nth_error] in *. apply (IH _ _ _ _ _ E Hi).
Qed.

Tactic Notation "bind_inv" hyp(H) "as" simple_intropattern(pat) ident(E) :=
  match type of H with
  | bind ?m _ = Ok _ => destruct m as [pat|] eqn:E; cbn [bind] in H; [|discriminate H]
  end.

Lemma fill_result_markers inputs :
  forall dynamic ri rni index ni ii items getters named items' getters' named',
  Interface.fill_result inputs dynamic ri rni index ni ii items getters named
  = Ok (items', getters', named') ->
  (forall j p, nth_error inputs j = Some p ->
     Interface.is_indexed p = true -> Interface.is_hashed p = true ->
     nth (index + j) dynamic false = true) ->
  (forall k v, assoc k named = Some v -> index_of_name k = None) ->
  (forall i h, nth_error items i = Some (VIndexed h) -> (i < index)%nat ->
     nth_error items' i = Some (VIndexed h))
  /\ (forall j p, nth_error inputs j = Some p ->
        Interface.is_indexed p = true -> Interface.is_hashed p = true ->
        exists h, nth_error items' (index + j) = Some (VIndexed h)
                  /\ (ri = None -> h = VNull)).
Proof.
  induction inputs as [|param r IH];
    intros dynamic ri rni index ni ii items getters named items' getters' named' H Hdyn Hkeys.
  - injection H as <- <- <-. split; [auto|]. intros [|j] p Hp; discriminate.
  - cbn [Interface.fill_result] in H. bind_inv H as [[v ni'] ii'] E.
    cbv beta iota zeta in H.
    destruct (existsb (Nat.eqb index) getters); [discriminate|].
    bind_inv H as [[items2 getters2] named2] E0. cbv beta iota zeta in H.
    set (items1 := set_index items index v) in *.
    assert (F : (forall i h, nth_error items1 i = Some (VIndexed h) ->
                   nth_error items2 i = Some (VIndexed h))
                /\ (forall k v0, assoc k named2 = Some v0 -> index_of_name k = None)).
    { destruct (ParamType.name param) as [name|]; [|injection E0 as <- <- <-; auto].
      destruct (String.eqb name ""); [injection E0 as <- <- <-; auto|].
      bind_inv E0 as b E1. destruct b; [injection E0 as <- <- <-; auto|].
      destruct (index_of_name name) as [i0|] eqn:Ei; injection E0 as <- <- <-.
      - split; [|exact Hkeys]. intros i h Hi. apply set_index_other; [|exact Hi].
        intros ->. unfold has_property in E1.
        destruct (assoc name named) as [x|] eqn:Ea.
        + rewrite (Hkeys name x Ea) in Ei. discriminate.
        + rewrite Ei, (read_slot_marker _ _ _ _ Hi) in E1. discriminate.
      - split; [auto|]. intros k v0 Hk. destruct (String.eqb_spec k name) as [->|Hne].
        + exact Ei.
        + rewrite assoc_set_other in Hk by exact Hne. apply (Hkeys k v0 Hk). }
    destruct F as [F1 F2].
    assert (Hdyn' : forall j p, nth_error r j = Some p ->
              Interface.is_indexed p = true -> Interface.is_hashed p = true ->
              nth (S index + j) dynamic false = true).
    { intros j p Hp Hi Hh. replace (S index + j)%nat with (index + S j)%nat by lia.
      apply (Hdyn (S j) p Hp Hi Hh). }
    destruct (IH _ _ _ _ _ _ _ _ _ _ _ _ H Hdyn' F2) as [IH1 IH2].
    split.
    + intros i h Hi Hlt. apply IH1; [|lia]. apply F1. apply set_index_other; [lia|exact Hi].
    + intros [|j] p Hp Hi Hh.
      * injection Hp as ->. rewrite Hi in E.
        assert (Hv : exists h, v = VIndexed h /\ (ri = None -> h = VNull)).
        { destruct ri as [ri|].
          - specialize (Hdyn 0%nat p eq_refl Hi Hh). rewrite Nat.add_0_r in Hdyn.
            rewrite Hdyn in E. bind_inv E as h0 E2. injection E as <- _ _.
            eexists. split; [reflexivity|discriminate].
          - injection E as <- _ _. eexists. split; reflexivity. }
        destruct Hv as (h & -> & Hnull). exists h. split; [|exact Hnull].
        rewrite Nat.add_0_r. apply IH1; [|lia]. apply F1. apply set_index_same.
      * destruct (IH2 j p Hp Hi Hh) as (h & Hn & Hnull). exists h.
        replace (index + S j)%nat with (S index + j)%nat by lia. split; assumption.
Qed.

(** The digest has 32 bytes. *)
Lemma build_length f : List.length (Keccak.build f) = 25%nat.
Proof. unfold Keccak.build. now rewrite length_map, length_seq. Qed.

Lemma round_length A rc : List.length (Keccak.round A rc) = 25%nat.
Proof.
  unfold Keccak.round, Keccak.iota.
  pose proof (build_length (fun x y =>
    Z.lxor (Keccak.lane (Keccak.rho_pi (Keccak.theta A)) x y)
      (Z.land (Z.lxor (Keccak.lane (Keccak.rho_pi (Keccak.theta A)) (x + 1) y) Keccak.mask64)
              (Keccak.lane (Keccak.rho_pi (Keccak.theta A)) (x + 2) y)))) as H.
  fold (Keccak.chi (Keccak.rho_pi (Keccak.theta A))) in H.
  destruct (Keccak.chi (Keccak.rho_pi (Keccak.theta A))); [discriminate|exact H].
Qed.

Lemma f1600_length A : List.length (Keccak.f1600 A) = 25%nat.
Proof.
  unfold Keccak.f1600.
  change Keccak.RC with (removelast Keccak.RC ++ [0x8000000080008008]).
  rewrite fold_left_app. cbn [fold_left]. apply round_length.
Qed.

Lemma absorb_length blocks : forall A msg,
  List.length A = 25%nat -> List.length (Keccak.absorb blocks A msg) = 25%nat.
Proof.
  induction blocks as [|n IH]; intros A msg HA; [exact HA|].
  cbn [Keccak.absorb]. apply IH, f1600_length.
Qed.

Lemma bytes_of_lane_length n : forall z, List.length (Keccak.bytes_of_lane n z) = n.
Proof. induction n as [|n IH]; intros z; cbn; [reflexivity|now rewrite IH]. Qed.

Lemma digest_length msg : len (Keccak.digest msg) = 32.
Proof.
  unfold Keccak.digest, len.
  pose proof (absorb_length (List.length (Keccak.pad msg) / Keccak.rate) (repeat 0 25)
                (Keccak.pad msg) (repeat_length _ _)) as H.
  destruct (Keccak.absorb _ _ _) as [|a0 [|a1 [|a2 [|a3 A]]]]; try discriminate H.
  cbn [firstn flat_map]. rewrite !length_app, !bytes_of_lane_length. reflexivity.
Qed.

Lemma keccak256_topic data :
  isHexString (VString (js (keccak256 data))) (Some 32) = true
  /\ toLowerCase (keccak256 data) = keccak256 data.
Proof.
  unfold keccak256, Keccak.keccak_256. split.
  - unfold isHexString. rewrite latin1_js. cbn [String.append isHexString_text].
    change (Ascii.eqb "0" "0") with true. change (Ascii.eqb "x" "x") with true.
    cbn [andb]. rewrite hexlify_bytes_hex. cbn [negb].
    rewrite !slen_String, slen_hexlify_bytes, digest_length. reflexivity.
  - cbn [String.append]. unfold toLowerCase. cbn [string_map].
    fold (toLowerCase (hexlify_bytes (Keccak.digest data))).
    rewrite toLowerCase_lowhex by apply hexlify_bytes_lowhex. reflexivity.
Qed.

Lemma getEventTopic_keccak ev topic0 :
  Interface.getEventTopic ev = Ok topic0 -> exists data, topic0 = keccak256 data.
Proof.
  unfold Interface.getEventTopic, id.
  destruct (toUtf8Bytes _) as [bytes|e]; [|discriminate].
  intros [= <-]. now exists bytes.
Qed.

Lemma arrayify_hexlify_text bs :
  arrayify (VString (js ("0x" +++ hexlify_bytes bs))) = Ok bs.
Proof.
  unfold arrayify, isHexString. rewrite latin1_js.
  cbn [String.append isHexString_text]. change (Ascii.eqb "0" "0") with true.
  change (Ascii.eqb "x" "x") with true. cbn [andb]. rewrite hexlify_bytes_hex.
  cbn [negb]. unfold arrayify_text. cbn [substring_from string_drop].
  rewrite slen_hexlify_bytes, Z.odd_mul. cbn [Z.odd andb].
  now rewrite arrayify_hex_hexlify.
Qed.

(** In every result that [decodeEventLog] returns, the element at the
    position of an indexed input of type [string] or [bytes], or of base
    type tuple or array, is an [Indexed] marker: reading that index never
    throws and never gives a decoded value; the marker's hash is [null]
    when no topics were passed. *)
Theorem decodeEventLog_indexed_marker (this : Interface.t) (ev : EventFragment.t)
    (data : value) (topics : option (list value)) (r : value) :
  Interface.decodeEventLog this ev data topics = Ok r ->
  forall i p, nth_error (EventFragment.inputs ev) i = Some p ->
    Interface.is_indexed p = true -> Interface.is_hashed p = true ->
    exists h, Result_index r i = Ok (VIndexed h) /\ (topics = None -> h = VNull).
Proof.
  intros H i p Hp Hi Hh. unfold Interface.decodeEventLog in H.
  bind_inv H as topics' E1.
  destruct (Interface.split_inputs (EventFragment.inputs ev))
    as [[indexed nonIndexed] dynamic] eqn:Es.
  bind_inv H as ri E2. bind_inv H as rni E3.
  bind_inv H as [[items getters] named] E4. cbv beta iota zeta in H.
  bind_inv H as items' E5. injection H as <-.
  assert (Hdyn : forall j q, nth_error (EventFragment.inputs ev) j = Some q ->
            Interface.is_indexed q = true -> Interface.is_hashed q = true ->
            nth (0 + j) dynamic false = true).
  { intros j q Hq Hqi Hqh.
    pose proof (split_inputs_dynamic _ j q Hq Hqi Hqh) as Hd. rewrite Es in Hd. exact Hd. }
  destruct (fill_result_markers _ _ _ _ _ _ _ _ _ _ _ _ _ E4 Hdyn) as [_ Hm].
  { intros k v Hk. discriminate. }
  destruct (Hm i p Hp Hi Hh) as (h & Hn & Hnull). exists h. split.
  - cbn [Result_index]. unfold read_index.
    cbn [Nat.add] in Hn. now rewrite (wrap_items_keeps _ _ _ _ _ _ E5 Hn).
  - intros ->. apply Hnull. injection E1 as <-. injection E2 as <-. reflexivity.
Qed.

Lemma decodeEventLog_indexed_marker_witness :
  exists r h,
    Interface.decodeEventLog (Interface.new []) indexed_string_event (VBytes [])
      (Some [VString (js "0x3e9992c940c54ea252d3a34557cc3d3014281525c43d694f89d5f3dfd820b07d");
             VString (js "0x1c8aff950685c2ed4bc3174f3472287b56d9517b9c948127319a09a7a36deac8")])
    = Ok r
    /\ Result_index r 0 = Ok (VIndexed h).
Proof.
  destruct (Interface.decodeEventLog (Interface.new []) indexed_string_event (VBytes [])
      (Some [VString (js "0x3e9992c940c54ea252d3a34557cc3d3014281525c43d694f89d5f3dfd820b07d");
             VString (js "0x1c8aff950685c2ed4bc3174f3472287b56d9517b9c948127319a09a7a36deac8")]))
    as [r|e] eqn:E; [|vm_compute in E; discriminate E].
  destruct (decodeEventLog_indexed_marker _ _ _ _ r E 0%nat _ eq_refl eq_refl eq_refl)
    as (h & Hh & _).
  exists r, h. split; [reflexivity|exact Hh].
Defined.

(** ** BigNumber: construction and arithmetic *)

Lemma sub_ok this a other b :
  toBN (VBigNumber this) = Ok a -> toBN other = Ok b ->
  BigNumber.sub this other = Ok (BN_of (a - b)).
Proof. intros Ha Hb. unfold BigNumber.sub. rewrite Ha, Hb. apply toBigNumber_ok. Qed.

Lemma eq_ok this a other b :
  toBN (VBigNumber this) = Ok a -> toBN other = Ok b ->
  BigNumber.eq this other = Ok (a =? b).
Proof. intros Ha Hb. unfold BigNumber.eq. now rewrite Ha, Hb. Qed.

Lemma from_decimal z :
  BigNumber.from (VString (js (BN.toString 10 z))) = Ok (BN_of z).
Proof.
  unfold BigNumber.from, BigNumber_from. rewrite latin1_js.
  apply (String_of_number_from z).
Qed.

(** Every integer has one [BigNumber]: [BigNumber.from] of its decimal
    text, whatever its size, and [toBigNumber] both give it; its [_hex] is
    the canonical text; [toBN] reads the integer back, [toString] its
    decimal text, and [isNegative] its sign. *)
Theorem BigNumber_integer_roundtrip (z : Z) :
  BigNumber.from (VString (js (BN.toString 10 z))) = Ok (BN_of z)
  /\ toBigNumber z = Ok (BN_of z)
  /\ BigNumber.toHexString (BN_of z) = canon z
  /\ toBN (VBigNumber (BN_of z)) = Ok z
  /\ BigNumber.toString (BN_of z) = Ok (BN.toString 10 z)
  /\ BigNumber.isNegative (BN_of z) = (z <? 0).
Proof.
  split; [apply from_decimal|]. split; [apply toBigNumber_ok|].
  split; [reflexivity|]. split; [apply toBN_BN_of|]. split.
  - unfold BigNumber.toString. now rewrite toBN_BN_of.
  - apply isNegative_BN_of.
Qed.

(** A JavaScript number is accepted by [BigNumber.from] exactly when its
    magnitude is below [MAX_SAFE] = 2^53 - 1, and then [toNumber] gives it
    back; at or beyond it [BigNumber.from] throws the numeric fault
    "overflow". *)
Theorem BigNumber_from_number (n : Z) :
  (- MAX_SAFE < n < MAX_SAFE ->
   BigNumber.from (VNumber n) = Ok (BN_of n)
   /\ BigNumber.toNumber (BN_of n) = Ok n)
  /\ (MAX_SAFE <= Z.abs n ->
      BigNumber.from (VNumber n) = throwFault "overflow" "BigNumber.from" (Some (VNumber n))
      /\ fails_with NUMERIC_FAULT (BigNumber.from (VNumber n))).
Proof.
  split.
  - intros Hn. split; [now apply from_VNumber|].
    apply (toNumber_ok _ n (toBN_BN_of n)). unfold MAX_SAFE in Hn. lia.
  - intros Hn.
    assert (E : BigNumber.from (VNumber n)
                = throwFault "overflow" "BigNumber.from" (Some (VNumber n))).
    { unfold BigNumber.from, BigNumber_from.
      destruct (Z.geb_spec n MAX_SAFE) as [H1|H1]; cbn [orb]; [reflexivity|].
      destruct (Z.leb_spec n (- MAX_SAFE)) as [H2|H2]; [reflexivity|lia]. }
    split; [exact E|]. rewrite E. eexists. split; reflexivity.
Qed.

Lemma BigNumber_from_number_witness :
  BigNumber.from (VNumber (-255)) = Ok (mkBigNumber "-0xff")
  /\ BigNumber.toNumber (mkBigNumber "-0xff") = Ok (-255)
  /\ fails_with NUMERIC_FAULT (BigNumber.from (VNumber (2 ^ 53 - 1))).
Proof.
  destruct (BigNumber_from_number (-255)) as [H _].
  destruct (BigNumber_from_number (2 ^ 53 - 1)) as [_ H'].
  destruct (H ltac:(unfold MAX_SAFE; lia)) as [H1 H2].
  destruct (H' ltac:(unfold MAX_SAFE; lia)) as [_ H3].
  repeat split; assumption.
Defined.

(** [toNumber] of any [BigNumber]: the integer when its magnitude is below
    2^53, the numeric fault "overflow" (with the decimal text) otherwise. *)
Theorem BigNumber_toNumber_bounds (this : BigNumber) (a : Z) :
  toBN (VBigNumber this) = Ok a ->
  (Z.abs a < 2 ^ 53 -> BigNumber.toNumber this = Ok a)
  /\ (2 ^ 53 <= Z.abs a ->
      BigNumber.toNumber this
      = throwFault "overflow" "toNumber" (Some (VString (js (BN.toString 10 a))))).
Proof.
  intros H. split; intros Ha.
  - now apply (toNumber_ok this a H).
  - now apply (toNumber_overflow this a H).
Qed.

Lemma BigNumber_toNumber_bounds_witness :
  BigNumber.toNumber (mkBigNumber "0x1fffffffffffff") = Ok (2 ^ 53 - 1)
  /\ BigNumber.toNumber (mkBigNumber "0x20000000000000")
     = throwFault "overflow" "toNumber" (Some (VString (js "9007199254740992"))).
Proof.
  split.
  - apply (BigNumber_toNumber_bounds (mkBigNumber "0x1fffffffffffff") (2 ^ 53 - 1) eq_refl).
    vm_compute. reflexivity.
  - apply (BigNumber_toNumber_bounds (mkBigNumber "0x20000000000000") (2 ^ 53) eq_refl).
    vm_compute. discriminate.
Defined.

(** The arithmetic of [BigNumber] is that of the integers: for a
    [BigNumber] that holds [a] and an operand that denotes [b], [add],
    [sub] and [mul] return the canonical [BigNumber] of a + b, a - b and
    a * b, without any bound, [mod] by a positive [b] returns the
    remainder in 0 .. b - 1, and [eq], [lt], [gt] compare [a] and [b]. *)
Theorem BigNumber_arithmetic (this : BigNumber) (other : value) (a b : Z) :
  toBN (VBigNumber this) = Ok a -> toBN other = Ok b ->
  BigNumber.add this other = Ok (BN_of (a + b))
  /\ BigNumber.sub this other = Ok (BN_of (a - b))
  /\ BigNumber.mul this other = Ok (BN_of (a * b))
  /\ (0 < b -> BigNumber.mod_ this other = Ok (BN_of (a mod b)) /\ 0 <= a mod b < b)
  /\ BigNumber.eq this other = Ok (a =? b)
  /\ BigNumber.lt this other = Ok (a <? b)
  /\ BigNumber.gt this other = Ok (a >? b).
Proof.
  intros Ha Hb.
  split; [apply (add_ok this a Ha other b Hb)|].
  split; [apply (sub_ok this a other b Ha Hb)|].
  split; [apply (mul_ok this a Ha other b Hb)|].
  split; [intros Hpos; split;
          [apply (mod_ok this a Ha other b Hb Hpos)|apply Z.mod_pos_bound; lia]|].
  split; [apply (eq_ok this a other b Ha Hb)|].
  split; [apply (lt_ok this a Ha other b Hb)|apply (gt_ok this a Ha other b Hb)].
Qed.

Lemma BigNumber_arithmetic_witness :
  BigNumber.add (mkBigNumber "-0x07") (VString (js "300")) = Ok (mkBigNumber "0x0125")
  /\ BigNumber.sub (mkBigNumber "-0x07") (VString (js "300")) = Ok (mkBigNumber "-0x0133")
  /\ BigNumber.mul (mkBigNumber "-0x07") (VString (js "300")) = Ok (mkBigNumber "-0x0834")
  /\ BigNumber.mod_ (mkBigNumber "-0x07") (VString (js "300")) = Ok (mkBigNumber "0x0125").
Proof.
  destruct (BigNumber_arithmetic (mkBigNumber "-0x07") (VString (js "300")) (-7) 300
              eq_refl eq_refl) as (H1 & H2 & H3 & H4 & _).
  destruct (H4 ltac:(lia)) as [H5 _].
  repeat split; assumption.
Defined.

(** Two's complement round trip: for a width [w] > 0 and an integer in
    -2^(w-1) .. 2^(w-1) - 1, [toTwos(w)] gives the canonical [BigNumber]
    of [z mod 2^w], a non-negative number below 2^w, and [fromTwos(w)] of
    that gives [z] back. *)
Theorem BigNumber_twos_roundtrip (this : BigNumber) (w z : Z) :
  toBN (VBigNumber this) = Ok z -> 0 < w -> - 2 ^ (w - 1) <= z < 2 ^ (w - 1) ->
  BigNumber.toTwos this w = Ok (BN_of (z mod 2 ^ w))
  /\ 0 <= z mod 2 ^ w < 2 ^ w
  /\ BigNumber.fromTwos (BN_of (z mod 2 ^ w)) w = Ok (BN_of z).
Proof.
  intros Hthis Hw Hz.
  assert (H2 : 2 ^ w = 2 * 2 ^ (w - 1)).
  { rewrite <- Z.pow_succ_r by lia. f_equal. lia. }
  pose proof (pow2_pos (w - 1) ltac:(lia)) as Hp.
  destruct (toTwos_mod w z ltac:(lia) ltac:(lia)) as [Ht Hr].
  split; [|split; [exact Hr|]].
  - rewrite (toTwos_ok this z Hthis). now rewrite Ht.
  - rewrite (fromTwos_ok _ _ (toBN_BN_of (z mod 2 ^ w))).
    rewrite fromTwos_spec by lia. now rewrite signed_mod by lia.
Qed.

Lemma BigNumber_twos_roundtrip_witness :
  BigNumber.toTwos (mkBigNumber "-0x01") 8 = Ok (mkBigNumber "0xff")
  /\ BigNumber.fromTwos (mkBigNumber "0xff") 8 = Ok (mkBigNumber "-0x01").
Proof.
  destruct (BigNumber_twos_roundtrip (mkBigNumber "-0x01") 8 (-1) eq_refl
              ltac:(lia) ltac:(lia)) as (H1 & _ & H2).
  split; assumption.
Defined.

(** ** Hex strings and byte arrays *)

Lemma nibbles h1 h2 : 0 <= h1 < 16 -> 0 <= h2 < 16 ->
  Z.shiftr (Z.land (16 * h1 + h2) 0xf0) 4 = h1 /\ Z.land (16 * h1 + h2) 0x0f = h2.
Proof.
  intros H1 H2. split.
  - rewrite Z.shiftr_land. change (Z.shiftr 0xf0 4) with (Z.ones 4).
    rewrite Z.land_ones, Z.shiftr_div_pow2 by lia.
    change (2 ^ 4) with 16.
    replace ((16 * h1 + h2) / 16) with h1
      by (apply Z.div_unique with h2; lia).
    apply Z.mod_small. lia.
  - change 0x0f with (Z.ones 4). rewrite Z.land_ones by lia. change (2 ^ 4) with 16.
    symmetry. apply Z.mod_unique with h1; lia.
Qed.

Lemma HexCharacters_at_hexval c :
  is_hex c = true -> HexCharacters_at (hexval c) = toLowerCase_char c.
Proof.
  destruct c as [[] [] [] [] [] [] [] []]; intros H; try discriminate H; reflexivity.
Qed.

Lemma hexlify_arrayify_pair c1 c2 :
  is_hex c1 = true -> is_hex c2 = true ->
  hexlify_bytes [z2b (16 * hexval c1 + hexval c2)]
  = String (toLowerCase_char c1) (String (toLowerCase_char c2) "").
Proof.
  intros H1 H2. pose proof (hexval_range c1 H1) as R1. pose proof (hexval_range c2 H2) as R2.
  cbn [hexlify_bytes]. rewrite b2z_z2b, Z.mod_small by lia.
  destruct (nibbles _ _ R1 R2) as [-> ->].
  now rewrite !HexCharacters_at_hexval.
Qed.

Lemma hexlify_arrayify_hex n : forall d,
  String.length d = (2 * n)%nat -> string_forallb is_hex d = true ->
  hexlify_bytes (arrayify_hex d) = toLowerCase d /\ List.length (arrayify_hex d) = n.
Proof.
  induction n as [|n IH]; intros d Hl Hh.
  - destruct d; [split; reflexivity|discriminate].
  - destruct d as [|c1 [|c2 r]]; try (cbn in Hl; lia).
    cbn [string_forallb] in Hh. apply andb_true_iff in Hh. destruct Hh as [H1 Hh].
    apply andb_true_iff in Hh. destruct Hh as [H2 Hr].
    destruct (IH r ltac:(cbn in Hl; lia) Hr) as [E El].
    cbn [arrayify_hex]. split; [|cbn; now rewrite El].
    change (?b :: ?l) with ([b] ++ l). rewrite hexlify_bytes_app, E.
    rewrite hexlify_arrayify_pair by assumption. reflexivity.
Qed.

Lemma even_length d : Z.odd (slen d) = false -> exists n, String.length d = (2 * n)%nat.
Proof.
  intros H. unfold slen in H. exists (Nat.div2 (String.length d)).
  rewrite <- Z.negb_even, negb_false_iff in H.
  apply Z.even_spec in H. destruct H as [k Hk].
  assert (Hn : String.length d = (2 * Z.to_nat k)%nat) by lia.
  rewrite Hn at 2. rewrite Nat.div2_double. exact Hn.
Qed.

Lemma isHexString_0x d :
  isHexString (VString (js (String "0" (String "x" d)))) None = string_forallb is_hex d.
Proof.
  unfold isHexString. rewrite latin1_js. cbn [isHexString_text].
  change (Ascii.eqb "0" "0") with true. change (Ascii.eqb "x" "x") with true.
  cbn [andb]. destruct (string_forallb is_hex d); reflexivity.
Qed.

(** Bytes and hex text convert into each other without loss.  For every
    byte array, [hexlify] gives ["0x"] and two lower-case hex digits per
    byte, and [arrayify] of that text gives the bytes back.  For every text
    ["0x"] followed by hex digits: with an even number of digits
    [arrayify] gives half as many bytes, and [hexlify] of the text, and of
    those bytes, is the text in lower case; with an odd number both throw
    the invalid-argument error "hex data is odd-length". *)
Theorem hexlify_arrayify_roundtrip (bs : list byte) (d : string) :
  (hexlify (VBytes bs) = Ok ("0x" +++ hexlify_bytes bs)
   /\ slen ("0x" +++ hexlify_bytes bs) = 2 + 2 * len bs
   /\ toLowerCase (hexlify_bytes bs) = hexlify_bytes bs
   /\ arrayify (VString (js ("0x" +++ hexlify_bytes bs))) = Ok bs)
  /\ (string_forallb is_hex d = true ->
      if Z.odd (slen d)
      then arrayify (VString (js ("0x" +++ d)))
           = throwArgumentError "hex data is odd-length" (VString (js "value"))
               (VString (js ("0x" +++ d)))
           /\ hexlify (VString (js ("0x" +++ d)))
              = throwArgumentError "hex data is odd-length" (VString (js "value"))
                  (VString (js ("0x" +++ d)))
      else exists a, arrayify (VString (js ("0x" +++ d))) = Ok a
             /\ 2 * len a = slen d
             /\ hexlify (VBytes a) = Ok ("0x" +++ toLowerCase d)
             /\ hexlify (VString (js ("0x" +++ d))) = Ok ("0x" +++ toLowerCase d)).
Proof.
  split.
  - split; [reflexivity|]. split.
    + change ("0x" +++ hexlify_bytes bs) with (String "0" (String "x" (hexlify_bytes bs))).
      rewrite !slen_String, slen_hexlify_bytes. lia.
    + split; [apply toLowerCase_lowhex, hexlify_bytes_lowhex|].
      unfold arrayify. change ("0x" +++ hexlify_bytes bs)
        with (String "0" (String "x" (hexlify_bytes bs))).
      rewrite isHexString_0x, hexlify_bytes_hex, latin1_js. unfold arrayify_text.
      cbn [substring_from string_drop]. rewrite slen_hexlify_bytes, Z.odd_mul.
      cbn [Z.odd andb]. now rewrite arrayify_hex_hexlify.
  - intros Hh. change ("0x" +++ d) with (String "0" (String "x" d)).
    assert (Ea : arrayify (VString (js (String "0" (String "x" d))))
                 = arrayify_text (String "0" (String "x" d))
                     (VString (js (String "0" (String "x" d))))).
    { unfold arrayify. now rewrite isHexString_0x, Hh, latin1_js. }
    assert (Eh : hexlify (VString (js (String "0" (String "x" d))))
                 = if Z.odd (slen (String "0" (String "x" d)))
                   then throwArgumentError "hex data is odd-length" (VString (js "value"))
                          (VString (js (String "0" (String "x" d))))
                   else Ok (toLowerCase (String "0" (String "x" d)))).
    { unfold hexlify. now rewrite isHexString_0x, Hh, latin1_js. }
    assert (Eo : Z.odd (slen (String "0" (String "x" d))) = Z.odd (slen d)).
    { rewrite !slen_String. replace (1 + (1 + slen d)) with (slen d + 2 * 1) by lia.
      apply Z.odd_add_mul_2. }
    rewrite Eo in Eh. unfold arrayify_text in Ea. cbn [substring_from string_drop] in Ea.
    destruct (Z.odd (slen d)) eqn:Eodd.
    + split; assumption.
    + destruct (even_length d Eodd) as [n Hn].
      destruct (hexlify_arrayify_hex n d Hn Hh) as [E El].
      exists (arrayify_hex d). split; [exact Ea|]. split.
      * unfold len, slen. rewrite El, Hn. lia.
      * split; [|exact Eh]. cbn [hexlify isBytes bind bytes_of]. now rewrite E.
Qed.

Lemma hexlify_arrayify_roundtrip_witness :
  arrayify (VString (js "0xAbC"))
  = throwArgumentError "hex data is odd-length" (VString (js "value")) (VString (js "0xAbC"))
  /\ exists a, arrayify (VString (js "0x00AbCd")) = Ok a
       /\ hexlify (VBytes a) = Ok "0x00abcd".
Proof.
  destruct (hexlify_arrayify_roundtrip [] "AbC") as [_ H1].
  destruct (hexlify_arrayify_roundtrip [] "00AbCd") as [_ H2].
  split.
  - apply (H1 eq_refl).
  - destruct (H2 eq_refl) as (a & Ha & _ & Hh & _). exists a. split; assumption.
Defined.

Lemma zeros_snoc n d : zeros n +++ String "0" d = String "0" (zeros n +++ d).
Proof. induction n as [|n IH]; [reflexivity|]. cbn [zeros String.append]. now rewrite IH. Qed.

Lemma hexZeroPad_loop_spec L : forall k fuel d,
  (k <= fuel)%nat -> slen d + Z.of_nat k = 2 * L ->
  hexZeroPad_loop fuel (String "0" (String "x" d)) L
  = String "0" (String "x" (zeros k +++ d)).
Proof.
  induction k as [|k IH]; intros fuel d Hf Hl.
  - destruct fuel as [|f]; [reflexivity|]. cbn [hexZeroPad_loop].
    rewrite !slen_String. zbool. reflexivity.
  - destruct fuel as [|f]; [lia|]. cbn [hexZeroPad_loop].
    rewrite !slen_String. zbool. cbn [substring_from string_drop String.append].
    rewrite (IH f (String "0" d)) by (rewrite ?slen_String; lia).
    now rewrite zeros_snoc.
Qed.

(** [hexZeroPad] of a hex text pads it on the left with zero digits to
    exactly [length] bytes and keeps its digits; a text that is longer
    already is refused with the invalid-argument error "value out of
    range", never cut. *)
Theorem hexZeroPad_pads (d : string) (length : Z) :
  string_forallb is_hex d = true -> 0 <= length ->
  (slen d <= 2 * length ->
   hexZeroPad ("0x" +++ d) length
   = Ok ("0x" +++ zeros (Z.to_nat (2 * length - slen d)) +++ d)
   /\ slen ("0x" +++ zeros (Z.to_nat (2 * length - slen d)) +++ d) = 2 * length + 2)
  /\ (2 * length < slen d ->
      hexZeroPad ("0x" +++ d) length
      = throwArgumentError "value out of range" (VString (js "value")) (VNumber length)).
Proof.
  intros Hh HL. change ("0x" +++ d) with (String "0" (String "x" d)).
  assert (Et : isHexString_text (String "0" (String "x" d)) = true).
  { cbn [isHexString_text]. now rewrite Hh. }
  pose proof (slen_nonneg d) as Hd.
  unfold hexZeroPad. rewrite Et. cbn [negb]. rewrite !slen_String. split.
  - intros Hl. zbool. split.
    + f_equal. apply hexZeroPad_loop_spec; lia.
    + change ("0x" +++ ?s) with (String "0" (String "x" s)).
      rewrite !slen_String, slen_append.
      assert (Hz : forall n, slen (zeros n) = Z.of_nat n).
      { induction n as [|n IH]; [reflexivity|]. cbn [zeros]. rewrite slen_String, IH. lia. }
      rewrite Hz. lia.
  - intros Hl. zbool. reflexivity.
Qed.

Lemma hexZeroPad_pads_witness :
  hexZeroPad "0x1F" 4 = Ok "0x0000001F"
  /\ hexZeroPad "0x0102030405" 4
     = throwArgumentError "value out of range" (VString (js "value")) (VNumber 4).
Proof.
  destruct (hexZeroPad_pads "1F" 4 eq_refl ltac:(lia)) as [H1 _].
  destruct (hexZeroPad_pads "0102030405" 4 eq_refl ltac:(lia)) as [_ H2].
  split.
  - destruct (H1 ltac:(vm_compute; discriminate)) as [H _]. exact H.
  - apply H2. vm_compute. reflexivity.
Defined.

(** ** Writer and Reader: the bytes *)

Lemma concat_arrays_app a b : concat_arrays (a ++ b) = concat_arrays a ++ concat_arrays b.
Proof. induction a as [|x a IH]; [reflexivity|]. cbn. now rewrite IH, app_assoc. Qed.

Lemma writer_ok_new : writer_ok (Writer.new 32).
Proof. split; [apply std_new|reflexivity]. Qed.

Lemma writeData_ok w bs : writer_ok w ->
  writer_ok (snd (Writer._writeData w bs))
  /\ wbytes (snd (Writer._writeData w bs)) = wbytes w ++ bs.
Proof.
  intros [Hs Hl].
  assert (E : wbytes (snd (Writer._writeData w bs)) = wbytes w ++ bs).
  { unfold wbytes, Writer._writeData. cbn [snd Writer._data].
    rewrite concat_arrays_app. cbn [concat_arrays]. now rewrite app_nil_r. }
  split; [|exact E]. split; [now apply std_writeData|].
  rewrite E, len_app. unfold Writer._writeData. cbn [snd Writer._dataLength]. lia.
Qed.

Lemma getValue_from w v b :
  BigNumber.from v = Ok b -> Writer._getValue w v = Writer._getValue w (VBigNumber b).
Proof. intros H. unfold Writer._getValue. rewrite H. reflexivity. Qed.

Lemma arrayify_BN_of z : 0 <= z ->
  arrayify (VBigNumber (BN_of z)) = Ok (arrayify_hex (hex_even z))
  /\ be_value (arrayify_hex (hex_even z)) = z
  /\ 2 * len (arrayify_hex (hex_even z)) = slen (hex_even z).
Proof.
  intros Hz.
  assert (Hh : string_forallb is_hex (hex_even z) = true).
  { eapply forallb_impl; [apply is_lowhex_is_hex|]. now apply hex_even_lowhex. }
  destruct (arrayify_hex_value (hex_even z) Hh (hex_even_even z)) as [Hv Hl].
  rewrite parse_hex_even in Hv by assumption.
  split; [|split; assumption].
  unfold BN_of. rewrite canon_nonneg by assumption.
  apply arrayify_BigNumber_0x; [exact Hh|apply hex_even_even].
Qed.

(** A value of 2^256 or more does not fit a word. *)
Lemma getValue_too_big w z : std_writer w -> 2 ^ 256 <= z ->
  Writer._getValue w (VBigNumber (BN_of z))
  = throwError "value out-of-bounds" BUFFER_OVERRUN
      [("length", VNumber 32); ("offset", VNumber (len (arrayify_hex (hex_even z))))].
Proof.
  intros [Hw Hp] Hz. unfold Writer._getValue, BigNumber.from. cbn [BigNumber_from bind].
  destruct (arrayify_BN_of z ltac:(lia)) as (Ea & Hv & Hl).
  rewrite Ea. cbn [bind]. rewrite Hw.
  pose proof (be_value_range (arrayify_hex (hex_even z))) as Hr. rewrite Hv in Hr.
  assert (32 < len (arrayify_hex (hex_even z))).
  { destruct (Z.le_gt_cases (len (arrayify_hex (hex_even z))) 32) as [Hle|]; [|assumption].
    pose proof (len_nonneg (arrayify_hex (hex_even z))).
    assert (256 ^ len (arrayify_hex (hex_even z)) <= 256 ^ 32)
      by (apply Z.pow_le_mono_r; lia).
    change (256 ^ 32) with (2 ^ 256) in *. lia. }
  zbool. reflexivity.
Qed.

(** A negative value has no bytes. *)
Lemma getValue_negative w z : z < 0 ->
  Writer._getValue w (VBigNumber (BN_of z))
  = throwArgumentError "invalid arrayify value" (VString (js "value"))
      (VString (js (canon z))).
Proof.
  intros Hz. unfold Writer._getValue, BigNumber.from. cbn [BigNumber_from bind].
  unfold arrayify, BN_of. cbn [_hex]. rewrite canon_neg by assumption. reflexivity.
Qed.

Lemma slice_from_zeros k : 0 <= k <= 32 ->
  slice_from (repeat x00 32) k = repeat x00 (Z.to_nat (32 - k)).
Proof.
  intros Hk. rewrite slice_from_skipn by (rewrite len_repeat; lia).
  replace 32%nat with (Z.to_nat k + Z.to_nat (32 - k))%nat at 1 by lia.
  rewrite repeat_app, skipn_app, skipn_all2 by (rewrite repeat_length; lia).
  rewrite repeat_length, Nat.sub_diag. reflexivity.
Qed.

Lemma pad32_length bs : len (pad32 bs) = 32 * ((len bs + 31) / 32).
Proof.
  unfold pad32. rewrite len_app, len_repeat.
  pose proof (len_nonneg bs) as Hn. pose proof (Z.mod_pos_bound (- len bs) 32 ltac:(lia)).
  rewrite Z2Nat.id by lia.
  pose proof (Z.div_mod (len bs + 31) 32 ltac:(lia)) as D.
  pose proof (Z.mod_pos_bound (len bs + 31) 32 ltac:(lia)) as B.
  assert (E : (- len bs) mod 32 = 31 - (len bs + 31) mod 32).
  { symmetry. apply Z.mod_unique with (- ((len bs + 31) / 32)); lia. }
  lia.
Qed.

Lemma writeBytes_VBytes w bs : std_writer w ->
  Writer.writeBytes w (VBytes bs) = Ok (Writer._writeData w (pad32 bs)).
Proof.
  intros [Hw Hp]. unfold Writer.writeBytes. cbn [arrayify isHexString isBytes bind bytes_of].
  rewrite Hw, Hp. f_equal. f_equal. unfold pad32.
  pose proof (Z.mod_pos_bound (len bs) 32 ltac:(lia)) as B.
  destruct (Z.eqb_spec (len bs mod 32) 0) as [E|E]; cbn [negb].
  - replace ((- len bs) mod 32) with 0; [now rewrite app_nil_r|].
    apply Z.mod_unique with (- (len bs / 32)); [lia|].
    pose proof (Z.div_mod (len bs) 32 ltac:(lia)). lia.
  - rewrite slice_from_zeros by lia. do 2 f_equal. f_equal.
    apply Z.mod_unique with (- (len bs / 32) - 1); [lia|].
    pose proof (Z.div_mod (len bs) 32 ltac:(lia)). lia.
Qed.

Lemma readBytes_any r n loose : std_reader r -> 0 <= n ->
  Reader._offset r + 32 * ((n + 31) / 32) <= len (Reader._data r) ->
  Reader.readBytes n loose r
  = (Ok (slice (Reader._data r) (Reader._offset r) (Reader._offset r + n)),
     Reader.advance r (32 * ((n + 31) / 32))).
Proof.
  intros [Hw Ho] Hn Hlen. unfold Reader.readBytes, Reader._peekBytes.
  rewrite Hw, aligned_32 by lia. zbool.
  pose proof (Z.div_mod (n + 31) 32 ltac:(lia)) as D.
  pose proof (Z.mod_pos_bound (n + 31) 32 ltac:(lia)) as B.
  set (A := 32 * ((n + 31) / 32)) in *.
  assert (HA : n <= A) by lia.
  assert (Hs : len (slice (Reader._data r) (Reader._offset r) (Reader._offset r + A)) = A).
  { rewrite slice_firstn_skipn by lia. unfold len.
    rewrite length_firstn, length_skipn. unfold len in Hlen. lia. }
  rewrite Hs. f_equal. f_equal.
  rewrite (slice_firstn_skipn _ 0 n) by lia.
  rewrite !slice_firstn_skipn by lia. cbn [Z.to_nat skipn].
  rewrite firstn_firstn. f_equal. lia.
Qed.


(** ** Writer and Reader *)

(** One word through [Writer.writeValue] and [Reader.readValue].  For a
    value that [BigNumber.from] reads as the integer [z]: when
    0 <= z < 2^256 a fresh writer gets the 32 bytes of [z], most
    significant first, and [readValue] over those bytes gives a
    [BigNumber] that holds [z]; when z >= 2^256 [writeValue] throws the
    buffer overrun "value out-of-bounds"; when z < 0 it throws the
    invalid-argument error "invalid arrayify value".  It never writes a
    truncated or wrapped value. *)
Theorem Writer_Reader_word_roundtrip (v : value) (z : Z) :
  BigNumber.from v = Ok (BN_of z) ->
  (0 <= z < 2 ^ 256 ->
   exists w, Writer.writeValue (Writer.new 32) v = Ok (32, w)
     /\ wbytes w = be_bytes 32 z
     /\ exists b, fst (Reader.readValue (Reader.new (wbytes w) 32 None false)) = Ok b
          /\ toBN (VBigNumber b) = Ok z)
  /\ (2 ^ 256 <= z -> fails_with BUFFER_OVERRUN (Writer.writeValue (Writer.new 32) v))
  /\ (z < 0 -> fails_with INVALID_ARGUMENT (Writer.writeValue (Writer.new 32) v)).
Proof.
  intros Hv. split; [|split].
  - intros Hz. unfold Writer.writeValue.
    rewrite (getValue_from _ _ _ Hv), (getValue_BN_of _ _ std_new Hz). cbn [bind].
    exists (snd (Writer._writeData (Writer.new 32) (be_bytes 32 z))). split.
    + unfold Writer._writeData, len. rewrite be_bytes_length. reflexivity.
    + destruct (writeData_ok (Writer.new 32) (be_bytes 32 z) writer_ok_new) as [_ E].
      change (wbytes (Writer.new 32)) with (@nil byte) in E. cbn [app] in E.
      split; [exact E|]. rewrite E.
      assert (Hl : len (be_bytes 32 z) = 32) by (unfold len; now rewrite be_bytes_length).
      destruct (readValue_ok (Reader.new (be_bytes 32 z) 32 None false)) as (Hr & Hb & _).
      * split; [reflexivity|apply Z.le_refl].
      * cbn [Reader.new Reader._data Reader._offset]. lia.
      * cbn [Reader.new Reader._data Reader._offset] in Hr, Hb.
        change (0 + 32) with 32 in Hr, Hb. rewrite slice_prefix in Hr, Hb by lia.
        eexists. split; [rewrite Hr; reflexivity|].
        rewrite Hb, be_value_be_bytes. f_equal.
        change (256 ^ Z.of_nat 32) with (2 ^ 256). apply Z.mod_small. lia.
  - intros Hz. unfold Writer.writeValue.
    rewrite (getValue_from _ _ _ Hv), (getValue_too_big _ _ std_new Hz).
    eexists. split; reflexivity.
  - intros Hz. unfold Writer.writeValue.
    rewrite (getValue_from _ _ _ Hv), (getValue_negative _ _ Hz).
    eexists. split; reflexivity.
Qed.

Lemma Writer_Reader_word_roundtrip_witness :
  (exists w, Writer.writeValue (Writer.new 32) (VString (js "258")) = Ok (32, w)
     /\ wbytes w = repeat x00 30 ++ [x01; x02])
  /\ fails_with BUFFER_OVERRUN
       (Writer.writeValue (Writer.new 32)
          (VString (js "115792089237316195423570985008687907853269984665640564039457584007913129639936")))
  /\ fails_with INVALID_ARGUMENT (Writer.writeValue (Writer.new 32) (VNumber (-1))).
Proof.
  split; [|split].
  - destruct (Writer_Reader_word_roundtrip (VString (js "258")) 258 eq_refl) as [H _].
    destruct (H ltac:(lia)) as (w & Hw & Hb & _). exists w. split; [exact Hw|exact Hb].
  - destruct (Writer_Reader_word_roundtrip
                (VString (js "115792089237316195423570985008687907853269984665640564039457584007913129639936"))
                (2 ^ 256) ltac:(vm_compute; reflexivity)) as (_ & H & _).
    apply H. lia.
  - destruct (Writer_Reader_word_roundtrip (VNumber (-1)) (-1) eq_refl) as (_ & _ & H).
    apply H. lia.
Defined.



(** [Writer.writeBytes] pads on the right: the writer gets the bytes
    followed by zero bytes up to the next multiple of 32, the returned
    length is that padded length, and a writer whose length counted its
    bytes still does. *)
Theorem Writer_writeBytes_padding (w : Writer.t) (bs : list byte) :
  writer_ok w ->
  exists w', Writer.writeBytes w (VBytes bs) = Ok (32 * ((len bs + 31) / 32), w')
    /\ wbytes w' = wbytes w ++ bs ++ repeat x00 (Z.to_nat ((- len bs) mod 32))
    /\ writer_ok w'
    /\ Writer.length w' = Writer.length w + 32 * ((len bs + 31) / 32).
Proof.
  intros Hw. destruct (writeData_ok w (pad32 bs) Hw) as [Hok E].
  rewrite (writeBytes_VBytes w bs (proj1 Hw)).
  exists (snd (Writer._writeData w (pad32 bs))). split; [|split; [|split]].
  - unfold Writer._writeData. cbn [snd]. now rewrite pad32_length.
  - exact E.
  - exact Hok.
  - unfold Writer.length, Writer._writeData. cbn [snd Writer._dataLength].
    now rewrite pad32_length.
Qed.

Lemma Writer_writeBytes_padding_witness :
  exists w', Writer.writeBytes (Writer.new 32) (VBytes [x01; x02; x03]) = Ok (32, w')
    /\ wbytes w' = [x01; x02; x03] ++ repeat x00 29.
Proof.
  destruct (Writer_writeBytes_padding (Writer.new 32) [x01; x02; x03] writer_ok_new)
    as (w' & H1 & H2 & _).
  exists w'. split; [exact H1|exact H2].
Defined.

(** ** What the coders write and read *)

Lemma appended_refl w : appended w w [].
Proof.
  exists []. rewrite app_nil_r. repeat split. change (len []) with 0. lia.
Qed.

Lemma appended_writeData w bs : appended w (snd (Writer._writeData w bs)) bs.
Proof.
  exists [bs]. unfold Writer._writeData. cbn [snd Writer._data concat_arrays].
  rewrite app_nil_r. repeat split.
Qed.

Lemma appended_trans w w1 w2 a b :
  appended w w1 a -> appended w1 w2 b -> appended w w2 (a ++ b).
Proof.
  intros (c1 & D1 & C1 & W1 & P1 & L1) (c2 & D2 & C2 & W2 & P2 & L2).
  exists (c1 ++ c2). rewrite D2, D1, <- app_assoc, concat_arrays_app, C1, C2, len_app.
  repeat split; try congruence. lia.
Qed.

Lemma appended_std w w' bs : appended w w' bs -> std_writer w -> std_writer w'.
Proof. intros (c & _ & _ & W & P & _) [Hw Hp]. split; congruence. Qed.

Lemma appended_wbytes w w' bs : appended w w' bs -> wbytes w' = wbytes w ++ bs.
Proof.
  intros (c & D & C & _). unfold wbytes. now rewrite D, concat_arrays_app, C.
Qed.

Lemma appended_length w w' bs :
  appended w w' bs -> Writer.length w' = Writer.length w + len bs.
Proof. intros (c & _ & _ & _ & _ & L). exact L. Qed.

(** The reader of [decodes] stands at a whole word. *)
Lemma reader_at r pre bs suf :
  Reader.wordSize r = 32 -> Reader._data r = pre ++ bs ++ suf -> Reader._offset r = len pre ->
  std_reader r
  /\ Reader._offset r + len bs <= len (Reader._data r)
  /\ slice (Reader._data r) (Reader._offset r) (Reader._offset r + len bs) = bs.
Proof.
  intros Hw Hd Ho. rewrite Hd, Ho. pose proof (len_nonneg pre). pose proof (len_nonneg suf).
  split; [split; [exact Hw|lia]|]. split; [rewrite !len_app; lia|apply slice_app_mid].
Qed.

Lemma len_be_bytes n z : len (be_bytes n z) = Z.of_nat n.
Proof. unfold len. now rewrite be_bytes_length. Qed.

(** *** Numbers *)

Lemma in_range_test size (signed : bool) z : 1 <= size <= 32 ->
  in_range size signed z ->
  (if signed then (z >? 2 ^ (size * 8 - 1) - 1) || (z <? - 2 ^ (size * 8 - 1))
   else (z <? 0) || (z >? 2 ^ (size * 8) - 1)) = false.
Proof.
  intros Hs. unfold in_range. replace (8 * size) with (size * 8) by lia.
  destruct signed; intros Hz; zbool; reflexivity.
Qed.

Lemma out_of_range_test size (signed : bool) z : 1 <= size <= 32 ->
  ~ in_range size signed z ->
  (if signed then (z >? 2 ^ (size * 8 - 1) - 1) || (z <? - 2 ^ (size * 8 - 1))
   else (z <? 0) || (z >? 2 ^ (size * 8) - 1)) = true.
Proof.
  intros Hs. unfold in_range. replace (8 * size) with (size * 8) by lia.
  destruct signed; intros Hz.
  - destruct (Z.gtb_spec z (2 ^ (size * 8 - 1) - 1)); [reflexivity|].
    destruct (Z.ltb_spec z (- 2 ^ (size * 8 - 1))); [reflexivity|]. exfalso. apply Hz. lia.
  - destruct (Z.ltb_spec z 0); [reflexivity|].
    destruct (Z.gtb_spec z (2 ^ (size * 8) - 1)); [reflexivity|]. exfalso. apply Hz. lia.
Qed.

Lemma in_range_256 size (signed : bool) z : 1 <= size <= 32 ->
  in_range size signed z -> - 2 ^ 255 <= z < 2 ^ 256.
Proof.
  intros Hs. unfold in_range. destruct signed; intros Hz.
  - pose proof (pow2_le (8 * size - 1) 255 ltac:(lia)). lia.
  - pose proof (pow2_le (8 * size) 256 ltac:(lia)).
    pose proof (pow2_pos 255 ltac:(lia)). lia.
Qed.

Lemma word_number_in_range size (signed : bool) z : 1 <= size <= 32 ->
  in_range size signed z ->
  word_number size signed (be_bytes 32 (z mod 2 ^ 256)) = z.
Proof.
  intros Hs Hz. unfold word_number. rewrite be_value_be_bytes.
  change (256 ^ Z.of_nat 32) with (2 ^ 256). rewrite Z.mod_mod by lia.
  assert (E : (z mod 2 ^ 256) mod 2 ^ (size * 8) = z mod 2 ^ (size * 8)).
  { apply Z.mod_mod_divide.
    exists (2 ^ (256 - size * 8)). rewrite <- Z.pow_add_r by lia. f_equal. lia. }
  rewrite E. unfold in_range in Hz. replace (8 * size) with (size * 8) in Hz by lia.
  destruct signed.
  - apply signed_mod; lia.
  - apply Z.mod_small. lia.
Qed.

Lemma encodes_Number size (signed : bool) name v z : 1 <= size <= 32 ->
  toBN v = Ok z -> in_range size signed z ->
  encodes (NumberCoder size signed name) v (be_bytes 32 (z mod 2 ^ 256)).
Proof.
  intros Hs Hv Hz w Hw.
  rewrite (NumberCoder_encode_spec size signed name Hs w v z Hw Hv).
  rewrite (in_range_test size signed z Hs Hz).
  do 2 eexists. split; [reflexivity|]. apply appended_writeData.
Qed.

Lemma decodes_Number size (signed : bool) name z : 1 <= size <= 32 ->
  in_range size signed z ->
  decodes (NumberCoder size signed name) (be_bytes 32 (z mod 2 ^ 256)) (number_value size z).
Proof.
  intros Hs Hz r pre suf Hw Hc Hd Ho.
  destruct (reader_at r pre _ suf Hw Hd Ho) as (Hr & Hlen & Hsl).
  rewrite len_be_bytes in Hlen, Hsl. change (Z.of_nat 32) with 32 in Hlen, Hsl.
  rewrite (NumberCoder_decode_spec size signed name Hs r Hr Hc Hlen).
  cbv zeta. rewrite Hsl, (word_number_in_range size signed z Hs Hz).
  eexists. split; [reflexivity|]. intros _. now rewrite len_be_bytes.
Qed.

(** *** Booleans *)

Lemma encodes_Boolean name v :
  encodes (BooleanCoder name) v (be_bytes 32 (if truthy v then 1 else 0)).
Proof.
  intros w Hw. unfold BooleanCoder. cbn [Coder.encode].
  rewrite writeValue_VNumber by (try assumption; destruct (truthy v); unfold MAX_SAFE; lia).
  do 2 eexists. split; [reflexivity|]. apply appended_writeData.
Qed.

Lemma decodes_Boolean name (b : bool) :
  decodes (BooleanCoder name) (be_bytes 32 (if b then 1 else 0)) (VBool b).
Proof.
  intros r pre suf Hw Hc Hd Ho.
  destruct (reader_at r pre _ suf Hw Hd Ho) as (Hr & Hlen & Hsl).
  rewrite len_be_bytes in Hlen, Hsl. change (Z.of_nat 32) with 32 in Hlen, Hsl.
  destruct (readValue_ok r Hr Hlen) as (Hrv & Hbn & _). rewrite Hsl in Hrv, Hbn.
  unfold BooleanCoder. cbn [Coder.decode Coder.dynamic]. unfold Reader.bindM, Reader.lift.
  rewrite Hrv, (isZero_ok _ _ Hbn).
  unfold Reader.coerceM, Reader.coerce, Reader.advance. cbn [Reader._coerceFunc].
  rewrite Hc. cbn [Reader.coerce_default match_int_name].
  eexists. split; [|intros _; now rewrite len_be_bytes].
  f_equal. f_equal. f_equal. rewrite be_value_be_bytes.
  change (256 ^ Z.of_nat 32) with (2 ^ 256). destruct b; reflexivity.
Qed.

(** *** Fixed bytes *)

Lemma pad32_word bs : 1 <= len bs <= 32 -> len (pad32 bs) = 32.
Proof.
  intros Hl. rewrite pad32_length.
  replace ((len bs + 31) / 32) with 1; [lia|].
  apply Z.div_unique with (len bs - 1); lia.
Qed.

Lemma coerce_bytes r name v :
  Reader._coerceFunc r = None -> Reader.coerce r ("bytes" +++ name) v = Ok v.
Proof. intros Hc. unfold Reader.coerce. rewrite Hc. reflexivity. Qed.

Lemma encodes_FixedBytes size name v bs :
  arrayify v = Ok bs -> len bs = size ->
  encodes (FixedBytesCoder size name) v (pad32 bs).
Proof.
  intros Hv Hl w Hw. unfold FixedBytesCoder. cbn [Coder.encode]. rewrite Hv. cbn [bind].
  rewrite Hl, Z.eqb_refl. cbn [negb]. rewrite (writeBytes_VBytes w bs Hw).
  do 2 eexists. split; [reflexivity|]. apply appended_writeData.
Qed.

Lemma decodes_FixedBytes size name bs : 1 <= size <= 32 -> len bs = size ->
  decodes (FixedBytesCoder size name) (pad32 bs)
    (VString (js ("0x" +++ hexlify_bytes bs))).
Proof.
  intros Hs Hl r pre suf Hw Hc Hd Ho.
  assert (Hr : std_reader r) by (split; [exact Hw|rewrite Ho; apply len_nonneg]).
  pose proof (pad32_word bs ltac:(lia)) as Hp.
  assert (HA : 32 * ((size + 31) / 32) = 32).
  { replace ((size + 31) / 32) with 1; [lia|]. apply Z.div_unique with (size - 1); lia. }
  unfold FixedBytesCoder. cbn [Coder.decode Coder.dynamic]. unfold Reader.bindM.
  rewrite (readBytes_any r size false Hr ltac:(lia)).
  2:{ rewrite HA, Hd, Ho, !len_app, Hp. pose proof (len_nonneg suf). lia. }
  assert (Hsl : slice (Reader._data r) (Reader._offset r) (Reader._offset r + size) = bs).
  { rewrite Hd, Ho, <- Hl. unfold pad32. rewrite <- app_assoc. apply slice_app_mid. }
  rewrite Hsl, HA. unfold Reader.lift. cbn [hexlify isBytes bind bytes_of isHexString].
  unfold Reader.coerceM. rewrite coerce_bytes by exact Hc.
  eexists. split; [reflexivity|]. intros _. now rewrite Hp.
Qed.

(** *** Dynamic bytes *)

Lemma DynamicBytes_encode w bs : std_writer w -> len bs < MAX_SAFE ->
  exists n w', DynamicBytesCoder_encode w (VBytes bs) = Ok (n, w')
    /\ appended w w' (be_bytes 32 (len bs) ++ pad32 bs).
Proof.
  intros Hw Hl. unfold DynamicBytesCoder_encode.
  cbn [arrayify isHexString isBytes bind bytes_of].
  pose proof (len_nonneg bs).
  rewrite writeValue_VNumber by (try assumption; lia). cbn [bind].
  set (w1 := snd (Writer._writeData w (be_bytes 32 (len bs)))).
  assert (A1 : appended w w1 (be_bytes 32 (len bs))) by apply appended_writeData.
  change (Writer._writeData w (be_bytes 32 (len bs)))
    with (len (be_bytes 32 (len bs)), w1).
  cbv beta iota zeta.
  rewrite (writeBytes_VBytes w1 bs (appended_std _ _ _ A1 Hw)). cbn [bind].
  do 2 eexists. split; [reflexivity|].
  eapply appended_trans; [exact A1|apply appended_writeData].
Qed.

Lemma DynamicBytes_decode r pre suf bs :
  Reader.wordSize r = 32 -> len bs < 2 ^ 53 ->
  Reader._data r = pre ++ (be_bytes 32 (len bs) ++ pad32 bs) ++ suf ->
  Reader._offset r = len pre ->
  exists r', DynamicBytesCoder_decode r = (Ok bs, r')
    /\ Reader._coerceFunc r' = Reader._coerceFunc r.
Proof.
  intros Hw Hl Hd Ho. pose proof (len_nonneg bs) as Hn.
  assert (Hr : std_reader r) by (split; [exact Hw|rewrite Ho; apply len_nonneg]).
  assert (Hd1 : Reader._data r = pre ++ be_bytes 32 (len bs) ++ (pad32 bs ++ suf))
    by (rewrite Hd, <- !app_assoc; reflexivity).
  destruct (reader_at r pre _ _ Hw Hd1 Ho) as (_ & Hlen & Hsl).
  rewrite len_be_bytes in Hlen, Hsl. change (Z.of_nat 32) with 32 in Hlen, Hsl.
  destruct (readValue_ok r Hr Hlen) as (Hrv & Hbn & _). rewrite Hsl in Hrv, Hbn.
  rewrite be_value_be_bytes in Hbn. change (256 ^ Z.of_nat 32) with (2 ^ 256) in Hbn.
  rewrite Z.mod_small in Hbn by (pose proof (pow2_le 53 256 ltac:(lia)); lia).
  unfold DynamicBytesCoder_decode, Reader.bindM, Reader.lift.
  rewrite Hrv, (toNumber_ok _ _ Hbn) by (rewrite Z.abs_eq; lia).
  set (r1 := Reader.advance r 32).
  assert (Hr1 : std_reader r1).
  { split; [exact Hw|]. unfold r1, Reader.advance. cbn [Reader._offset].
    destruct Hr as [_ Hr]. lia. }
  assert (Hd2 : Reader._data r1
                = (pre ++ be_bytes 32 (len bs)) ++ bs
                  ++ (repeat x00 (Z.to_nat ((- len bs) mod 32)) ++ suf)).
  { cbn [r1 Reader.advance Reader._data]. rewrite Hd. unfold pad32.
    rewrite <- !app_assoc. reflexivity. }
  assert (Ho2 : Reader._offset r1 = len (pre ++ be_bytes 32 (len bs))).
  { cbn [r1 Reader.advance Reader._offset]. rewrite Ho, len_app, len_be_bytes. lia. }
  destruct (reader_at r1 _ _ _ Hw Hd2 Ho2) as (_ & _ & Hsl2).
  rewrite (readBytes_any r1 (len bs) true Hr1 Hn).
  - rewrite Hsl2. eexists. split; reflexivity.
  - cbn [r1 Reader.advance Reader._data Reader._offset]. rewrite Hd, Ho, !len_app.
    rewrite len_be_bytes, pad32_length. pose proof (len_nonneg suf). lia.
Qed.

Lemma encodes_Bytes name v bs : arrayify v = Ok bs -> len bs < MAX_SAFE ->
  encodes (BytesCoder name) v (be_bytes 32 (len bs) ++ pad32 bs).
Proof.
  intros Hv Hl w Hw. unfold BytesCoder. cbn [Coder.encode].
  destruct (DynamicBytes_encode w bs Hw Hl) as (n & w' & E & A).
  unfold DynamicBytesCoder_encode in *. rewrite Hv.
  cbn [arrayify isHexString isBytes bind bytes_of] in E. cbn [bind].
  rewrite E. now exists n, w'.
Qed.

Lemma decodes_Bytes name bs : len bs < 2 ^ 53 ->
  decodes (BytesCoder name) (be_bytes 32 (len bs) ++ pad32 bs)
    (VString (js ("0x" +++ hexlify_bytes bs))).
Proof.
  intros Hl r pre suf Hw Hc Hd Ho.
  destruct (DynamicBytes_decode r pre suf bs Hw Hl Hd Ho) as (r' & E & Hc').
  unfold BytesCoder. cbn [Coder.decode Coder.dynamic]. unfold Reader.bindM at 1. rewrite E.
  unfold Reader.bindM, Reader.lift. cbn [hexlify isBytes bind bytes_of isHexString].
  unfold Reader.coerceM. rewrite (coerce_bytes r' "") by congruence.
  eexists. split; [reflexivity|discriminate].
Qed.

(** ** Hex text as a number, and addresses *)

Lemma starts00_cases e : starts00 e = true ->
  exists r, e = String "0" (String "0" r) /\ r <> "".
Proof.
  destruct e as [|a [|b [|c r]]]; try discriminate. cbn [starts00]. intros H.
  apply andb_true_iff in H. destruct H as [Ha Hb]. apply Ascii.eqb_eq in Ha, Hb. subst.
  eexists. split; [reflexivity|discriminate].
Qed.

(** [strip] drops zeros only, and two at a time. *)
Lemma strip00_zeros fuel : forall e,
  exists k, e = zeros (2 * k) +++ strip00 fuel e.
Proof.
  induction fuel as [|f IH]; intros e; [exists 0%nat; reflexivity|].
  cbn [strip00]. destruct (starts00 e) eqn:E; [|exists 0%nat; reflexivity].
  destruct (starts00_cases e E) as (r & -> & _). cbn [string_drop].
  destruct (IH r) as [k Hk]. exists (S k).
  replace (2 * S k)%nat with (S (S (2 * k))) by lia. cbn [zeros String.append].
  now rewrite <- Hk.
Qed.

Lemma slen_zeros n : slen (zeros n) = Z.of_nat n.
Proof. induction n as [|n IH]; [reflexivity|]. cbn [zeros]. rewrite slen_String, IH. lia. Qed.

Lemma append_inj_r a b c : a +++ b = a +++ c -> b = c.
Proof. induction a as [|x a IH]; cbn; [auto|]. intros [= H]. auto. Qed.

Lemma strip_zeros e :
  zeros (Z.to_nat (slen e - slen (strip e))) +++ strip e = e
  /\ Z.odd (slen (strip e)) = Z.odd (slen e)
  /\ slen (strip e) <= slen e.
Proof.
  destruct (strip00_zeros (String.length e) e) as [k Hk]. fold (strip e) in Hk.
  assert (Hl : slen e = Z.of_nat (2 * k) + slen (strip e)).
  { rewrite Hk at 1. now rewrite slen_append, slen_zeros. }
  split; [|split].
  - replace (Z.to_nat (slen e - slen (strip e))) with (2 * k)%nat by lia. now symmetry.
  - rewrite Hl. replace (Z.of_nat (2 * k) + slen (strip e))
      with (slen (strip e) + 2 * Z.of_nat k) by lia.
    now rewrite Z.odd_add_mul_2.
  - lia.
Qed.

Lemma strip_nonempty e : e <> "" -> strip e <> "".
Proof.
  unfold strip. generalize (String.length e) as fuel. intros fuel. revert e.
  induction fuel as [|f IH]; intros e He; [exact He|].
  cbn [strip00]. destruct (starts00 e) eqn:E; [|exact He].
  destruct (starts00_cases e E) as (r & -> & Hr). cbn [string_drop]. now apply IH.
Qed.

(** A leading zero byte does not change what [strip] leaves. *)
Lemma strip_zero_byte e : e <> "" -> strip (String "0" (String "0" e)) = strip e.
Proof.
  intros He.
  assert (E : starts00 (String "0" (String "0" e)) = true)
    by (destruct e; [congruence|reflexivity]).
  change (strip (String "0" (String "0" e)))
    with (if starts00 (String "0" (String "0" e))
          then strip00 (S (String.length e)) e else String "0" (String "0" e)).
  rewrite E. apply strip00_strip. lia.
Qed.

Lemma hexlify_zero_bytes n bs :
  hexlify_bytes (repeat x00 n ++ bs) = zeros (2 * n) +++ hexlify_bytes bs.
Proof.
  induction n as [|n IH]; [reflexivity|].
  replace (2 * S n)%nat with (S (S (2 * n))) by lia. cbn [repeat app hexlify_bytes zeros].
  rewrite IH. reflexivity.
Qed.

Lemma strip_zero_bytes n e : e <> "" -> strip (zeros (2 * n) +++ e) = strip e.
Proof.
  intros He. induction n as [|n IH]; [reflexivity|].
  replace (2 * S n)%nat with (S (S (2 * n))) by lia. cbn [zeros String.append].
  rewrite strip_zero_byte; [exact IH|].
  destruct (zeros (2 * n)); cbn; [exact He|discriminate].
Qed.

(** The word of a hex text of at most 64 digits. *)
Lemma getValue_hex_text w d : std_writer w ->
  d <> "" -> string_forallb is_hex d = true -> Z.odd (slen d) = false -> slen d <= 64 ->
  BigNumber.from (VString (js ("0x" +++ d))) = Ok (mkBigNumber ("0x" +++ strip d))
  /\ Writer._getValue w (VString (js ("0x" +++ d))) = Ok (be_bytes 32 (BN.parse 16 d 0)).
Proof.
  intros Hw Hd Hh Ho Hl.
  assert (Ef : BigNumber.from (VString (js ("0x" +++ d)))
               = Ok (mkBigNumber ("0x" +++ strip d))).
  { unfold BigNumber.from, BigNumber_from. rewrite latin1_js. unfold BigNumber_from_text.
    rewrite is_hex_number_0x by assumption. unfold toHex.
    change (first_is "-" ("0x" +++ d)) with false. cbv iota. cbn [bind].
    now rewrite toHex_unsigned_prefixed. }
  split; [exact Ef|].
  destruct (strip_zeros d) as (_ & Hodd & Hle).
  assert (Hsh : string_forallb is_hex (strip d) = true) by now apply strip_forallb.
  assert (Hso : Z.odd (slen (strip d)) = false) by congruence.
  unfold Writer._getValue. rewrite Ef. cbn [bind].
  rewrite (arrayify_BigNumber_0x (strip d) Hsh Hso). cbn [bind].
  destruct (arrayify_hex_value (strip d) Hsh Hso) as [Hv H2].
  rewrite parse_strip in Hv.
  assert (Hne : 0 < slen (strip d)).
  { pose proof (strip_nonempty d Hd). destruct (strip d); [congruence|].
    rewrite slen_String. pose proof (slen_nonneg s). lia. }
  destruct Hw as [Hws Hp]. rewrite Hws, Hp.
  assert (Hlen : 0 < len (arrayify_hex (strip d)) <= 32) by lia.
  zbool. rewrite pad_word by assumption. now rewrite Hv.
Qed.

(** What [encodes] and [decodes] give on a fresh writer and a reader over
    the bytes written. *)
Lemma roundtrip_fresh c v bs v' : encodes c v bs -> decodes c bs v' ->
  exists n w, Coder.encode c (Writer.new 32) v = Ok (n, w)
    /\ wbytes w = bs
    /\ fst (Coder.decode c (Reader.new (wbytes w) 32 None false)) = Ok v'.
Proof.
  intros He Hd. destruct (He (Writer.new 32) std_new) as (n & w & E & Ha).
  exists n, w. split; [exact E|].
  pose proof (appended_wbytes _ _ _ Ha) as Hb.
  change (wbytes (Writer.new 32)) with (@nil byte) in Hb. cbn [app] in Hb.
  split; [exact Hb|]. rewrite Hb.
  destruct (Hd (Reader.new bs 32 None false) [] []) as (r' & Er & _);
    try reflexivity.
  - cbn [Reader.new Reader._data app]. now rewrite app_nil_r.
  - now rewrite Er.
Qed.

(** ** Round trips of the elementary coders *)

(** The number coder of [size] bytes (1 to 32), signed or not, on a value
    that reads as the integer [z].  When [z] is in the coder's range the
    value is written as one word, the 32 bytes of [z] modulo 2^256, and
    decoding that word gives [z] back (a number up to 48 bits, a
    [BigNumber] above).  When [z] is outside the range, [encode] throws
    the invalid-argument error "value out-of-bounds" and writes nothing. *)
Theorem NumberCoder_roundtrip (size : Z) (signed : bool) (localName : option string)
    (v : value) (z : Z) :
  1 <= size <= 32 -> toBN v = Ok z ->
  let coder := NumberCoder size signed localName in
  (in_range size signed z ->
   exists w, Coder.encode coder (Writer.new 32) v = Ok (32, w)
     /\ wbytes w = be_bytes 32 (z mod 2 ^ 256)
     /\ fst (Coder.decode coder (Reader.new (wbytes w) 32 None false))
        = Ok (number_value size z))
  /\ (~ in_range size signed z ->
      Coder.encode coder (Writer.new 32) v
      = throwArgumentError "value out-of-bounds" (name_value localName) v).
Proof.
  intros Hs Hv coder. split; intros Hz.
  - destruct (roundtrip_fresh coder v _ _
                (encodes_Number size signed localName v z Hs Hv Hz)
                (decodes_Number size signed localName z Hs Hz))
      as (n & w & E & Hb & Hd).
    exists w. split; [|split; assumption].
    rewrite E. unfold coder in E.
    rewrite (NumberCoder_encode_spec size signed localName Hs _ v z std_new Hv) in E.
    rewrite (in_range_test size signed z Hs Hz) in E.
    apply (f_equal (fun r => match r with Ok p => fst p | Throw _ => 0 end)) in E.
    unfold Writer._writeData in E. cbn [fst] in E. rewrite len_be_bytes in E.
    now rewrite <- E.
  - unfold coder.
    rewrite (NumberCoder_encode_spec size signed localName Hs _ v z std_new Hv).
    now rewrite (out_of_range_test size signed z Hs Hz).
Qed.

Lemma NumberCoder_roundtrip_witness :
  (exists w, Coder.encode (NumberCoder 2 true None) (Writer.new 32) (VNumber (-2)) = Ok (32, w)
     /\ wbytes w = repeat xff 31 ++ [xfe]
     /\ fst (Coder.decode (NumberCoder 2 true None) (Reader.new (wbytes w) 32 None false))
        = Ok (VNumber (-2)))
  /\ Coder.encode (NumberCoder 2 false None) (Writer.new 32) (VNumber 65536)
     = throwArgumentError "value out-of-bounds" VNull (VNumber 65536).
Proof.
  split.
  - destruct (NumberCoder_roundtrip 2 true None (VNumber (-2)) (-2) ltac:(lia) eq_refl)
      as [H _].
    apply H. unfold in_range. lia.
  - destruct (NumberCoder_roundtrip 2 false None (VNumber 65536) 65536 ltac:(lia) eq_refl)
      as [_ H].
    apply H. unfold in_range. lia.
Defined.

(** The boolean coder accepts every value: it writes the word 1 when the
    value is truthy and the word 0 when it is not, and decoding the word
    gives that boolean.  So a value that is not a boolean comes back as
    its truthiness, never unchanged and never as an error. *)
Theorem BooleanCoder_roundtrip (localName : option string) (v : value) :
  exists n w, Coder.encode (BooleanCoder localName) (Writer.new 32) v = Ok (n, w)
    /\ wbytes w = be_bytes 32 (if truthy v then 1 else 0)
    /\ fst (Coder.decode (BooleanCoder localName) (Reader.new (wbytes w) 32 None false))
       = Ok (VBool (truthy v)).
Proof.
  apply roundtrip_fresh; [apply encodes_Boolean|apply decodes_Boolean].
Qed.

(** The coder of [bytesN] (N from 1 to 32) on a value that [arrayify]
    reads as the bytes [bs].  When there are exactly N bytes they are
    written followed by zeros up to one word, and decoding gives the
    lower-case hex text of the same N bytes.  Any other length makes
    [encode] throw the invalid-argument error "incorrect data length":
    short data is not padded and long data is not cut. *)
Theorem FixedBytesCoder_roundtrip (size : Z) (localName : option string)
    (v : value) (bs : list byte) :
  1 <= size <= 32 -> arrayify v = Ok bs ->
  let coder := FixedBytesCoder size localName in
  (len bs = size ->
   exists n w, Coder.encode coder (Writer.new 32) v = Ok (n, w)
     /\ wbytes w = bs ++ repeat x00 (Z.to_nat (32 - size))
     /\ fst (Coder.decode coder (Reader.new (wbytes w) 32 None false))
        = Ok (VString (js ("0x" +++ hexlify_bytes bs))))
  /\ (len bs <> size ->
      Coder.encode coder (Writer.new 32) v
      = throwArgumentError "incorrect data length" (name_value localName) v).
Proof.
  intros Hs Hv coder. split; intros Hl.
  - destruct (roundtrip_fresh coder v _ _
                (encodes_FixedBytes size localName v bs Hv Hl)
                (decodes_FixedBytes size localName bs Hs Hl))
      as (n & w & E & Hb & Hd).
    exists n, w. split; [exact E|]. split; [|exact Hd].
    rewrite Hb. unfold pad32. do 2 f_equal. rewrite Hl.
    replace (- size) with (32 - size + (-1) * 32) by lia.
    rewrite Z.mod_add by lia. now rewrite Z.mod_small by lia.
  - unfold coder, FixedBytesCoder. cbn [Coder.encode]. rewrite Hv. cbn [bind].
    apply Z.eqb_neq in Hl. now rewrite Hl.
Qed.

Lemma FixedBytesCoder_roundtrip_witness :
  (exists n w, Coder.encode (FixedBytesCoder 2 None) (Writer.new 32) (VString (js "0xABcd"))
               = Ok (n, w)
     /\ wbytes w = [xab; xcd] ++ repeat x00 30
     /\ fst (Coder.decode (FixedBytesCoder 2 None) (Reader.new (wbytes w) 32 None false))
        = Ok (VString (js "0xabcd")))
  /\ Coder.encode (FixedBytesCoder 4 None) (Writer.new 32) (VString (js "0xabcd"))
     = throwArgumentError "incorrect data length" VNull (VString (js "0xabcd")).
Proof.
  split.
  - destruct (FixedBytesCoder_roundtrip 2 None (VString (js "0xABcd")) [xab; xcd]
                ltac:(lia) eq_refl) as [H _].
    apply H. reflexivity.
  - destruct (FixedBytesCoder_roundtrip 4 None (VString (js "0xabcd")) [xab; xcd]
                ltac:(lia) eq_refl) as [_ H].
    apply H. discriminate.
Defined.

(** The coder of dynamic [bytes] on a value that [arrayify] reads as the
    bytes [bs] (fewer than 2^53 - 1 of them): it writes one word holding
    the length, then the bytes followed by zeros up to a whole number of
    words, and decoding what was written gives the lower-case hex text of
    exactly those bytes, whatever their length. *)
Theorem BytesCoder_roundtrip (localName : option string) (v : value) (bs : list byte) :
  arrayify v = Ok bs -> len bs < MAX_SAFE ->
  exists n w, Coder.encode (BytesCoder localName) (Writer.new 32) v = Ok (n, w)
    /\ wbytes w = be_bytes 32 (len bs) ++ bs ++ repeat x00 (Z.to_nat ((- len bs) mod 32))
    /\ fst (Coder.decode (BytesCoder localName) (Reader.new (wbytes w) 32 None false))
       = Ok (VString (js ("0x" +++ hexlify_bytes bs))).
Proof.
  intros Hv Hl. apply roundtrip_fresh.
  - now apply encodes_Bytes.
  - apply decodes_Bytes. unfold MAX_SAFE in Hl. lia.
Qed.

Lemma BytesCoder_roundtrip_witness :
  exists n w, Coder.encode (BytesCoder None) (Writer.new 32) (VString (js "0x010203")) = Ok (n, w)
    /\ wbytes w = be_bytes 32 3 ++ [x01; x02; x03] ++ repeat x00 29
    /\ fst (Coder.decode (BytesCoder None) (Reader.new (wbytes w) 32 None false))
       = Ok (VString (js "0x010203")).
Proof.
  apply (BytesCoder_roundtrip None (VString (js "0x010203")) [x01; x02; x03] eq_refl).
  vm_compute. reflexivity.
Defined.

(** ** The address coder *)

Lemma hexZeroPad_ok d L : string_forallb is_hex d = true -> 0 <= L -> slen d <= 2 * L ->
  hexZeroPad ("0x" +++ d) L = Ok ("0x" +++ zeros (Z.to_nat (2 * L - slen d)) +++ d).
Proof.
  intros Hh HL Hl. change ("0x" +++ d) with (String "0" (String "x" d)).
  assert (Et : isHexString_text (String "0" (String "x" d)) = true).
  { cbn [isHexString_text]. now rewrite Hh. }
  pose proof (slen_nonneg d) as Hd.
  unfold hexZeroPad. rewrite Et. cbn [negb]. rewrite !slen_String. zbool.
  f_equal. apply hexZeroPad_loop_spec; lia.
Qed.

Lemma hexZeroPad_long d L : string_forallb is_hex d = true -> 2 * L < slen d ->
  hexZeroPad ("0x" +++ d) L
  = throwArgumentError "value out of range" (VString (js "value")) (VNumber L).
Proof.
  intros Hh Hl. change ("0x" +++ d) with (String "0" (String "x" d)).
  assert (Et : isHexString_text (String "0" (String "x" d)) = true).
  { cbn [isHexString_text]. now rewrite Hh. }
  unfold hexZeroPad. rewrite Et. cbn [negb]. rewrite !slen_String. zbool. reflexivity.
Qed.

Lemma no_upper_lowhex s :
  string_forallb is_lowhex s = true -> string_existsb is_upper_hex s = false.
Proof.
  intros H. induction s as [|c s IH]; [reflexivity|].
  cbn [string_forallb string_existsb] in *.
  apply andb_true_iff in H. destruct H as [Hc Hs]. rewrite (IH Hs), orb_false_r.
  revert Hc. destruct c as [[] [] [] [] [] [] [] []]; cbv; congruence.
Qed.

(** The checksum form of the address whose 20 bytes are [A]. *)
Lemma getAddress_lower d : String.length d = 40%nat -> string_forallb is_hex d = true ->
  getAddress (VString (js ("0x" +++ toLowerCase d)))
  = Ok ("0x" +++ checksum_chars (toLowerCase d)
                   (Keccak.digest (bytes_of_text (toLowerCase d)))).
Proof.
  intros Hl Hh. pose proof (toLowerCase_hex d Hh) as Hlow.
  assert (Hh' : string_forallb is_hex (toLowerCase d) = true)
    by (eapply forallb_impl; [apply is_lowhex_is_hex|exact Hlow]).
  assert (Hl' : String.length (toLowerCase d) = 40%nat) by now rewrite length_toLowerCase.
  unfold getAddress. rewrite latin1_js. unfold getAddress_text.
  change ("0x" +++ toLowerCase d) with (String "0" (String "x" (toLowerCase d))).
  assert (Ea : is_address_text (String "0" (String "x" (toLowerCase d))) = true).
  { unfold is_address_text. rewrite Hl', Hh'. reflexivity. }
  rewrite Ea. change (substring 0 2 (String "0" (String "x" (toLowerCase d)))) with "0x".
  change (negb (String.eqb "0x" "0x")) with false. cbv iota.
  rewrite (getChecksumAddress_hex _ Hl' Hh'). cbn [bind].
  rewrite (toLowerCase_lowhex _ Hlow).
  assert (Em : has_mixed_case (String "0" (String "x" (toLowerCase d))) = false).
  { unfold has_mixed_case. cbn [string_existsb]. rewrite (no_upper_lowhex _ Hlow).
    reflexivity. }
  rewrite Em. reflexivity.
Qed.

(** What [getAddress] accepts with the prefix, and what it returns. *)
Lemma getAddress_prefixed d r : getAddress (VString (js ("0x" +++ d))) = Ok r ->
  String.length d = 40%nat /\ string_forallb is_hex d = true
  /\ r = "0x" +++ checksum_chars (toLowerCase d)
                    (Keccak.digest (bytes_of_text (toLowerCase d))).
Proof.
  unfold getAddress. rewrite latin1_js. unfold getAddress_text.
  change ("0x" +++ d) with (String "0" (String "x" d)).
  destruct (is_address_text (String "0" (String "x" d))) eqn:Ea.
  - unfold is_address_text in Ea. apply andb_true_iff in Ea. destruct Ea as [Hl Hh].
    apply Nat.eqb_eq in Hl.
    change (substring 0 2 (String "0" (String "x" d))) with "0x".
    change (negb (String.eqb "0x" "0x")) with false. cbv iota.
    rewrite (getChecksumAddress_hex _ Hl Hh). cbn [bind].
    destruct (_ && _); [discriminate|]. intros [= <-]. auto.
  - change (is_icap_text (String "0" (String "x" d))) with false. cbv iota. discriminate.
Qed.

Lemma address_word d : String.length d = 40%nat -> string_forallb is_hex d = true ->
  be_bytes 32 (BN.parse 16 d 0) = repeat x00 12 ++ arrayify_hex d
  /\ List.length (arrayify_hex d) = 20%nat
  /\ hexlify_bytes (arrayify_hex d) = toLowerCase d.
Proof.
  intros Hl Hh. destruct (hexlify_arrayify_hex 20 d Hl Hh) as [E L].
  assert (Ho : Z.odd (slen d) = false) by (unfold slen; rewrite Hl; reflexivity).
  destruct (arrayify_hex_value d Hh Ho) as [Hv _].
  split; [|split; assumption]. symmetry. apply be_bytes_unique.
  - rewrite length_app, repeat_length, L. reflexivity.
  - now rewrite be_value_zeros.
Qed.

Lemma encodes_Address name d r :
  getAddress (VString (js ("0x" +++ d))) = Ok r ->
  encodes (AddressCoder name) (VString (js ("0x" +++ d))) (repeat x00 12 ++ arrayify_hex d).
Proof.
  intros Hg w Hw. destruct (getAddress_prefixed d r Hg) as (Hl & Hh & _).
  unfold AddressCoder. cbn [Coder.encode]. rewrite Hg. unfold Writer.writeValue.
  assert (Hd : d <> "") by (destruct d; [discriminate|congruence]).
  assert (Ho : Z.odd (slen d) = false) by (unfold slen; rewrite Hl; reflexivity).
  assert (H64 : slen d <= 64) by (unfold slen; rewrite Hl; lia).
  destruct (getValue_hex_text w d Hw Hd Hh Ho H64) as [_ Ev]. rewrite Ev. cbn [bind].
  destruct (address_word d Hl Hh) as (Ew & _). rewrite Ew.
  do 2 eexists. split; [reflexivity|]. apply appended_writeData.
Qed.

(** Decoding a word: the twelve leading bytes must be zero. *)
Lemma AddressCoder_decode_word name r : std_reader r ->
  Reader._offset r + 32 <= len (Reader._data r) ->
  let word := slice (Reader._data r) (Reader._offset r) (Reader._offset r + 32) in
  Coder.decode (AddressCoder name) r
  = (h <- hexZeroPad ("0x" +++ strip (hexlify_bytes word)) 20 ;;
     a <- getAddress (VString (js h)) ;; Ok (VString (js a)),
     Reader.advance r 32).
Proof.
  intros Hr Hlen word.
  destruct (readValue_ok r Hr Hlen) as (Hrv & _ & _ & Hl). fold word in Hrv, Hl.
  assert (Hne : word <> []) by (destruct word; [discriminate|congruence]).
  unfold AddressCoder. cbn [Coder.decode]. unfold Reader.bindM, Reader.lift, Reader.ret.
  rewrite Hrv. unfold BigNumber.toHexString. rewrite (BN_of_bytes_hex word Hne).
  destruct (hexZeroPad _ 20) as [h|e]; [|reflexivity]. cbn [bind].
  destruct (getAddress _) as [a|e]; reflexivity.
Qed.

Lemma decodes_Address name A : List.length A = 20%nat ->
  decodes (AddressCoder name) (repeat x00 12 ++ A)
    (VString (js ("0x" +++ checksum_chars (hexlify_bytes A)
                             (Keccak.digest (bytes_of_text (hexlify_bytes A)))))).
Proof.
  intros HA r pre suf Hw Hc Hd Ho.
  assert (Hlw : len (repeat x00 12 ++ A) = 32).
  { unfold len. rewrite length_app, repeat_length, HA. reflexivity. }
  destruct (reader_at r pre _ suf Hw Hd Ho) as (Hr & Hlen & Hsl).
  rewrite Hlw in Hlen, Hsl.
  rewrite (AddressCoder_decode_word name r Hr Hlen). cbv zeta. rewrite Hsl.
  assert (Hne : hexlify_bytes A <> "").
  { destruct A; [discriminate|]. cbn [hexlify_bytes]. discriminate. }
  rewrite (hexlify_zero_bytes 12 A), (strip_zero_bytes 12 _ Hne).
  pose proof (hexlify_bytes_hex A) as HhA.
  assert (HlA : slen (hexlify_bytes A) = 40).
  { rewrite slen_hexlify_bytes. unfold len. rewrite HA. reflexivity. }
  destruct (strip_zeros (hexlify_bytes A)) as (Ez & _ & Hle).
  rewrite hexZeroPad_ok by (try apply strip_forallb; try assumption; lia).
  replace (Z.to_nat (2 * 20 - slen (strip (hexlify_bytes A))))
    with (Z.to_nat (slen (hexlify_bytes A) - slen (strip (hexlify_bytes A))))
    by (rewrite HlA; reflexivity).
  rewrite Ez. cbn [bind].
  assert (HL : String.length (hexlify_bytes A) = 40%nat) by (unfold slen in HlA; lia).
  pose proof (getAddress_lower (hexlify_bytes A) HL HhA) as Eg.
  rewrite (toLowerCase_lowhex _ (hexlify_bytes_lowhex A)) in Eg. rewrite Eg. cbn [bind].
  eexists. split; [reflexivity|]. intros _. now rewrite Hlw.
Qed.

(** *** Addresses written without the prefix *)








(** ** The address coder *)

(** An address written with the prefix [0x] that [getAddress] accepts is
    encoded as one word, twelve zero bytes and the twenty bytes of its
    digits, and decoding that word gives what [getAddress] returns for
    it: the address in checksum case, whatever the case it was written
    in.  Decoding does not mask the word: one that holds 2^160 or more is
    refused with the invalid-argument error "value out of range". *)
Theorem AddressCoder_roundtrip (localName : option string) (d r : string)
    (word : list byte) :
  (getAddress (VString (js ("0x" +++ d))) = Ok r ->
   exists n w,
     Coder.encode (AddressCoder localName) (Writer.new 32) (VString (js ("0x" +++ d)))
     = Ok (n, w)
     /\ wbytes w = repeat x00 12 ++ arrayify_hex d
     /\ fst (Coder.decode (AddressCoder localName) (Reader.new (wbytes w) 32 None false))
        = Ok (VString (js r)))
  /\ (List.length word = 32%nat -> 2 ^ 160 <= be_value word ->
      fst (Coder.decode (AddressCoder localName) (Reader.new word 32 None false))
      = throwArgumentError "value out of range" (VString (js "value")) (VNumber 20)).
Proof.
  split.
  - intros Hg. destruct (getAddress_prefixed d r Hg) as (Hl & Hh & Er).
    destruct (address_word d Hl Hh) as (_ & HlA & Ehex).
    pose proof (decodes_Address localName (arrayify_hex d) HlA) as Hd.
    rewrite Ehex, <- Er in Hd.
    exact (roundtrip_fresh _ _ _ _ (encodes_Address localName d r Hg) Hd).
  - intros Hl Hv.
    assert (Hlen : len word = 32) by (unfold len; rewrite Hl; reflexivity).
    rewrite AddressCoder_decode_word;
      [|split; [reflexivity|cbn [Reader.new Reader._offset]; lia]
       |cbn [Reader.new Reader._data Reader._offset]; lia].
    cbn [fst Reader.new Reader._data Reader._offset]. change (0 + 32) with 32.
    rewrite (slice_prefix word 32) by lia.
    pose proof (hexlify_bytes_hex word) as Hh.
    pose proof (strip_forallb is_hex _ Hh) as Hs.
    destruct (strip_zeros (hexlify_bytes word)) as (_ & Hodd & _).
    rewrite slen_hexlify_bytes in Hodd.
    assert (Ho : Z.odd (slen (strip (hexlify_bytes word))) = false).
    { rewrite Hodd, Hlen. reflexivity. }
    destruct (arrayify_hex_value _ Hs Ho) as [Ev El].
    rewrite parse_strip, parse_hexlify_bytes in Ev.
    pose proof (be_value_range (arrayify_hex (strip (hexlify_bytes word)))) as Hr.
    rewrite Ev in Hr.
    assert (Hlong : 2 * 20 < slen (strip (hexlify_bytes word))).
    { destruct (Z.lt_ge_cases 20 (len (arrayify_hex (strip (hexlify_bytes word)))))
        as [|Hle]; [lia|].
      pose proof (len_nonneg (arrayify_hex (strip (hexlify_bytes word)))) as H0.
      assert (256 ^ len (arrayify_hex (strip (hexlify_bytes word))) <= 256 ^ 20)
        by (apply Z.pow_le_mono_r; lia).
      change (256 ^ 20) with (2 ^ 160) in *. lia. }
    now rewrite (hexZeroPad_long _ 20 Hs Hlong).
Qed.

Lemma AddressCoder_roundtrip_witness :
  (exists n w,
     Coder.encode (AddressCoder None) (Writer.new 32)
       (VString (js "0x5aaeb6053f3e94c9b9a09f33669435e7ef1beaed")) = Ok (n, w)
     /\ fst (Coder.decode (AddressCoder None) (Reader.new (wbytes w) 32 None false))
        = Ok (VString (js "0x5aAeb6053F3E94C9b9A09f33669435E7Ef1BeAed")))
  /\ fst (Coder.decode (AddressCoder None)
            (Reader.new (repeat x00 11 ++ [x01] ++ repeat x00 20) 32 None false))
     = throwArgumentError "value out of range" (VString (js "value")) (VNumber 20).
Proof.
  destruct (AddressCoder_roundtrip None "5aaeb6053f3e94c9b9a09f33669435e7ef1beaed"
              "0x5aAeb6053F3E94C9b9A09f33669435E7Ef1BeAed"
              (repeat x00 11 ++ [x01] ++ repeat x00 20)) as [H1 H2].
  split.
  - destruct (H1 ltac:(vm_compute; reflexivity)) as (n & w & E & _ & D).
    exists n, w. split; assumption.
  - apply H2; [reflexivity|vm_compute; discriminate].
Defined.



(** ** pack: the head and tail layout *)

Lemma set_nth_app {A} (D : list A) x rest w :
  Writer.set_nth (D ++ x :: rest) (List.length D) w = D ++ w :: rest.
Proof. induction D as [|a D IH]; [reflexivity|]. cbn. now rewrite IH. Qed.

Lemma packs_length coders vs fs : packs coders vs fs ->
  List.length coders = List.length vs /\ List.length fs = List.length vs.
Proof. induction 1; cbn; [auto|]. lia. Qed.

Lemma len_heads fs : forall base off, len (heads fs base off) = head_len fs.
Proof.
  induction fs as [|[[] bs] fs IH]; intros base off; cbn [heads head_len].
  - reflexivity.
  - rewrite len_app, len_be_bytes, IH. reflexivity.
  - rewrite len_app, IH. reflexivity.
Qed.

Lemma head_len_nonneg fs : 0 <= head_len fs.
Proof.
  induction fs as [|[[] bs] fs IH]; cbn [head_len]; [lia|lia|].
  pose proof (len_nonneg bs). lia.
Qed.

Lemma len_layout fs : len (layout fs) = head_len fs + len (tails fs).
Proof. unfold layout. now rewrite len_app, len_heads. Qed.

Lemma pack_backfill_spec ufs base : forall sw, std_writer sw ->
  Forall (fun u => 0 <= base + snd u < MAX_SAFE) ufs ->
  pack_backfill ufs base sw
  = Ok {| Writer.wordSize := Writer.wordSize sw;
          Writer._data := fill ufs base (Writer._data sw);
          Writer._dataLength := Writer._dataLength sw;
          Writer._padding := Writer._padding sw |}.
Proof.
  induction ufs as [|[i off] ufs IH]; intros sw Hw Hf.
  - destruct sw. reflexivity.
  - inversion Hf as [|u l Hu Hl]; subst. cbn [snd] in Hu.
    cbn [pack_backfill fill]. unfold Writer.update.
    rewrite (getValue_VNumber sw _ Hw Hu). cbn [bind].
    rewrite IH; [reflexivity| |exact Hl].
    destruct Hw as [H1 H2]. split; assumption.
Qed.

Lemma pack_loop_spec coders vs fs : packs coders vs fs ->
  forall g items index sw dw ufs,
    (forall k v, nth_error vs k = Some v -> read_index g items (index + k) = Ok v) ->
    std_writer sw -> std_writer dw ->
    exists sw' dw' ufs' schunks,
      pack_loop coders g items index sw dw ufs = Ok (sw', dw', ufs ++ ufs')
      /\ Writer._data sw' = Writer._data sw ++ schunks
      /\ std_writer sw'
      /\ Writer._dataLength sw' = Writer._dataLength sw + head_len fs
      /\ appended dw dw' (tails fs)
      /\ Forall (fun u => Writer.length dw <= snd u <= Writer.length dw + len (tails fs)) ufs'
      /\ (forall base D, List.length D = List.length (Writer._data sw) ->
            concat_arrays (fill ufs' base (D ++ schunks))
            = concat_arrays D ++ heads fs base (Writer.length dw)).
Proof.
  induction 1 as [|c v bs cs vs fs He Hp IH]; intros g items index sw dw ufs Hr Hsw Hdw.
  - exists sw, dw, [], []. cbn [pack_loop heads tails head_len fill]. rewrite !app_nil_r.
    split; [reflexivity|]. split; [reflexivity|]. split; [assumption|].
    split; [lia|]. split; [apply appended_refl|]. split; [constructor|].
    intros base D _. now rewrite !app_nil_r.
  - cbn [pack_loop].
    assert (Hr' : forall k v0, nth_error vs k = Some v0 ->
                    read_index g items (S index + k) = Ok v0).
    { intros k v0 Hk. replace (S index + k)%nat with (index + S k)%nat by lia.
      now apply Hr. }
    pose proof (Hr 0%nat v eq_refl) as Hv. replace (index + 0)%nat with index in Hv by lia.
    rewrite Hv. cbn [bind].
    destruct (Coder.dynamic c) eqn:Ed.
    + destruct (He dw Hdw) as (n & dw1 & Ee & Ha). rewrite Ee. cbn [bind].
      pose proof (appended_std _ _ _ Ha Hdw) as Hdw1.
      unfold Writer.writeUpdatableValue.
      set (sw1 := {| Writer.wordSize := Writer.wordSize sw;
                     Writer._data := Writer._data sw ++ [Writer._padding sw];
                     Writer._dataLength := Writer._dataLength sw + Writer.wordSize sw;
                     Writer._padding := Writer._padding sw |}).
      assert (Hsw1 : std_writer sw1) by (destruct Hsw; split; assumption).
      destruct (IH g items (S index) sw1 dw1
                  (ufs ++ [(List.length (Writer._data sw), Writer.length dw)]) Hr' Hsw1 Hdw1)
        as (sw' & dw' & ufs' & sch & El & Ed' & Hs' & Hl' & Ha' & Hf' & Hfill).
      exists sw', dw', ((List.length (Writer._data sw), Writer.length dw) :: ufs'),
        (Writer._padding sw :: sch).
      pose proof (appended_length _ _ _ Ha) as Hlen1.
      pose proof (len_nonneg bs) as Hbs. pose proof (len_nonneg (tails fs)) as Hts.
      cbn [heads tails head_len]. rewrite len_app.
      split; [rewrite El, <- app_assoc; reflexivity|].
      split; [rewrite Ed'; unfold sw1; cbn [Writer._data]; now rewrite <- app_assoc|].
      split; [exact Hs'|].
      split; [rewrite Hl'; unfold sw1; cbn [Writer._dataLength];
              destruct Hsw as [-> _]; lia|].
      split; [eapply appended_trans; eassumption|].
      split.
      * constructor; [cbn [snd]; lia|].
        eapply Forall_impl; [|exact Hf']. intros u Hu. cbn beta in Hu. lia.
      * intros base D HD. cbn [fill]. rewrite <- HD, set_nth_app.
        replace (D ++ be_bytes 32 (base + Writer.length dw) :: sch)
          with ((D ++ [be_bytes 32 (base + Writer.length dw)]) ++ sch)
          by (rewrite <- app_assoc; reflexivity).
        rewrite Hfill.
        -- rewrite concat_arrays_app. cbn [concat_arrays]. rewrite app_nil_r, <- app_assoc.
           now rewrite Hlen1.
        -- unfold sw1. cbn [Writer._data]. rewrite !length_app, HD. reflexivity.
    + destruct (He sw Hsw) as (n & sw1 & Ee & Ha). rewrite Ee. cbn [bind].
      pose proof (appended_std _ _ _ Ha Hsw) as Hsw1.
      destruct Ha as (c1 & Ed1 & Ec1 & Hw1 & Hp1 & Hl1).
      destruct (IH g items (S index) sw1 dw ufs Hr' Hsw1 Hdw)
        as (sw' & dw' & ufs' & sch & El & Ed' & Hs' & Hl' & Ha' & Hf' & Hfill).
      exists sw', dw', ufs', (c1 ++ sch). cbn [heads tails head_len].
      split; [exact El|].
      split; [rewrite Ed', Ed1, <- app_assoc; reflexivity|].
      split; [exact Hs'|].
      split; [rewrite Hl', Hl1; lia|].
      split; [exact Ha'|].
      split; [exact Hf'|].
      intros base D HD. rewrite app_assoc, Hfill.
      * rewrite concat_arrays_app, Ec1, <- app_assoc. reflexivity.
      * rewrite Ed1, !length_app, HD. reflexivity.
Qed.

Lemma read_index_items (g : bool) vs : (g = true -> Forall (fun v => forall e, v <> VError e) vs) ->
  forall k v, nth_error vs k = Some v -> read_index g vs (0 + k) = Ok v.
Proof.
  intros Hg k v Hk. cbn [Nat.add]. unfold read_index. rewrite Hk.
  destruct v; try reflexivity. destruct g; [|reflexivity].
  exfalso. specialize (Hg eq_refl). rewrite Forall_forall in Hg.
  apply nth_error_In in Hk. exact (Hg _ Hk _ eq_refl).
Qed.

(** [pack] on the values of an array or a [Result]. *)
Lemma pack_spec w coders values vs fs : std_writer w ->
  array_items values = Some vs ->
  (is_result values = true -> Forall (fun v => forall e, v <> VError e) vs) ->
  packs coders vs fs -> len (layout fs) < MAX_SAFE ->
  exists w', pack w coders values = Ok (len (layout fs), w') /\ appended w w' (layout fs).
Proof.
  intros Hw Hi Hres Hp Hmax. destruct (packs_length _ _ _ Hp) as [Hlc _].
  unfold pack.
  assert (Ei : match values with
               | VArray items | VResult items _ => Ok items
               | VBigNumber _ | VBytes _ | VIndexed _ | VError _ => pack_names coders values []
               | _ => throwArgumentError "invalid tuple value" (VString (js "tuple")) values
               end = Ok vs).
  { destruct values; try discriminate; cbn [array_items] in Hi; congruence. }
  rewrite Ei. cbn [bind]. unfold len at 1 2. rewrite Hlc, Z.eqb_refl. cbn [negb].
  destruct Hw as [Hws Hwp]. rewrite Hws.
  destruct (pack_loop_spec coders vs fs Hp (is_result values) vs 0%nat
              (Writer.new 32) (Writer.new 32) []
              (read_index_items _ vs Hres) std_new std_new)
    as (sw' & dw' & ufs' & sch & El & Ed & Hs' & Hl' & Ha' & Hf' & Hfill).
  cbn [app] in El. rewrite El. cbn [bind].
  change (Writer._dataLength (Writer.new 32)) with 0 in Hl'.
  change (Writer.length (Writer.new 32)) with 0 in Hf', Hfill.
  change (Writer._data (Writer.new 32)) with (@nil (list byte)) in Ed, Hfill.
  cbn [app] in Ed. unfold Writer.length at 1. rewrite Hl', Z.add_0_l.
  rewrite len_layout in Hmax.
  pose proof (head_len_nonneg fs) as Hh.
  rewrite pack_backfill_spec; [|exact Hs'|].
  2:{ eapply Forall_impl; [|exact Hf']. intros u Hu. cbn beta in Hu. lia. }
  cbn [bind]. unfold Writer.appendWriter. cbn [Writer._data].
  specialize (Hfill (head_len fs) [] eq_refl). cbn [app concat_arrays] in Hfill.
  rewrite Ed, Hfill.
  destruct Ha' as (dch & Edd & Edc & _ & _ & _).
  change (Writer._data (Writer.new 32)) with (@nil (list byte)) in Edd. cbn [app] in Edd.
  rewrite Edd, Edc.
  unfold Writer._writeData at 2. cbn [fst snd].
  unfold Writer._writeData at 1.
  eexists. split.
  - f_equal. f_equal. unfold layout. now rewrite len_app.
  - exists [heads fs (head_len fs) 0; tails fs]. cbn [Writer._data Writer.wordSize
      Writer._padding Writer._dataLength concat_arrays].
    rewrite <- app_assoc, app_nil_r. cbn [app].
    split; [reflexivity|]. split; [reflexivity|]. split; [reflexivity|].
    split; [reflexivity|]. unfold layout. rewrite len_app. lia.
Qed.

Lemma encodes_Tuple coders name values vs fs :
  array_items values = Some vs ->
  (is_result values = true -> Forall (fun v => forall e, v <> VError e) vs) ->
  packs coders vs fs -> len (layout fs) < MAX_SAFE ->
  encodes (TupleCoder coders name) values (layout fs).
Proof.
  intros Hi Hres Hp Hmax w Hw. unfold TupleCoder. cbn [Coder.encode].
  destruct (pack_spec w coders values vs fs Hw Hi Hres Hp Hmax) as (w' & E & Ha).
  eauto.
Qed.

Lemma checkArgumentCount_eq n msg : checkArgumentCount n n msg = Ok tt.
Proof. unfold checkArgumentCount. now rewrite Z.ltb_irrefl, Z.gtb_ltb, Z.ltb_irrefl. Qed.

Lemma encodes_Array coder length name values vs fs :
  array_items values = Some vs ->
  (is_result values = true -> Forall (fun v => forall e, v <> VError e) vs) ->
  packs (repeat coder (List.length vs)) vs fs ->
  length = -1 \/ length = len vs ->
  len vs < MAX_SAFE -> len (layout fs) < MAX_SAFE ->
  encodes (ArrayCoder coder length name) values
    ((if length =? -1 then be_bytes 32 (len vs) else []) ++ layout fs).
Proof.
  intros Hi Hres Hp Hl Hn Hmax w Hw. unfold ArrayCoder. cbn [Coder.encode]. rewrite Hi.
  pose proof (len_nonneg vs) as H0.
  destruct (length =? -1) eqn:El.
  - rewrite writeValue_VNumber by (try assumption; lia).
    pose proof (appended_writeData w (be_bytes 32 (len vs))) as Ha1.
    pose proof (std_writeData w (be_bytes 32 (len vs)) Hw) as Hw1.
    unfold Writer._writeData in *. cbn [snd] in Ha1, Hw1. cbn [bind].
    rewrite checkArgumentCount_eq. cbn [bind].
    destruct (pack_spec _ _ values vs fs Hw1 Hi Hres Hp Hmax) as (w' & E & Ha).
    rewrite E. do 2 eexists. split; [reflexivity|].
    eapply appended_trans; [exact Ha1|exact Ha].
  - destruct Hl as [Hl|Hl]; [rewrite Hl in El; discriminate|]. rewrite Hl. cbn [bind].
    rewrite checkArgumentCount_eq. cbn [bind].
    destruct (pack_spec w _ values vs fs Hw Hi Hres Hp Hmax) as (w' & E & Ha).
    rewrite E. do 2 eexists. split; [reflexivity|exact Ha].
Qed.

(** ** unpack: reading the layout *)

Lemma advance_advance r a b :
  Reader.advance (Reader.advance r a) b = Reader.advance r (a + b).
Proof. unfold Reader.advance. cbn. f_equal. lia. Qed.

Lemma advance_0 r : Reader.advance r 0 = r.
Proof. destruct r. unfold Reader.advance. cbn. f_equal. lia. Qed.

Lemma len_tails_nonneg fs : 0 <= len (tails fs).
Proof. apply len_nonneg. Qed.

Lemma decode_fields_spec coders fs vs : unpacks coders fs vs ->
  forall base r pre suf Hall Td X B off,
    Reader.wordSize r = 32 -> Reader._coerceFunc r = None ->
    Reader._data r = pre ++ heads fs B off ++ suf -> Reader._offset r = len pre ->
    Reader.wordSize base = 32 -> Reader._coerceFunc base = None -> Reader._offset base = 0 ->
    Reader._data base = Hall ++ Td ++ tails fs ++ X -> len Hall = B -> len Td = off ->
    B + off + len (tails fs) < 2 ^ 53 ->
    decode_fields base coders r = (Ok (map Ok vs), Reader.advance r (head_len fs)).
Proof.
  induction 1 as [|c bs v cs fs vs Hd Hk Hu IH];
    intros base r pre suf Hall Td X B off Hw Hc Hdat Hoff Hbw Hbc Hbo Hbd HB HT Hmax.
  - cbn [decode_fields head_len map]. unfold Reader.ret. now rewrite advance_0.
  - cbn [decode_fields head_len map]. unfold Reader.bindM at 1.
    pose proof (len_nonneg Hall) as H1. pose proof (len_nonneg Td) as H2.
    pose proof (len_nonneg bs) as H3. pose proof (len_nonneg (tails fs)) as H4.
    unfold decode_field. destruct (Coder.dynamic c) eqn:Ed.
    + cbn [heads tails] in Hdat, Hbd, Hmax. rewrite len_app in Hmax.
      rewrite <- app_assoc in Hdat.
      destruct (reader_at r pre (be_bytes 32 (B + off)) _ Hw Hdat Hoff) as (Hr & Hlen & Hsl).
      rewrite len_be_bytes in Hlen, Hsl. change (Z.of_nat 32) with 32 in Hlen, Hsl.
      destruct (readValue_ok r Hr Hlen) as (Hrv & Hbn & _). rewrite Hsl in Hrv, Hbn.
      rewrite be_value_be_bytes in Hbn. change (256 ^ Z.of_nat 32) with (2 ^ 256) in Hbn.
      rewrite Z.mod_small in Hbn by lia.
      unfold Reader.bindM, Reader.lift, Reader.ret. rewrite Hrv.
      rewrite (toNumber_ok _ _ Hbn) by lia.
      set (sub := Reader.subReader base (B + off)).
      assert (Esub : Reader._data sub = [] ++ bs ++ (tails fs ++ X)).
      { unfold sub, Reader.subReader. cbn [Reader.new Reader._data app].
        rewrite Hbo, Z.add_0_l, Hbd, app_assoc.
        replace (B + off) with (len (Hall ++ Td)) by (rewrite len_app; lia).
        rewrite slice_from_app. now rewrite <- app_assoc. }
      assert (Hsw : Reader.wordSize sub = 32).
      { unfold sub, Reader.subReader. cbn [Reader.new Reader.wordSize]. now rewrite Hbw. }
      assert (Hsc : Reader._coerceFunc sub = None) by exact Hbc.
      assert (Hso : Reader._offset sub = len (@nil byte)) by reflexivity.
      destruct (Hd sub [] (tails fs ++ X) Hsw Hsc Esub Hso) as (r' & Er & _).
      * rewrite Er. cbn [fst].
        rewrite (IH base (Reader.advance r 32) (pre ++ be_bytes 32 (B + off)) suf
                   Hall (Td ++ bs) X B (off + len bs)); try assumption.
        -- now rewrite advance_advance.
        -- unfold Reader.advance. cbn [Reader._data]. now rewrite Hdat, <- app_assoc.
        -- unfold Reader.advance. cbn [Reader._offset].
           rewrite Hoff, len_app, len_be_bytes. reflexivity.
        -- rewrite Hbd, <- !app_assoc. reflexivity.
        -- rewrite len_app. lia.
        -- lia.
    + cbn [heads tails] in Hdat, Hbd, Hmax. rewrite <- app_assoc in Hdat.
      destruct (Hd r pre (heads fs B off ++ suf) Hw Hc Hdat Hoff) as (r' & Er & Hr').
      rewrite Er. specialize (Hr' Ed). subst r'. unfold Reader.bindM, Reader.ret.
      rewrite (IH base (Reader.advance r (len bs)) (pre ++ bs) suf Hall Td X B off);
        try assumption.
      * now rewrite advance_advance.
      * unfold Reader.advance. cbn [Reader._data]. now rewrite Hdat, <- app_assoc.
      * unfold Reader.advance. cbn [Reader._offset]. rewrite Hoff, len_app. reflexivity.
Qed.

Lemma unpacks_length coders fs vs : unpacks coders fs vs ->
  List.length coders = List.length vs /\ List.length fs = List.length vs.
Proof. induction 1; cbn; [auto|]. lia. Qed.

Lemma unpacks_keep coders fs vs : unpacks coders fs vs -> forallb keep vs = true.
Proof.
  induction 1 as [|c bs v cs fs vs Hd Hk Hu IH]; [reflexivity|].
  cbn [forallb]. unfold keep at 1. now rewrite Hk, IH.
Qed.

Lemma unpacks_static coders fs vs : unpacks coders fs vs ->
  existsb Coder.dynamic coders = false -> tails fs = [].
Proof.
  induction 1 as [|c bs v cs fs vs Hd Hk Hu IH]; [reflexivity|].
  cbn [existsb]. intros H. apply orb_false_iff in H. destruct H as [H1 H2].
  rewrite H1. cbn [tails]. auto.
Qed.

Lemma deferred_Ok coders : forall vs, List.length coders = List.length vs ->
  deferred coders (map Ok vs) = vs.
Proof.
  induction coders as [|c cs IH]; intros [|v vs] H; try discriminate; [reflexivity|].
  cbn [map deferred defer]. f_equal. apply IH. cbn in H. lia.
Qed.

Lemma no_overrun_Ok (vs : list value) :
  forallb (fun out => negb (overrun out)) (map Ok vs) = true.
Proof. induction vs as [|v vs IH]; [reflexivity|exact IH]. Qed.

(** [unpack] over the layout of its fields. *)
Lemma unpack_layout coders fs vs r pre suf : unpacks coders fs vs ->
  Reader.wordSize r = 32 -> Reader._coerceFunc r = None ->
  Reader._data r = pre ++ layout fs ++ suf -> Reader._offset r = len pre ->
  len (layout fs) < 2 ^ 53 -> forallb plain_name coders = true ->
  unpack coders r = (Ok (unpacked coders vs), Reader.advance r (head_len fs))
  /\ array_items (unpacked coders vs) = Some vs.
Proof.
  intros Hu Hw Hc Hd Ho Hmax Hpl.
  destruct (unpacks_length _ _ _ Hu) as [Hlc _].
  rewrite len_layout in Hmax.
  assert (Hf : decode_fields (Reader.subReader r 0) coders r
               = (Ok (map Ok vs), Reader.advance r (head_len fs))).
  { apply (decode_fields_spec coders fs vs Hu (Reader.subReader r 0) r pre
             (tails fs ++ suf) (heads fs (head_len fs) 0) [] suf (head_len fs) 0);
      try assumption; try reflexivity.
    - rewrite Hd. unfold layout. now rewrite <- app_assoc.
    - unfold Reader.subReader. cbn [Reader.new Reader.wordSize]. now rewrite Hw.
    - unfold Reader.subReader. cbn [Reader.new Reader._data app].
      rewrite Z.add_0_r, Ho, Hd, slice_from_app. unfold layout. now rewrite <- app_assoc.
    - apply len_heads.
    - lia. }
  pose proof (unpack_loop_deferred coders (Reader.subReader r 0) [] r _ _ Hf
                (no_overrun_Ok vs)) as El.
  rewrite (deferred_Ok coders vs Hlc), (filter_keep_all vs (unpacks_keep _ _ _ Hu)) in El.
  cbn [app] in El.
  destruct (unpack_names_plain coders coders [] vs [] eq_refl Hpl) as (named & En & _).
  { intros k v H. discriminate. }
  cbn [List.length] in En.
  unfold unpack, unpacked. rewrite El, En. cbn [bind].
  rewrite unpack_getters_nil. cbn [bind]. split; reflexivity.
Qed.

Lemma coerce_plain r name v : Reader._coerceFunc r = None -> match_int_name name = None ->
  Reader.coerce r name v = Ok v.
Proof. intros Hc Hn. unfold Reader.coerce, Reader.coerce_default. now rewrite Hc, Hn. Qed.

Lemma decodes_Tuple coders name fs vs : unpacks coders fs vs ->
  len (layout fs) < 2 ^ 53 -> forallb plain_name coders = true ->
  decodes (TupleCoder coders name) (layout fs) (unpacked coders vs).
Proof.
  intros Hu Hmax Hpl r pre suf Hw Hc Hd Ho.
  destruct (unpack_layout coders fs vs r pre suf Hu Hw Hc Hd Ho Hmax Hpl) as [E _].
  unfold TupleCoder. cbn [Coder.decode Coder.dynamic]. unfold Reader.bindM. rewrite E.
  unfold Reader.coerceM. rewrite coerce_plain by (reflexivity || exact Hc).
  eexists. split; [reflexivity|]. intros Hs.
  rewrite len_layout, (unpacks_static _ _ _ Hu Hs). change (len (@nil byte)) with 0.
  now rewrite Z.add_0_r.
Qed.

Lemma unpack_names_anonymous all : forall coders i items getters named,
  Forall (fun c => Coder.localName c = None) coders ->
  unpack_names all coders i items getters named = Ok (items, getters, named).
Proof.
  induction coders as [|c cs IH]; intros i items getters named H; [reflexivity|].
  inversion H as [|c' l Hc Hl]; subst. cbn [unpack_names]. rewrite Hc. now apply IH.
Qed.

Lemma anonymous_repeat c n :
  Forall (fun c => Coder.localName c = None) (repeat (AnonymousCoder c) n).
Proof. induction n; cbn [repeat]; constructor; [reflexivity|assumption]. Qed.

Lemma unpacked_anonymous c n vs : unpacked (repeat (AnonymousCoder c) n) vs = VResult vs [].
Proof. unfold unpacked. now rewrite unpack_names_anonymous by apply anonymous_repeat. Qed.

Lemma plain_anonymous c n : forallb plain_name (repeat (AnonymousCoder c) n) = true.
Proof. induction n; [reflexivity|exact IHn]. Qed.

Lemma existsb_repeat_anonymous c n :
  existsb Coder.dynamic (repeat (AnonymousCoder c) n) = false \/ Coder.dynamic c = true.
Proof.
  destruct (Coder.dynamic c) eqn:E; [now right|left].
  induction n; [reflexivity|]. cbn [repeat existsb AnonymousCoder Coder.dynamic].
  now rewrite E.
Qed.

Lemma decodes_Array coder length name fs vs :
  unpacks (repeat (AnonymousCoder coder) (List.length vs)) fs vs ->
  length = -1 \/ length = len vs ->
  (length = -1 -> len vs * 32 <= 32 + len (layout fs)) ->
  32 + len (layout fs) < 2 ^ 53 ->
  decodes (ArrayCoder coder length name)
    ((if length =? -1 then be_bytes 32 (len vs) else []) ++ layout fs) (VResult vs []).
Proof.
  intros Hu Hl Hcount Hmax r pre suf Hw Hc Hd Ho.
  pose proof (len_nonneg vs) as H0. pose proof (len_nonneg (layout fs)) as H1.
  unfold ArrayCoder. cbn [Coder.decode Coder.dynamic]. unfold Reader.bindM at 1.
  destruct (length =? -1) eqn:El.
  - rewrite <- app_assoc in Hd.
    destruct (reader_at r pre (be_bytes 32 (len vs)) _ Hw Hd Ho) as (Hr & Hlen & Hsl).
    rewrite len_be_bytes in Hlen, Hsl. change (Z.of_nat 32) with 32 in Hlen, Hsl.
    destruct (readValue_ok r Hr Hlen) as (Hrv & Hbn & _). rewrite Hsl in Hrv, Hbn.
    rewrite be_value_be_bytes in Hbn. change (256 ^ Z.of_nat 32) with (2 ^ 256) in Hbn.
    assert (Hn53 : len vs < 2 ^ 53).
    { apply Z.eqb_eq in El. specialize (Hcount El). lia. }
    rewrite Z.mod_small in Hbn by lia.
    unfold Reader.bindM, Reader.lift. rewrite Hrv, (toNumber_ok _ _ Hbn) by lia.
    assert (Hdl : len (Reader._data (Reader.advance r 32))
                  = len pre + 32 + len (layout fs) + len suf).
    { unfold Reader.advance. cbn [Reader._data].
      rewrite Hd, !len_app, len_be_bytes. lia. }
    pose proof (len_nonneg pre) as H2. pose proof (len_nonneg suf) as H3.
    apply Z.eqb_eq in El. specialize (Hcount El).
    assert (Eg : (len vs * 32 >? len (Reader._data (Reader.advance r 32))) = false).
    { rewrite Hdl. zbool. reflexivity. }
    rewrite Eg. unfold len at 1. rewrite Nat2Z.id.
    destruct (unpack_layout _ fs vs (Reader.advance r 32) (pre ++ be_bytes 32 (len vs)) suf Hu)
      as [E _].
    + exact Hw.
    + exact Hc.
    + unfold Reader.advance. cbn [Reader._data]. now rewrite Hd, <- app_assoc.
    + unfold Reader.advance. cbn [Reader._offset]. rewrite Ho, len_app, len_be_bytes.
      reflexivity.
    + lia.
    + apply plain_anonymous.
    + rewrite E, unpacked_anonymous. unfold Reader.coerceM.
      rewrite coerce_plain by (reflexivity || exact Hc).
      eexists. split; [reflexivity|]. cbn [orb]. discriminate.
  - destruct Hl as [Hl|Hl]; [rewrite Hl in El; discriminate|].
    cbn [app] in Hd. unfold Reader.ret, Reader.bindM. subst length. cbv beta iota.
    unfold len at 1. rewrite Nat2Z.id.
    destruct (unpack_layout _ fs vs r pre suf Hu Hw Hc Hd Ho) as [E _].
    + lia.
    + apply plain_anonymous.
    + rewrite E, unpacked_anonymous. unfold Reader.coerceM.
      rewrite coerce_plain by (reflexivity || exact Hc).
      eexists. split; [reflexivity|]. cbn [app]. intros Hs.
      apply orb_false_iff in Hs. destruct Hs as [_ Hs].
      destruct (existsb_repeat_anonymous coder (List.length vs)) as [He|He];
        [|congruence].
      rewrite len_layout, (unpacks_static _ _ _ Hu He). change (len (@nil byte)) with 0.
      now rewrite Z.add_0_r.
Qed.

(** ** Typed values: the coders write and read their encoding *)

Lemma decodes_Anonymous c bs v : decodes c bs v -> decodes (AnonymousCoder c) bs v.
Proof. intros H. exact H. Qed.

Lemma unpacks_anonymous cs fs vs : unpacks cs fs vs -> unpacks (map AnonymousCoder cs) fs vs.
Proof.
  induction 1 as [|c bs v cs fs vs Hd Hk Hu IH]; [constructor|].
  cbn [map]. change (Coder.dynamic c) with (Coder.dynamic (AnonymousCoder c)).
  constructor; [apply decodes_Anonymous| |]; assumption.
Qed.

Lemma unpacked_keeps coders vs : forallb plain_name coders = true ->
  exists named, unpacked coders vs = VResult vs named.
Proof.
  intros Hpl.
  destruct (unpack_names_plain coders coders [] vs [] eq_refl Hpl) as (named & En & _).
  { intros k v H. discriminate. }
  cbn [List.length] in En. unfold unpacked. rewrite En. eauto.
Qed.

Lemma number_value_keep size z : is_nullish (number_value size z) = false.
Proof. unfold number_value. now destruct (size * 8 <=? 48). Qed.

Lemma MAX_SAFE_53 : MAX_SAFE < 2 ^ 53.
Proof. reflexivity. Qed.

Lemma abi_fields_sound : forall cs vs fs vs', abi_fields cs vs fs vs' ->
  packs cs vs fs /\ unpacks cs fs vs'.
Proof.
  fix abi_fields_sound 5
    with (abi_sound c v bs v' (H : abi c v bs v') {struct H} :
            encodes c v bs /\ decodes c bs v' /\ is_nullish v' = false).
  2:{ intros c v bs v' H.
    destruct H as [size signed name v z Hs Hv Hz| name v | size name v bs Hs Hv Hl
                  | name v bs Hv Hl | name d r Hg
                  | coders name values vs fs vs' Hi Hres Hf Hpl Hmax
                  | coder length name values vs fs vs' Hi Hres Hf Hl Hcount Hn Hmax].
    + split; [now apply encodes_Number|]. split; [now apply decodes_Number|].
      apply number_value_keep.
    + split; [apply encodes_Boolean|]. split; [apply decodes_Boolean|reflexivity].
    + split; [now apply encodes_FixedBytes|].
      split; [now apply decodes_FixedBytes|reflexivity].
    + split; [now apply encodes_Bytes|]. split; [|reflexivity].
      apply decodes_Bytes. pose proof MAX_SAFE_53. lia.
    + destruct (getAddress_prefixed d r Hg) as (Hl & Hh & Er).
      destruct (address_word d Hl Hh) as (_ & HlA & Ehex).
      split; [now apply (encodes_Address name d r)|]. split; [|reflexivity].
      pose proof (decodes_Address name (arrayify_hex d) HlA) as Hd.
      now rewrite Ehex, <- Er in Hd.
    + destruct (abi_fields_sound _ _ _ _ Hf) as [Hp Hu].
      split; [now apply (encodes_Tuple coders name values vs fs)|]. split.
      * apply decodes_Tuple; [assumption| |assumption]. pose proof MAX_SAFE_53. lia.
      * destruct (unpacked_keeps coders vs' Hpl) as [named ->]. reflexivity.
    + destruct (abi_fields_sound _ _ _ _ Hf) as [Hp Hu].
      destruct (unpacks_length _ _ _ Hu) as [Hlc _]. rewrite repeat_length in Hlc.
      split; [apply (encodes_Array coder length name values vs fs); try assumption; lia|].
      split; [|reflexivity].
      replace (len vs) with (len vs') in * by (unfold len; now rewrite Hlc).
      apply decodes_Array; try assumption.
      * apply unpacks_anonymous in Hu. rewrite map_repeat, Hlc in Hu. exact Hu.
      * pose proof MAX_SAFE_53. lia. }
  intros cs vs fs vs' H. destruct H as [|c v bs v' cs vs fs vs' Hc Hf].
  - split; constructor.
  - destruct (abi_sound _ _ _ _ Hc) as (He & Hd & Hk).
    destruct (abi_fields_sound _ _ _ _ Hf) as [Hp Hu].
    split; constructor; assumption.
Qed.

Lemma abi_sound c v bs v' : abi c v bs v' ->
  encodes c v bs /\ decodes c bs v' /\ is_nullish v' = false.
Proof.
  intros H.
  destruct (abi_fields_sound [c] [v] _ [v'] (abi_fields_cons _ _ _ _ _ _ _ _ H abi_fields_nil))
    as [Hp Hu].
  inversion Hp; subst. inversion Hu; subst. auto.
Qed.

(** ** pack and unpack *)

(** [pack] lays the fields out as a head and a tail.  When every coder
    writes the bytes of its value ([packs]), [pack] of the array of the
    values appends, to any writer of 32-byte words, the head (the bytes of
    each static field and, for each dynamic field, one word holding the
    offset of its bytes from the start of the head) followed by the bytes
    of the dynamic fields in order, and returns the number of bytes.  A
    number of values other than the number of coders is refused with the
    invalid-argument error "types/value length mismatch". *)
Theorem pack_head_tail_layout (w : Writer.t) (coders : list Coder.t) (vs : list value)
    (fs : list (bool * list byte)) :
  std_writer w ->
  (packs coders vs fs -> len (layout fs) < MAX_SAFE ->
   exists w', pack w coders (VArray vs) = Ok (len (layout fs), w')
     /\ wbytes w' = wbytes w ++ heads fs (head_len fs) 0 ++ tails fs
     /\ Writer.length w' = Writer.length w + len (layout fs))
  /\ (List.length coders <> List.length vs ->
      pack w coders (VArray vs)
      = throwArgumentError "types/value length mismatch" (VString (js "tuple")) (VArray vs)).
Proof.
  intros Hw. split.
  - intros Hp Hmax.
    destruct (pack_spec w coders (VArray vs) vs fs Hw eq_refl) as (w' & E & Ha);
      try assumption; [discriminate|].
    exists w'. split; [exact E|]. split.
    + now rewrite (appended_wbytes _ _ _ Ha).
    + apply (appended_length _ _ _ Ha).
  - intros Hl. unfold pack. cbn [bind].
    assert (E : (len coders =? len vs) = false).
    { apply Z.eqb_neq. unfold len. lia. }
    now rewrite E.
Qed.

Lemma pack_head_tail_layout_witness :
  (exists w',
     pack (Writer.new 32) [BytesCoder None; NumberCoder 1 false None]
       (VArray [VString (js "0xabcd"); VNumber 7])
     = Ok (128, w')
     /\ wbytes w' = be_bytes 32 64 ++ be_bytes 32 7
                    ++ be_bytes 32 2 ++ [xab; xcd] ++ repeat x00 30)
  /\ pack (Writer.new 32) [BooleanCoder None] (VArray [])
     = throwArgumentError "types/value length mismatch" (VString (js "tuple")) (VArray []).
Proof.
  destruct (pack_head_tail_layout (Writer.new 32) [BytesCoder None; NumberCoder 1 false None]
              [VString (js "0xabcd"); VNumber 7]
              [(true, be_bytes 32 2 ++ pad32 [xab; xcd]); (false, be_bytes 32 (7 mod 2 ^ 256))]
              std_new) as [H _].
  destruct (pack_head_tail_layout (Writer.new 32) [BooleanCoder None] [] [] std_new)
    as [_ H2].
  split.
  - destruct H as (w' & E & B & _).
    + apply (packs_cons (BytesCoder None)).
      * apply (encodes_Bytes None (VString (js "0xabcd")) [xab; xcd]);
          [reflexivity|vm_compute; reflexivity].
      * apply (packs_cons (NumberCoder 1 false None)); [|constructor].
        apply (encodes_Number 1 false None (VNumber 7) 7); [lia|reflexivity|].
        unfold in_range. lia.
    + vm_compute. reflexivity.
    + exists w'. split; [exact E|]. rewrite B. reflexivity.
  - apply H2. discriminate.
Defined.

(** [unpack] inverts [pack].  When every coder writes the bytes of its
    value and reads a value (not null) back from them, and no local name
    is an array index or "length", then [unpack] over what [pack] wrote
    returns a [Result] holding exactly the values read back, in order,
    and leaves the reader after the head. *)
Theorem pack_unpack_roundtrip (coders : list Coder.t) (vs vs' : list value)
    (fs : list (bool * list byte)) :
  packs coders vs fs -> unpacks coders fs vs' ->
  forallb plain_name coders = true -> len (layout fs) < MAX_SAFE ->
  exists n w,
    pack (Writer.new 32) coders (VArray vs) = Ok (n, w)
    /\ exists named,
         unpack coders (Reader.new (wbytes w) 32 None false)
         = (Ok (VResult vs' named),
            Reader.advance (Reader.new (wbytes w) 32 None false) (head_len fs)).
Proof.
  intros Hp Hu Hpl Hmax.
  destruct (pack_spec (Writer.new 32) coders (VArray vs) vs fs std_new eq_refl)
    as (w & E & Ha); try assumption; [discriminate|].
  exists (len (layout fs)), w. split; [exact E|].
  pose proof (appended_wbytes _ _ _ Ha) as Hb.
  change (wbytes (Writer.new 32)) with (@nil byte) in Hb. cbn [app] in Hb. rewrite Hb.
  destruct (unpacked_keeps coders vs' Hpl) as [named En]. exists named.
  destruct (unpack_layout coders fs vs' (Reader.new (layout fs) 32 None false) [] []
              Hu eq_refl eq_refl) as [Eu _].
  - cbn [Reader.new Reader._data app]. now rewrite app_nil_r.
  - reflexivity.
  - pose proof MAX_SAFE_53. lia.
  - exact Hpl.
  - now rewrite Eu, En.
Qed.

Lemma pack_unpack_roundtrip_witness :
  exists n w,
    pack (Writer.new 32) [BytesCoder (Some "data"); NumberCoder 1 false (Some "n")]
      (VArray [VString (js "0xABCD"); VString (js "7")]) = Ok (n, w)
    /\ exists named r',
         unpack [BytesCoder (Some "data"); NumberCoder 1 false (Some "n")]
           (Reader.new (wbytes w) 32 None false)
         = (Ok (VResult [VString (js "0xabcd"); VNumber 7] named), r').
Proof.
  destruct (pack_unpack_roundtrip
              [BytesCoder (Some "data"); NumberCoder 1 false (Some "n")]
              [VString (js "0xABCD"); VString (js "7")]
              [VString (js "0xabcd"); VNumber 7]
              [(true, be_bytes 32 2 ++ pad32 [xab; xcd]); (false, be_bytes 32 (7 mod 2 ^ 256))])
    as (n & w & E & named & U).
  - apply (packs_cons (BytesCoder (Some "data"))).
    + apply (encodes_Bytes _ (VString (js "0xABCD")) [xab; xcd]);
        [reflexivity|vm_compute; reflexivity].
    + apply (packs_cons (NumberCoder 1 false (Some "n"))); [|constructor].
      apply (encodes_Number 1 false _ (VString (js "7")) 7); [lia|reflexivity|].
      unfold in_range. lia.
  - apply (unpacks_cons (BytesCoder (Some "data")) _ (VString (js "0xabcd"))).
    + apply (decodes_Bytes _ [xab; xcd]). vm_compute. reflexivity.
    + reflexivity.
    + apply (unpacks_cons (NumberCoder 1 false (Some "n")) _ (VNumber 7));
        [|reflexivity|constructor].
      apply (decodes_Number 1 false _ 7); [lia|]. unfold in_range. lia.
  - reflexivity.
  - vm_compute. reflexivity.
  - exists n, w. split; [exact E|]. eauto.
Defined.

(** ** Typed values through the coders *)

(** Every coder writes the encoding of a typed value and reads the value
    back.  For a number, boolean, fixed or dynamic bytes, address, tuple
    or array coder [c], a value [v] it takes, its encoding [bs] and the
    value [v'] the encoding stands for ([abi c v bs v'], with tuples and
    arrays nested to any depth): [c.encode] on a fresh writer writes
    exactly [bs], and [c.decode] over those bytes returns [v']. *)
Theorem coders_roundtrip (c : Coder.t) (v v' : value) (bs : list byte) :
  abi c v bs v' ->
  exists n w,
    Coder.encode c (Writer.new 32) v = Ok (n, w)
    /\ wbytes w = bs
    /\ fst (Coder.decode c (Reader.new (wbytes w) 32 None false)) = Ok v'.
Proof.
  intros H. destruct (abi_sound c v bs v' H) as (He & Hd & _).
  exact (roundtrip_fresh c v bs v' He Hd).
Qed.

Lemma coders_roundtrip_witness :
  exists n w,
    Coder.encode
      (ArrayCoder (TupleCoder [NumberCoder 32 true (Some "a"); BytesCoder (Some "b")] None)
         (-1) None)
      (Writer.new 32)
      (VArray [VArray [VNumber (-1); VString (js "0x01")];
               VArray [VString (js "300"); VBytes []]])
    = Ok (n, w)
    /\ len (wbytes w) = 320
    /\ fst (Coder.decode
              (ArrayCoder (TupleCoder [NumberCoder 32 true (Some "a"); BytesCoder (Some "b")]
                             None) (-1) None)
              (Reader.new (wbytes w) 32 None false))
       = Ok (VResult
               [VResult [VBigNumber (BN_of (-1)); VString (js "0x01")]
                  [("a", VBigNumber (BN_of (-1))); ("b", VString (js "0x01"))];
                VResult [VBigNumber (BN_of 300); VString (js "0x")]
                  [("a", VBigNumber (BN_of 300)); ("b", VString (js "0x"))]] []).
Proof.
  edestruct (coders_roundtrip
               (ArrayCoder (TupleCoder [NumberCoder 32 true (Some "a"); BytesCoder (Some "b")]
                              None) (-1) None)
               (VArray [VArray [VNumber (-1); VString (js "0x01")];
                        VArray [VString (js "300"); VBytes []]]))
    as (n & w & E & B & D).
  - eapply abi_array.
    + reflexivity.
    + discriminate.
    + apply abi_fields_cons.
      * eapply abi_tuple.
        -- reflexivity.
        -- discriminate.
        -- apply abi_fields_cons.
           ++ apply (abi_number 32 true (Some "a") (VNumber (-1)) (-1));
                [lia|reflexivity|unfold in_range; lia].
           ++ apply abi_fields_cons; [|apply abi_fields_nil].
              apply (abi_bytes (Some "b") (VString (js "0x01")) [x01]);
                [reflexivity|vm_compute; reflexivity].
        -- reflexivity.
        -- vm_compute. reflexivity.
      * apply abi_fields_cons; [|apply abi_fields_nil].
        eapply abi_tuple.
        -- reflexivity.
        -- discriminate.
        -- apply abi_fields_cons.
           ++ apply (abi_number 32 true (Some "a") (VString (js "300")) 300);
                [lia|reflexivity|unfold in_range; lia].
           ++ apply abi_fields_cons; [|apply abi_fields_nil].
              apply (abi_bytes (Some "b") (VBytes []) []);
                [reflexivity|vm_compute; reflexivity].
        -- reflexivity.
        -- vm_compute. reflexivity.
    + left. reflexivity.
    + intros _. vm_compute. discriminate.
    + vm_compute. reflexivity.
    + vm_compute. reflexivity.
  - exists n, w. split; [exact E|]. split; [rewrite B; vm_compute; reflexivity|].
    exact D.
Defined.

(** ** AbiCoder *)

(** [AbiCoder.decode] inverts [AbiCoder.encode].  For types whose coders
    take the values (as typed values, [abi_fields]) and whose names are
    neither array indexes nor "length", with the default coercion:
    [encode] returns the hex text of the head and tail layout of the
    encoded values, and [decode] of that text, loose or not, returns the
    [Result] of the values the encodings stand for.  A number of values
    other than the number of types makes [encode] throw the
    invalid-argument error "types/values length mismatch". *)
Theorem AbiCoder_roundtrip (this : AbiCoder.t) (types : list TypeArg)
    (values vs' : list value) (coders : list Coder.t) (fs : list (bool * list byte))
    (loose : bool) :
  (AbiCoder.coerceFunc this = None ->
   AbiCoder.getCoders types = Ok coders -> abi_fields coders values fs vs' ->
   forallb plain_name coders = true -> len (layout fs) < MAX_SAFE ->
   AbiCoder.encode this types values = Ok ("0x" +++ hexlify_bytes (layout fs))
   /\ exists named,
        AbiCoder.decode this types (VString (js ("0x" +++ hexlify_bytes (layout fs)))) loose
        = Ok (VResult vs' named))
  /\ (List.length types <> List.length values ->
      fails_with INVALID_ARGUMENT (AbiCoder.encode this types values)).
Proof.
  split.
  - intros Hc Hg Hf Hpl Hmax.
    destruct (abi_fields_sound _ _ _ _ Hf) as [Hp Hu].
    destruct (packs_length _ _ _ Hp) as [Hl _].
    assert (Hlt : List.length coders = List.length types).
    { revert Hg. unfold AbiCoder.getCoders. clear. revert coders.
      induction types as [|t ts IH]; intros coders; cbn [mapM].
      - now intros [= <-].
      - destruct (_ <- ParamType_from t ;; AbiCoder._getCoder _) as [c|e]; [|discriminate].
        cbn [bind]. destruct (mapM _ ts) as [cs|e]; [|discriminate].
        cbn [bind]. intros [= <-]. cbn [List.length]. f_equal. now apply IH. }
    split.
    + unfold AbiCoder.encode. unfold len. rewrite <- Hlt, Hl, Z.eqb_refl. cbn [negb].
      rewrite Hg. cbn [bind].
      destruct (encodes_Tuple coders (Some "_") (VArray values) values fs eq_refl)
        with (w := AbiCoder._getWriter this) as (n & w & E & Ha);
        try assumption; [discriminate|apply std_new|].
      rewrite E. cbn [bind]. unfold Writer.data. f_equal. f_equal. f_equal.
      pose proof (appended_wbytes _ _ _ Ha) as Hb. exact Hb.
    + destruct (unpacked_keeps coders vs' Hpl) as [named En]. exists named.
      unfold AbiCoder.decode. rewrite Hg. cbn [bind].
      rewrite arrayify_hexlify_text. cbn [bind].
      assert (Hd : decodes (TupleCoder coders (Some "_")) (layout fs) (unpacked coders vs')).
      { apply decodes_Tuple; [assumption| |assumption]. pose proof MAX_SAFE_53. lia. }
      destruct (Hd (AbiCoder._getReader this (layout fs) loose) [] []) as (r' & Er & _).
      * reflexivity.
      * exact Hc.
      * cbn [AbiCoder._getReader Reader.new Reader._data app]. now rewrite app_nil_r.
      * reflexivity.
      * now rewrite Er, En.
  - intros Hl. unfold AbiCoder.encode.
    assert (E : (len types =? len values) = false).
    { apply Z.eqb_neq. unfold len. lia. }
    rewrite E. cbn [negb]. eexists. split; reflexivity.
Qed.

Lemma AbiCoder_roundtrip_witness :
  AbiCoder.encode defaultAbiCoder [TString "uint8"; TString "bytes data"; TString "bool[]"]
    [VNumber 7; VString (js "0xabcd"); VArray [VBool true; VBool false]]
  = Ok ("0x" +++ hexlify_bytes
                   (be_bytes 32 7 ++ be_bytes 32 96 ++ be_bytes 32 160
                    ++ (be_bytes 32 2 ++ [xab; xcd] ++ repeat x00 30)
                    ++ (be_bytes 32 2 ++ be_bytes 32 1 ++ be_bytes 32 0)))
  /\ (exists named,
        AbiCoder.decode defaultAbiCoder
          [TString "uint8"; TString "bytes data"; TString "bool[]"]
          (VString (js ("0x" +++ hexlify_bytes
                   (be_bytes 32 7 ++ be_bytes 32 96 ++ be_bytes 32 160
                    ++ (be_bytes 32 2 ++ [xab; xcd] ++ repeat x00 30)
                    ++ (be_bytes 32 2 ++ be_bytes 32 1 ++ be_bytes 32 0))))) false
        = Ok (VResult [VNumber 7; VString (js "0xabcd");
                       VResult [VBool true; VBool false] []] named))
  /\ fails_with INVALID_ARGUMENT (AbiCoder.encode defaultAbiCoder [TString "uint8"] []).
Proof.
  assert (Hf : abi_fields
                 [NumberCoder 1 false None; BytesCoder (Some "data");
                  ArrayCoder (BooleanCoder None) (-1) None]
                 [VNumber 7; VString (js "0xabcd"); VArray [VBool true; VBool false]]
                 [(false, be_bytes 32 (7 mod 2 ^ 256));
                  (true, be_bytes 32 (len [xab; xcd]) ++ pad32 [xab; xcd]);
                  (true, be_bytes 32 2
                         ++ layout [(false, be_bytes 32 1); (false, be_bytes 32 0)])]
                 [VNumber 7; VString (js "0xabcd"); VResult [VBool true; VBool false] []]).
  { apply (abi_fields_cons (NumberCoder 1 false None)).
    - apply (abi_number 1 false _ (VNumber 7) 7); [lia|reflexivity|unfold in_range; lia].
    - apply (abi_fields_cons (BytesCoder (Some "data"))).
      + apply (abi_bytes _ (VString (js "0xabcd")) [xab; xcd]);
          [reflexivity|vm_compute; reflexivity].
      + apply (abi_fields_cons (ArrayCoder (BooleanCoder None) (-1) None));
          [|apply abi_fields_nil].
        apply (abi_array (BooleanCoder None) (-1) None (VArray [VBool true; VBool false])
                 [VBool true; VBool false]
                 [(false, be_bytes 32 1); (false, be_bytes 32 0)]
                 [VBool true; VBool false]).
        * reflexivity.
        * discriminate.
        * apply (abi_fields_cons (BooleanCoder None) (VBool true)); [apply abi_boolean|].
          apply (abi_fields_cons (BooleanCoder None) (VBool false));
            [apply abi_boolean|apply abi_fields_nil].
        * left. reflexivity.
        * intros _. vm_compute. discriminate.
        * vm_compute. reflexivity.
        * vm_compute. reflexivity. }
  destruct (AbiCoder_roundtrip defaultAbiCoder
              [TString "uint8"; TString "bytes data"; TString "bool[]"]
              [VNumber 7; VString (js "0xabcd"); VArray [VBool true; VBool false]]
              [VNumber 7; VString (js "0xabcd"); VResult [VBool true; VBool false] []]
              [NumberCoder 1 false None; BytesCoder (Some "data");
               ArrayCoder (BooleanCoder None) (-1) None]
              [(false, be_bytes 32 (7 mod 2 ^ 256));
               (true, be_bytes 32 (len [xab; xcd]) ++ pad32 [xab; xcd]);
               (true, be_bytes 32 2
                      ++ layout [(false, be_bytes 32 1); (false, be_bytes 32 0)])]
              false)
    as [H _].
  destruct (AbiCoder_roundtrip defaultAbiCoder [TString "uint8"] [] [] [] [] false)
    as [_ H2].
  destruct (H eq_refl) as [E D].
  - reflexivity.
  - exact Hf.
  - reflexivity.
  - vm_compute. reflexivity.
  - split; [exact E|]. split; [exact D|]. apply H2. discriminate.
Defined.
